(** * Multi_Thread: the double-buffered entity pipeline

    A shallow embedding of the entity store, the event queue and the
    physics, render and damage systems of [Thread/Thread.cpp] (the parallel
    pipeline) and of the earlier handshake program of the same repository,
    with the properties its specification states about them, followed by
    further properties of the same code, of the renderer, and of the
    reference-counted first draft ([Draft]).

    Conventions.
    - [double] is the kernel's binary64 [float]; [+=], [<], [>], [!=] and
      [*= -1] are [PrimFloat.add], [ltb], [negb (eqb _ _)] and [mul _ (-1)].
    - A [std::vector] is a [list]; [v[i]] is stdpp's lookup, and an access
      outside the vector (undefined behaviour in C++) makes the operation
      return [None].
    - [Entity] ([uint32_t]) is [nat]: the code only forms ids up to
      [MAX_ENTITIES].
    - [int] is [Z]; the one subtraction the code performs on it cannot
      overflow (see [apply_event]). *)

From Stdlib Require Import ZArith Floats Ascii Lia.
From stdpp Require Import base option list gmap.

(** ** Components *)

Abbreviation Entity := nat (only parsing).
Definition MAX_ENTITIES : Entity := 1000%nat.

Record TransformComponent := mkTransform { x : float; y : float }.
Record PhysicsComponent := mkPhysics { vx : float; vy : float }.
Record RenderComponent := mkRender { symbol : ascii }.
Record HealthComponent := mkHealth { health : Z }.

(** Member initialisers of the four structs. *)
Definition TransformComponent_default := mkTransform 0%float 0%float.
Definition PhysicsComponent_default := mkPhysics 0%float 0%float.
Definition RenderComponent_default := mkRender "000"%char.
Definition HealthComponent_default := mkHealth 100%Z.

Record CollisionEvent := mkCollision { a : Entity; b : Entity }.

(** [std::variant<CollisionEvent>]: a sum with its one alternative. *)
Inductive GameEvent := Collision (arg : CollisionEvent).

(** The event physics pushes when entity [i] meets the world edge. *)
Definition boundary_event (i : Entity) : GameEvent :=
  Collision (mkCollision i MAX_ENTITIES).

(** ** EventQueue

    [m_queue] is the list of pending events, oldest first.  Every member
    function holds [m_mutex] for its whole body, so each is one atomic
    transition of the queue. *)
Module EventQueue.

Definition t := list GameEvent.

Definition Push (event : GameEvent) (m_queue : t) : t :=
  m_queue ++ [event].

(** [std::nullopt] on an empty queue, else the front element, which
    [pop_front] removes. *)
Definition TryPop (m_queue : t) : option GameEvent * t :=
  match m_queue with
  | [] => (None, m_queue)
  | ev :: rest => (Some ev, rest)
  end.

Definition Empty (m_queue : t) : bool :=
  match m_queue with [] => true | _ => false end.

(** [WaitPop] sleeps on the condition variable until the queue is not
    empty: [None] is a call that has not returned, which is where a caller
    with no concurrent [Push] stays. *)
Definition WaitPop (m_queue : t) : option (GameEvent * t) :=
  match m_queue with
  | [] => None
  | ev :: rest => Some (ev, rest)
  end.

(** [n] calls of [WaitPop] by one consumer, and what they returned. *)
Fixpoint WaitPops (n : nat) (m_queue : t) : option (list GameEvent * t) :=
  match n with
  | O => Some ([], m_queue)
  | S n' =>
      '(ev, m_queue) ← WaitPop m_queue;
      '(evs, m_queue) ← WaitPops n' m_queue;
      Some (ev :: evs, m_queue)
  end.

(** The earlier program's [Pop]: [m_queue.front()] then
    [m_queue.erase(m_queue.begin())] on a vector. *)
Definition Pop (m_queue : t) : option GameEvent * t :=
  match m_queue with
  | [] => (None, m_queue)
  | event :: _ => (Some event, drop 1 m_queue)
  end.

(** A client's view: a sequence of calls, and what the pops returned. *)
Inductive op := DoPush (event : GameEvent) | DoTryPop.

Fixpoint run (ops : list op) (q : t) : list (option GameEvent) * t :=
  match ops with
  | [] => ([], q)
  | DoPush event :: ops' => run ops' (Push event q)
  | DoTryPop :: ops' =>
      let '(r, q') := TryPop q in
      let '(rs, q'') := run ops' q' in
      (r :: rs, q'')
  end.

(** The events a sequence of calls pushed, in call order. *)
Definition pushed (ops : list op) : list GameEvent :=
  flat_map (fun o => match o with DoPush e => [e] | DoTryPop => [] end) ops.

(** The events the pops returned, in call order. *)
Definition popped (rs : list (option GameEvent)) : list GameEvent :=
  omap id rs.

Definition is_pop (o : op) : bool :=
  match o with DoTryPop => true | DoPush _ => false end.

End EventQueue.

(** ** Scene *)

Record Scene := mkScene {
  m_frontBufferIndex : Z;
  m_transforms : list TransformComponent * list TransformComponent;
  m_physics : list PhysicsComponent;
  m_renders : list RenderComponent;
  m_healths : list HealthComponent;
  m_entity_active : list bool
}.

(** The constructor: every table resized to [MAX_ENTITIES]. *)
Definition Scene_new : Scene :=
  {| m_frontBufferIndex := 0%Z;
     m_transforms := (replicate MAX_ENTITIES TransformComponent_default,
                      replicate MAX_ENTITIES TransformComponent_default);
     m_physics := replicate MAX_ENTITIES PhysicsComponent_default;
     m_renders := replicate MAX_ENTITIES RenderComponent_default;
     m_healths := replicate MAX_ENTITIES HealthComponent_default;
     m_entity_active := replicate MAX_ENTITIES false |}.

(** What the constructor establishes and every operation below keeps. *)
Record scene_wf (s : Scene) : Prop := {
  wf_front : m_frontBufferIndex s = 0%Z \/ m_frontBufferIndex s = 1%Z;
  wf_transforms0 : length (fst (m_transforms s)) = MAX_ENTITIES;
  wf_transforms1 : length (snd (m_transforms s)) = MAX_ENTITIES;
  wf_physics : length (m_physics s) = MAX_ENTITIES;
  wf_renders : length (m_renders s) = MAX_ENTITIES;
  wf_healths : length (m_healths s) = MAX_ENTITIES;
  wf_active : length (m_entity_active s) = MAX_ENTITIES
}.

(** [m_transforms[idx]]: the array has two elements. *)
Definition GetTransformsAt (s : Scene) (idx : Z) : option (list TransformComponent) :=
  match idx with
  | 0%Z => Some (fst (m_transforms s))
  | 1%Z => Some (snd (m_transforms s))
  | _ => None
  end.

Definition GetTransformsAtConst := GetTransformsAt.

Definition LoadFrontIndex (s : Scene) : Z := m_frontBufferIndex s.

Definition GetTransforms_Front (s : Scene) := GetTransformsAt s (m_frontBufferIndex s).
Definition GetTransforms_Back (s : Scene) := GetTransformsAt s (1 - m_frontBufferIndex s)%Z.

Definition GetPhysics (s : Scene) := m_physics s.
Definition GetRenders (s : Scene) := m_renders s.
Definition GetHealths (s : Scene) := m_healths s.
Definition GetActiveEntities (s : Scene) := m_entity_active s.

Definition StoreFrontIndex (s : Scene) (idx : Z) : Scene :=
  {| m_frontBufferIndex := idx;
     m_transforms := m_transforms s;
     m_physics := m_physics s;
     m_renders := m_renders s;
     m_healths := m_healths s;
     m_entity_active := m_entity_active s |}.

Definition SwapTransformBuffers (s : Scene) : Scene :=
  StoreFrontIndex s (1 - m_frontBufferIndex s)%Z.

(** Writing a whole buffer back after a loop that updated it in place. *)
Definition with_transforms_at (s : Scene) (idx : Z)
    (buf : list TransformComponent) : Scene :=
  {| m_frontBufferIndex := m_frontBufferIndex s;
     m_transforms :=
       match idx with
       | 0%Z => (buf, snd (m_transforms s))
       | 1%Z => (fst (m_transforms s), buf)
       | _ => m_transforms s
       end;
     m_physics := m_physics s;
     m_renders := m_renders s;
     m_healths := m_healths s;
     m_entity_active := m_entity_active s |}.

Definition with_physics (s : Scene) (physics : list PhysicsComponent) : Scene :=
  {| m_frontBufferIndex := m_frontBufferIndex s;
     m_transforms := m_transforms s;
     m_physics := physics;
     m_renders := m_renders s;
     m_healths := m_healths s;
     m_entity_active := m_entity_active s |}.

Definition with_healths (s : Scene) (healths : list HealthComponent) : Scene :=
  {| m_frontBufferIndex := m_frontBufferIndex s;
     m_transforms := m_transforms s;
     m_physics := m_physics s;
     m_renders := m_renders s;
     m_healths := healths;
     m_entity_active := m_entity_active s |}.

Definition with_active (s : Scene) (active : list bool) : Scene :=
  {| m_frontBufferIndex := m_frontBufferIndex s;
     m_transforms := m_transforms s;
     m_physics := m_physics s;
     m_renders := m_renders s;
     m_healths := m_healths s;
     m_entity_active := active |}.

(** [for (Entity i = first; i < first + count; ++i) body]: the loops of the
    systems all run [i] from 0 to [MAX_ENTITIES]. *)
Fixpoint for_range {St : Type} (body : Entity -> St -> option St)
    (first : Entity) (count : nat) (st : St) : option St :=
  match count with
  | O => Some st
  | S k => st' ← body first st; for_range body (S first) k st'
  end.

(** [Scene::CreateEntity]: the scan returns from inside the loop at the first
    inactive slot, and falls through to [return MAX_ENTITIES]. *)
Fixpoint CreateEntity_scan (active : list bool) (i : Entity) (count : nat)
    : option (list bool * Entity) :=
  match count with
  | O => Some (active, MAX_ENTITIES)
  | S k =>
      act ← active !! i;
      if negb act then Some (<[i := true]> active, i)
      else CreateEntity_scan active (S i) k
  end.

Definition CreateEntity (s : Scene) : option (Scene * Entity) :=
  '(active, r) ← CreateEntity_scan (m_entity_active s) 0 MAX_ENTITIES;
  Some (with_active s active, r).

(** ** PhysicsSystem

    The three physics loops of the repository share one skeleton: skip the
    inactive slots, and for an active slot [i] touch only [transforms_back[i]],
    [physics[i]] and the queue.  [step] is what a loop does for one active
    entity, given the front position and the velocity it found. *)

Definition entity_step : Type :=
  Entity -> TransformComponent -> PhysicsComponent -> EventQueue.t ->
  TransformComponent * PhysicsComponent * EventQueue.t.

Abbreviation physics_loop_state :=
  (list TransformComponent * list PhysicsComponent * EventQueue.t)%type.

Definition physics_body (step : entity_step)
    (transforms_front : list TransformComponent) (active : list bool)
    (i : Entity) (st : physics_loop_state) : option physics_loop_state :=
  let '(transforms_back, physics, events) := st in
  act ← active !! i;
  if negb act then Some st
  else
    tf ← transforms_front !! i;
    _ ← transforms_back !! i;
    p ← physics !! i;
    let '(t, p', events') := step i tf p events in
    Some (<[i := t]> transforms_back, <[i := p']> physics, events').

(** [physics[i].vx != 0.0 || physics[i].vy != 0.0] *)
Definition has_velocity (p : PhysicsComponent) : bool :=
  negb (PrimFloat.eqb (vx p) 0) || negb (PrimFloat.eqb (vy p) 0).

Definition set_x (t : TransformComponent) (v : float) := mkTransform v (y t).
Definition set_y (t : TransformComponent) (v : float) := mkTransform (x t) v.
Definition set_vx (p : PhysicsComponent) (v : float) := mkPhysics v (vy p).
Definition set_vy (p : PhysicsComponent) (v : float) := mkPhysics (vx p) v.

(** [Thread/Thread.cpp]: the parallel pipeline. *)
Module Pipeline.

(** The legacy [PhysicsSystem::Update]: copy, integrate, no boundary
    handling; it swaps the buffers itself when the loop is over. *)
Definition Update_entity : entity_step := fun i tf p events =>
  let t := tf in
  if has_velocity p then
    let t := set_x t (x t + vx p)%float in
    let t := set_y t (y t + vy p)%float in
    (t, p, events)
  else (t, p, events).

Definition Update (s : Scene) (events : EventQueue.t)
    : option (Scene * EventQueue.t) :=
  transforms_front ← GetTransforms_Front s;
  transforms_back ← GetTransforms_Back s;
  '(transforms_back, physics, events) ←
    for_range (physics_body Update_entity transforms_front (GetActiveEntities s))
      0 MAX_ENTITIES (transforms_back, GetPhysics s, events);
  let s := with_transforms_at s (1 - m_frontBufferIndex s)%Z transforms_back in
  let s := with_physics s physics in
  Some (SwapTransformBuffers s, events).

(** [PhysicsSystem::UpdateParallel], one active entity: copy, integrate,
    then the four boundary tests in source order. *)
Definition UpdateParallel_entity : entity_step := fun i tf p events =>
  let t := tf in
  if has_velocity p then
    let t := set_x t (x t + vx p)%float in
    let t := set_y t (y t + vy p)%float in
    let '(t, p, events) :=
      if (x t <? 0)%float
      then (set_x t 0, set_vx p (vx p * -1)%float,
            EventQueue.Push (boundary_event i) events)
      else (t, p, events) in
    let '(t, p, events) :=
      if (79 <? x t)%float
      then (set_x t 79, set_vx p (vx p * -1)%float,
            EventQueue.Push (boundary_event i) events)
      else (t, p, events) in
    let '(t, p, events) :=
      if (y t <? 0)%float
      then (set_y t 0, set_vy p (vy p * -1)%float,
            EventQueue.Push (boundary_event i) events)
      else (t, p, events) in
    let '(t, p, events) :=
      if (24 <? y t)%float
      then (set_y t 24, set_vy p (vy p * -1)%float,
            EventQueue.Push (boundary_event i) events)
      else (t, p, events) in
    (t, p, events)
  else (t, p, events).

Definition UpdateParallel (s : Scene) (events : EventQueue.t)
    : option (Scene * EventQueue.t) :=
  let curFront := LoadFrontIndex s in
  let back := (1 - curFront)%Z in
  transforms_front ← GetTransformsAt s curFront;
  transforms_back ← GetTransformsAt s back;
  '(transforms_back, physics, events) ←
    for_range (physics_body UpdateParallel_entity transforms_front (GetActiveEntities s))
      0 MAX_ENTITIES (transforms_back, GetPhysics s, events);
  let s := with_transforms_at s back transforms_back in
  let s := with_physics s physics in
  Some (StoreFrontIndex s back, events).

(** [CPhysicsThread::Run] and [CRenderThread::Run] of this file are not
    embedded: [g_running] is initialised [false] and nothing sets it, and
    [main] constructs neither class, so their loops never run. *)

End Pipeline.

(** The earlier handshake program. *)
Module Handshake.

(** [PhysicsSystem::Update], one active entity: both branches copy; the
    moving branch integrates, and on a boundary violation flips the
    velocity and pushes, leaving the coordinate where it is. *)
Definition Update_entity : entity_step := fun i tf p events =>
  if has_velocity p then
    let t := tf in
    let t := set_x t (x t + vx p)%float in
    let t := set_y t (y t + vy p)%float in
    let '(p, events) :=
      if (x t <? 0)%float || (79 <? x t)%float
      then (set_vx p (vx p * -1)%float, EventQueue.Push (boundary_event i) events)
      else (p, events) in
    let '(p, events) :=
      if (y t <? 0)%float || (24 <? y t)%float
      then (set_vy p (vy p * -1)%float, EventQueue.Push (boundary_event i) events)
      else (p, events) in
    (t, p, events)
  else (tf, p, events).

Definition Update (s : Scene) (events : EventQueue.t)
    : option (Scene * EventQueue.t) :=
  transforms_front ← GetTransforms_Front s;
  transforms_back ← GetTransforms_Back s;
  '(transforms_back, physics, events) ←
    for_range (physics_body Update_entity transforms_front (GetActiveEntities s))
      0 MAX_ENTITIES (transforms_back, GetPhysics s, events);
  let s := with_transforms_at s (1 - m_frontBufferIndex s)%Z transforms_back in
  Some (with_physics s physics, events).

(** [CPhysicsThread::Run], the loop body after the wait. *)
Definition CPhysicsThread_Run_iteration (s : Scene) (events : EventQueue.t)
    : option (Scene * EventQueue.t) :=
  '(s, events) ← Update s events;
  Some (SwapTransformBuffers s, events).

End Handshake.

(** [k] completed physics steps in a row, of whichever function [step]
    is. *)
Fixpoint completed_steps
    (step : Scene -> EventQueue.t -> option (Scene * EventQueue.t))
    (k : nat) (s : Scene) (events : EventQueue.t)
    : option (Scene * EventQueue.t) :=
  match k with
  | O => Some (s, events)
  | S k' =>
      '(s, events) ← step s events;
      completed_steps step k' s events
  end.

(** ** RenderSystem *)

Definition INT_MIN : Z := (-2147483648)%Z.
Definition INT_MAX : Z := 2147483647%Z.

(** The integer part of a binary64 value, sign kept (truncation toward
    zero); infinities and NaN have none. *)
Definition SF_trunc (f : spec_float) : option Z :=
  match f with
  | S754_zero _ => Some 0%Z
  | S754_finite s m e =>
      let mag := Z.shiftl (Z.pos m) e in
      Some (if s then (- mag)%Z else mag)
  | S754_infinity _ | S754_nan => None
  end.

(** [(int)d]: defined when the truncated value is an [int]. *)
Definition double_to_int (d : float) : option Z :=
  z ← SF_trunc (Prim2SF d);
  if (INT_MIN <=? z)%Z && (z <=? INT_MAX)%Z then Some z else None.

Module RenderPacket.
Record t := mk { symbol : ascii; x : Z; y : Z }.
End RenderPacket.

(** One iteration of a collect loop; [hidden] is the glyph the loop
    compares against. *)
Definition Collect_body (hidden : ascii)
    (transforms : list TransformComponent) (renders : list RenderComponent)
    (active : list bool) (i : Entity) (packets : list RenderPacket.t)
    : option (list RenderPacket.t) :=
  act ← active !! i;
  if (act : bool) then
    r ← renders !! i;
    if negb (Ascii.eqb (symbol r) hidden) then
      t ← transforms !! i;
      px ← double_to_int (x t);
      py ← double_to_int (y t);
      Some (packets ++ [RenderPacket.mk (symbol r) px py])
    else Some packets
  else Some packets.

Module PipelineRender.

(** The first [RenderSystem] of [Thread/Thread.cpp]: both members test
    the glyph against a space. *)
Definition Collect (s : Scene) (packets : list RenderPacket.t)
    : option (list RenderPacket.t) :=
  let packets := [] in
  transforms ← GetTransforms_Front s;
  for_range (Collect_body " " transforms (GetRenders s) (GetActiveEntities s))
    0 MAX_ENTITIES packets.

Definition CollectParallel (s : Scene) (packets : list RenderPacket.t)
    : option (list RenderPacket.t) :=
  let packets := [] in
  let curFront := LoadFrontIndex s in
  transforms ← GetTransformsAtConst s curFront;
  for_range (Collect_body " " transforms (GetRenders s) (GetActiveEntities s))
    0 MAX_ENTITIES packets.

End PipelineRender.

Module HandshakeRender.

(** [RenderSystem::Collect] of the handshake program (the second
    [RenderSystem] of [Thread/Thread.cpp] is the same text): the glyph is
    tested against the null character. *)
Definition Collect (s : Scene) (packets : list RenderPacket.t)
    : option (list RenderPacket.t) :=
  let packets := [] in
  transforms ← GetTransforms_Front s;
  for_range (Collect_body "000" transforms (GetRenders s) (GetActiveEntities s))
    0 MAX_ENTITIES packets.

End HandshakeRender.

(** ** DamageSystem *)

(** One line the damage system writes to [std::cout]:
    "[Event] Entity <who> hit a wall! HP: <hp>". *)
Record WallHit := mkWallHit { who : Entity; hp : Z }.

(** The visitor applied to one popped event.  [health - 10] is computed
    only when [health > 0], so it stays above [INT_MIN]. *)
Definition apply_event (healths : list HealthComponent) (out : list WallHit)
    (ev : GameEvent) : option (list HealthComponent * list WallHit) :=
  match ev with
  | Collision arg =>
      if Nat.eqb (b arg) MAX_ENTITIES then
        h ← healths !! a arg;
        if (0 <? health h)%Z then
          let h' := Z.max 0 (health h - 10) in
          Some (<[a arg := mkHealth h']> healths, out ++ [mkWallHit (a arg) h'])
        else Some (healths, out)
      else Some (healths, out)
  end.

(** [while (true) { evOpt = TryPop(); if (!evOpt) break; visit }]: the
    recursion follows the queue that [TryPop] leaves behind (see
    [drain_loop_TryPop]). *)
Fixpoint drain_loop (healths : list HealthComponent) (events : EventQueue.t)
    (out : list WallHit)
    : option (list HealthComponent * EventQueue.t * list WallHit) :=
  match events with
  | [] => Some (healths, [], out)
  | ev :: rest =>
      '(healths, out) ← apply_event healths out ev;
      drain_loop healths rest out
  end.

(** [DamageSystem::DrainAndApply]; [DamageSystem::Update] of the handshake
    program is the same loop over [Pop]. *)
Definition DrainAndApply (s : Scene) (events : EventQueue.t) (out : list WallHit)
    : option (Scene * EventQueue.t * list WallHit) :=
  '(healths, events, out) ← drain_loop (GetHealths s) events out;
  Some (with_healths s healths, events, out).

Definition is_boundary (ev : GameEvent) : bool :=
  match ev with Collision arg => Nat.eqb (b arg) MAX_ENTITIES end.

(** An event the resolver can index the health table with. *)
Definition event_in_range (ev : GameEvent) : Prop :=
  match ev with Collision arg => b arg = MAX_ENTITIES -> (a arg < MAX_ENTITIES)%nat end.

(** ** Seeding, as [main] does it *)

Definition seed_entity (s : Scene) (pos : TransformComponent)
    (vel : PhysicsComponent) (glyph : ascii) (h : Z) : option (Scene * Entity) :=
  '(s, e) ← CreateEntity s;
  front ← GetTransforms_Front s;
  _ ← front !! e;
  let s := with_transforms_at s (m_frontBufferIndex s) (<[e := pos]> front) in
  let s := with_physics s (<[e := vel]> (GetPhysics s)) in
  let s := mkScene (m_frontBufferIndex s) (m_transforms s) (m_physics s)
             (<[e := mkRender glyph]> (GetRenders s)) (m_healths s) (m_entity_active s) in
  let s := with_healths s (<[e := mkHealth h]> (GetHealths s)) in
  Some (s, e).

(** Two entities; [default] stands for a scene that cannot arise. *)
Definition two_entities (pos0 : TransformComponent) (vel0 : PhysicsComponent)
    (glyph0 : ascii) (h0 : Z) (pos1 : TransformComponent) (vel1 : PhysicsComponent)
    (glyph1 : ascii) (h1 : Z) : Scene :=
  match seed_entity Scene_new pos0 vel0 glyph0 h0 with
  | Some (s, _) =>
      match seed_entity s pos1 vel1 glyph1 h1 with
      | Some (s, _) => s
      | None => Scene_new
      end
  | None => Scene_new
  end.

(** The player and the mob of [main]. *)
Definition demo_scene : Scene :=
  Eval vm_compute in
  two_entities (mkTransform 40 12) (mkPhysics 0.5 0x1.999999999999ap-3) "@" 100
               (mkTransform 10 5) (mkPhysics (-0x1.3333333333333p-2) 0x1.999999999999ap-4) "M" 50.

(** ** The two worker threads of [main]

    [tPhysics] calls [UpdateParallel] in a loop and [tRender] calls
    [CollectParallel] and [Draw] in a loop; nothing orders the two but the
    atomic front index.  Each thread is a small machine whose program
    counter is the loop index inside the call; one step of a thread is one
    loop iteration (or the load before the loop, or the store or [Draw]
    after it), and the threads interleave step by step.  Every run of this
    machine is a run of the program: a scheduler that switches threads only
    between iterations. *)
Module Threads.

Inductive physics_pc :=
| PhysicsIdle
| PhysicsLoop (curFront back : Z) (i : Entity).

Inductive render_pc :=
| RenderIdle
| RenderLoop (curFront : Z) (i : Entity) (packets : list RenderPacket.t).

Record World := mkWorld {
  scene : Scene;
  events : EventQueue.t;
  physics_at : physics_pc;
  render_at : render_pc;
  drawn : list (list RenderPacket.t)
}.

Definition start (s : Scene) : World := mkWorld s [] PhysicsIdle RenderIdle [].

Inductive thread := tPhysics | tRender.

(** [UpdateParallel], one action at a time. *)
Definition physics_step (w : World) : option World :=
  match physics_at w with
  | PhysicsIdle =>
      let curFront := LoadFrontIndex (scene w) in
      let back := (1 - curFront)%Z in
      Some (mkWorld (scene w) (events w) (PhysicsLoop curFront back 0)
              (render_at w) (drawn w))
  | PhysicsLoop curFront back i =>
      if (i <? MAX_ENTITIES)%nat then
        transforms_front ← GetTransformsAt (scene w) curFront;
        transforms_back ← GetTransformsAt (scene w) back;
        '(transforms_back, physics, events) ←
          physics_body Pipeline.UpdateParallel_entity transforms_front
            (GetActiveEntities (scene w)) i
            (transforms_back, GetPhysics (scene w), events w);
        let s := with_transforms_at (scene w) back transforms_back in
        let s := with_physics s physics in
        Some (mkWorld s events (PhysicsLoop curFront back (S i))
                (render_at w) (drawn w))
      else
        Some (mkWorld (StoreFrontIndex (scene w) back) (events w) PhysicsIdle
                (render_at w) (drawn w))
  end.

(** [CollectParallel] and then [Draw], one action at a time. *)
Definition render_step (w : World) : option World :=
  match render_at w with
  | RenderIdle =>
      let curFront := LoadFrontIndex (scene w) in
      Some (mkWorld (scene w) (events w) (physics_at w)
              (RenderLoop curFront 0 []) (drawn w))
  | RenderLoop curFront i packets =>
      if (i <? MAX_ENTITIES)%nat then
        transforms ← GetTransformsAtConst (scene w) curFront;
        packets ← Collect_body " " transforms (GetRenders (scene w))
                    (GetActiveEntities (scene w)) i packets;
        Some (mkWorld (scene w) (events w) (physics_at w)
                (RenderLoop curFront (S i) packets) (drawn w))
      else
        Some (mkWorld (scene w) (events w) (physics_at w) RenderIdle
                (drawn w ++ [packets]))
  end.

Definition step (th : thread) (w : World) : option World :=
  match th with
  | tPhysics => physics_step w
  | tRender => render_step w
  end.

Fixpoint run (schedule : list thread) (w : World) : option World :=
  match schedule with
  | [] => Some w
  | th :: rest => w' ← step th w; run rest w'
  end.

(** The buffer the render thread reads in its next step, and the buffer
    the physics thread writes in its next step. *)
Definition render_reads (w : World) : option Z :=
  match render_at w with
  | RenderLoop curFront i _ =>
      if (i <? MAX_ENTITIES)%nat then Some curFront else None
  | RenderIdle => None
  end.

Definition physics_writes (w : World) : option Z :=
  match physics_at w with
  | PhysicsLoop _ back i =>
      if (i <? MAX_ENTITIES)%nat then Some back else None
  | PhysicsIdle => None
  end.

(** The double-buffer rule at one instant: whoever reads, reads the
    buffer designated current; whoever writes, writes the other one. *)
Definition buffers_respected (w : World) : Prop :=
  (forall r, render_reads w = Some r -> r = m_frontBufferIndex (scene w)) /\
  (forall wr, physics_writes w = Some wr -> wr <> m_frontBufferIndex (scene w)).

(** [k] whole physics steps, run alone. *)
Fixpoint physics_steps (k : nat) (s : Scene) (events : EventQueue.t)
    : option (Scene * EventQueue.t) :=
  match k with
  | O => Some (s, events)
  | S k' =>
      '(s, events) ← Pipeline.UpdateParallel s events;
      physics_steps k' s events
  end.

(** What a render pass shows of the scene left by [k] whole steps. *)
Definition snapshot_after (k : nat) (s : Scene) : option (list RenderPacket.t) :=
  '(s', _) ← physics_steps k s [];
  PipelineRender.CollectParallel s' [].

(** Two entities moving right by one cell per step. *)
Definition race_scene : Scene :=
  Eval vm_compute in
  two_entities (mkTransform 10 5) (mkPhysics 1 0) "A" 100
               (mkTransform 20 5) (mkPhysics 1 0) "B" 100.

(** A whole call of [UpdateParallel]: the load, the loop, the store. *)
Definition whole_physics_step : list thread :=
  replicate (S (S MAX_ENTITIES)) tPhysics.

(** One physics step; the render pass starts and reads entity 0; a second
    physics step; the third physics step gets as far as entities 0 and 1. *)
Definition overtaken : list thread :=
  whole_physics_step ++ [tRender; tRender] ++
  whole_physics_step ++ [tPhysics; tPhysics; tPhysics].

(** The render pass resumes and runs to its [Draw]. *)
Definition overtaken_then_drawn : list thread :=
  overtaken ++ replicate MAX_ENTITIES tRender.

End Threads.

(** ** Specification-side vocabulary *)

(** [v] lies outside the closed range from [lo] to [hi], as the code tests it. *)
Definition outside (lo hi v : float) : bool :=
  (v <? lo)%float || (hi <? v)%float.

(** The nearest bound of the range for a value outside it. *)
Definition clamp (lo hi v : float) : float :=
  if (v <? lo)%float then lo else if (hi <? v)%float then hi else v.

(** The velocity component after a step: negated when the axis was violated. *)
Definition bounce (hit : bool) (v : float) : float :=
  if hit then (- v)%float else v.

(** One boundary event per violated axis, x first. *)
Definition boundary_events (i : Entity) (x1 y1 : float) : list GameEvent :=
  (if outside 0 79 x1 then [boundary_event i] else []) ++
  (if outside 0 24 y1 then [boundary_event i] else []).

(** What a physics loop does for slot [i], read off the tables as they were
    before the loop: nothing for an inactive slot, [step] on the front
    position and the velocity for an active one. *)
Definition entity_outcome (step : entity_step)
    (transforms_front : list TransformComponent) (active : list bool)
    (physics : list PhysicsComponent) (i : Entity)
    : option (TransformComponent * PhysicsComponent * list GameEvent) :=
  match active !! i, transforms_front !! i, physics !! i with
  | Some true, Some tf, Some p => Some (step i tf p [])
  | _, _, _ => None
  end.

Definition entity_events (step : entity_step)
    (transforms_front : list TransformComponent) (active : list bool)
    (physics : list PhysicsComponent) (i : Entity) : list GameEvent :=
  match entity_outcome step transforms_front active physics i with
  | Some (_, _, out) => out
  | None => []
  end.

(** Slot [j] of a table after a physics loop has run over the slots from
    [first] up to [first + count]: what [pick] selects of the outcome for an
    active slot in that range, the old value otherwise. *)
Definition slot_after {T} (step : entity_step)
    (transforms_front : list TransformComponent) (active : list bool)
    (pick : TransformComponent * PhysicsComponent * list GameEvent -> T)
    (physics : list PhysicsComponent) (table : list T)
    (first count j : nat) : option T :=
  if decide (first <= j < first + count) then
    match entity_outcome step transforms_front active physics j with
    | Some r => Some (pick r)
    | None => table !! j
    end
  else table !! j.

(** A step that only ever appends to the queue it is given. *)
Definition appends_only (step : entity_step) : Prop :=
  forall i tf p events,
    step i tf p events =
    (let '(t, p', out) := step i tf p [] in (t, p', events ++ out)).

Definition event_entity (ev : GameEvent) : Entity :=
  match ev with Collision arg => a arg end.

(** The events of entity [i] among [evs]. *)
Definition events_of (i : Entity) (evs : list GameEvent) : list GameEvent :=
  filter (fun ev => event_entity ev = i) evs.

(** The entities a collect loop with hidden glyph [hidden] shows: the
    active ones whose glyph is not [hidden]. *)
Definition visible (hidden : ascii) (active : list bool)
    (renders : list RenderComponent) (i : Entity) : bool :=
  match active !! i, renders !! i with
  | Some true, Some r => negb (Ascii.eqb (symbol r) hidden)
  | _, _ => false
  end.

(** An entity created and given no component: active, at the origin, its
    glyph the null character of the member initialiser. *)
Definition bare_scene : Scene :=
  Eval vm_compute in
  match CreateEntity Scene_new with
  | Some (s, _) => s
  | None => Scene_new
  end.

(** The packet of entity [i] from buffer [transforms]. *)
Definition packet_of (transforms : list TransformComponent)
    (renders : list RenderComponent) (i : Entity) : option RenderPacket.t :=
  r ← renders !! i;
  t ← transforms !! i;
  px ← double_to_int (x t);
  py ← double_to_int (y t);
  Some (RenderPacket.mk (symbol r) px py).

(** What a collect loop with hidden glyph [hidden] owes for scene [s]: the
    packets of the visible entities of the current buffer, by increasing id. *)
Definition expected_packets (hidden : ascii) (s : Scene)
    : option (list RenderPacket.t) :=
  transforms ← GetTransforms_Front s;
  mapM (packet_of transforms (m_renders s))
    (filter (fun i => visible hidden (m_entity_active s) (m_renders s) i)
       (seq 0 MAX_ENTITIES)).

(** The part the three physics functions share: run the loop with [step]
    from the front buffer into the back buffer, and store the tables back.
    The functions differ in [step] and in what they do to the front index
    afterwards. *)
Definition physics_pass (step : entity_step) (s : Scene) (events : EventQueue.t)
    : option (Scene * EventQueue.t) :=
  transforms_front ← GetTransforms_Front s;
  transforms_back ← GetTransforms_Back s;
  '(transforms_back, physics, events) ←
    for_range (physics_body step transforms_front (GetActiveEntities s))
      0 MAX_ENTITIES (transforms_back, GetPhysics s, events);
  let s := with_transforms_at s (1 - m_frontBufferIndex s)%Z transforms_back in
  Some (with_physics s physics, events).

(** [s'] is [s] after such a pass, and [pushed] are the events it pushed:
    the buffer that was current in [s] is as it was, every slot of the
    buffer that was next and of the velocity table is as [slot_after]
    says, the other tables are as they were.  Nothing is said of the front
    index of [s']. *)
Definition pass_result (step : entity_step) (s s' : Scene)
    (pushed : list GameEvent) : Prop :=
  exists tfront tback back',
    GetTransforms_Front s = Some tfront /\
    GetTransforms_Back s = Some tback /\
    GetTransformsAt s' (m_frontBufferIndex s) = Some tfront /\
    GetTransformsAt s' (1 - m_frontBufferIndex s)%Z = Some back' /\
    length back' = MAX_ENTITIES /\
    length (m_physics s') = MAX_ENTITIES /\
    m_renders s' = m_renders s /\
    m_healths s' = m_healths s /\
    m_entity_active s' = m_entity_active s /\
    pushed = flat_map (entity_events step tfront (m_entity_active s) (m_physics s))
               (seq 0 MAX_ENTITIES) /\
    forall j,
      back' !! j = slot_after step tfront (m_entity_active s) (fun r => r.1.1)
                     (m_physics s) tback 0 MAX_ENTITIES j /\
      m_physics s' !! j = slot_after step tfront (m_entity_active s) (fun r => r.1.2)
                            (m_physics s) (m_physics s) 0 MAX_ENTITIES j.

(** A step whose events all name the entity it was run for. *)
Definition own_events (step : entity_step) : Prop :=
  forall i tf p, Forall (fun ev => event_entity ev = i) (step i tf p []).2.

(** The events the boundary policy owes entity [i] in scene [s], whose
    current buffer is [tfront]. *)
Definition expected_events (s : Scene) (tfront : list TransformComponent)
    (i : Entity) : list GameEvent :=
  match m_entity_active s !! i, tfront !! i, m_physics s !! i with
  | Some true, Some tf, Some p =>
      if has_velocity p
      then boundary_events i (x tf + vx p)%float (y tf + vy p)%float
      else []
  | _, _, _ => []
  end.

(** One entity next to the right edge, moving right: x = 78, vx = 5. *)
Definition edge_scene : Scene :=
  Eval vm_compute in
  match seed_entity Scene_new (mkTransform 78 12) (mkPhysics 5 0) "@" 100 with
  | Some (s, _) => s
  | None => Scene_new
  end.

(** A moving entity and one at rest. *)
Definition rest_scene : Scene :=
  Eval vm_compute in
  two_entities (mkTransform 40 12) (mkPhysics 0.5 0.25) "@" 100
               (mkTransform 10 5) (mkPhysics 0 0) "M" 50.

(** An active entity whose glyph is a space. *)
Definition blank_scene : Scene :=
  Eval vm_compute in
  match seed_entity Scene_new (mkTransform 3.5 4.25) (mkPhysics 0 0) " " 100 with
  | Some (s, _) => s
  | None => Scene_new
  end.

(** One entity with 5 health points left. *)
Definition frail_scene : Scene :=
  Eval vm_compute in
  match seed_entity Scene_new (mkTransform 78 12) (mkPhysics 5 0) "@" 5 with
  | Some (s, _) => s
  | None => Scene_new
  end.

(** The health of an entity after one boundary hit, and the line the hit
    writes: only an entity with positive health is touched or reported. *)
Definition health_after_hit (h : Z) : Z :=
  if (0 <? h)%Z then Z.max 0 (h - 10) else h.

Definition report_of_hit (i : Entity) (h : Z) : list WallHit :=
  if (0 <? h)%Z then [mkWallHit i (Z.max 0 (h - 10))] else [].

(** ** Vocabulary for the further properties *)

(** A position inside the 80 by 25 world, as the boundary tests see it. *)
Definition in_world (t : TransformComponent) : bool :=
  negb (outside 0 79 (x t)) && negb (outside 0 24 (y t)).

(** Every active entity's current position is inside the world. *)
Definition world_ok (s : Scene) : bool :=
  match GetTransforms_Front s with
  | Some tfront =>
      forallb (fun i =>
                 match m_entity_active s !! i, tfront !! i with
                 | Some true, Some t => in_world t
                 | _, _ => true
                 end) (seq 0 MAX_ENTITIES)
  | None => false
  end.

(** ** Renderer

    [Renderer::Draw] of both programs: a grid of 25 rows of 81 characters,
    blanks with a terminating null in column 80; each packet that falls on
    the grid overwrites its cell, in packet order; each row is printed with
    [printf("%s\n")], that is up to its first null character; then a rule,
    and the health of the active entities among the first ten ids.
    [ClearScreen] only talks to the console and is left out. *)
Module Renderer.

Abbreviation Screen := (list (list ascii)).

Definition blank_screen : Screen :=
  replicate 25 (replicate 80 " "%char ++ ["000"%char]).

(** [p.y >= 0 && p.y < 25 && p.x >= 0 && p.x < 80] *)
Definition on_screen (p : RenderPacket.t) : bool :=
  (0 <=? RenderPacket.y p)%Z && (RenderPacket.y p <? 25)%Z &&
  (0 <=? RenderPacket.x p)%Z && (RenderPacket.x p <? 80)%Z.

(** [screen[p.y][p.x] = p.symbol], guarded. *)
Definition plot (screen : Screen) (p : RenderPacket.t) : Screen :=
  if on_screen p
  then alter (fun row => <[Z.to_nat (RenderPacket.x p) := RenderPacket.symbol p]> row)
         (Z.to_nat (RenderPacket.y p)) screen
  else screen.

(** What [printf("%s")] prints of a character array. *)
Fixpoint c_str (row : list ascii) : list ascii :=
  match row with
  | [] => []
  | c :: rest => if Ascii.eqb c "000" then [] else c :: c_str rest
  end.

(** One "[Entity i] HP: h | " item of the status line. *)
Definition hp_body (active : list bool) (healths : list HealthComponent)
    (i : Entity) (line : list (Entity * Z)) : option (list (Entity * Z)) :=
  act ← active !! i;
  if (act : bool) then h ← healths !! i; Some (line ++ [(i, health h)])
  else Some line.

Record Frame := mkFrame {
  rows : list (list ascii);
  status : list (Entity * Z)
}.

Definition Draw (packets : list RenderPacket.t) (s : Scene) : option Frame :=
  let screen := foldl plot blank_screen packets in
  status ← for_range (hp_body (GetActiveEntities s) (GetHealths s)) 0 10 [];
  Some (mkFrame (map c_str screen) status).

End Renderer.

(** The glyph a cell of the grid shows after the packets were plotted: that
    of the last packet on the grid at this cell, a blank if there is none. *)
Definition at_cell (cx cy : nat) (p : RenderPacket.t) : bool :=
  Renderer.on_screen p &&
  Nat.eqb (Z.to_nat (RenderPacket.x p)) cx && Nat.eqb (Z.to_nat (RenderPacket.y p)) cy.

Definition cell_glyph (packets : list RenderPacket.t) (cx cy : nat) : ascii :=
  match last (filter (fun p => at_cell cx cy p) packets) with
  | Some p => RenderPacket.symbol p
  | None => " "%char
  end.

(** Row [cy] of the grid as [cell_glyph] describes it, without the
    terminator. *)
Definition row_glyphs (packets : list RenderPacket.t) (cy : nat) : list ascii :=
  map (fun cx => cell_glyph packets cx cy) (seq 0 80).
(** The status line owed for scene [s]: the active ids below ten, in
    increasing order, each with its health. *)
Definition status_of (s : Scene) : list (Entity * Z) :=
  omap (fun i =>
          match m_entity_active s !! i, m_healths s !! i with
          | Some true, Some h => Some (i, health h)
          | _, _ => None
          end) (seq 0 10).

(** [k] calls of [CreateEntity] in a row, as [main] makes two: the scene
    after the last call and the ids returned, first call first. *)
Fixpoint CreateEntities (k : nat) (s : Scene) : option (Scene * list Entity) :=
  match k with
  | O => Some (s, [])
  | S k' =>
      '(s1, e) ← CreateEntity s;
      '(s2, es) ← CreateEntities k' s1;
      Some (s2, e :: es)
  end.

(** The inactive ids of a scene, in increasing order. *)
Definition free_slots (active : list bool) : list Entity :=
  filter (fun i => active !! i = Some false) (seq 0 MAX_ENTITIES).

(** The number of boundary events queued for entity [i]. *)
Definition hits_on (i : Entity) (events : list GameEvent) : nat :=
  length (events_of i (filter (fun ev => is_boundary ev) events)).

(** The lines of the damage system's output that name entity [i]. *)
Definition reports_on (i : Entity) (out : list WallHit) : list WallHit :=
  filter (fun r => who r = i) out.

(** What the physics thread holds in its locals while inside the loop. *)
Definition physics_locals_ok (w : Threads.World) : Prop :=
  (m_frontBufferIndex (Threads.scene w) = 0%Z \/
   m_frontBufferIndex (Threads.scene w) = 1%Z) /\
  match Threads.physics_at w with
  | Threads.PhysicsIdle => True
  | Threads.PhysicsLoop curFront back _ =>
      curFront = m_frontBufferIndex (Threads.scene w) /\ back = (1 - curFront)%Z
  end.

(** Two states of the workers with the same scene, queue and physics
    thread. *)
Definition same_physics (w1 w2 : Threads.World) : Prop :=
  Threads.scene w1 = Threads.scene w2 /\
  Threads.events w1 = Threads.events w2 /\
  Threads.physics_at w1 = Threads.physics_at w2.

(** The glyphs of the entities with an id below [count] that
    [CollectParallel] shows, by increasing id. *)
Definition glyphs_shown (s : Scene) (count : nat) : list ascii :=
  omap (fun i => if visible " " (m_entity_active s) (m_renders s) i
                 then symbol <$> m_renders s !! i else None)
       (seq 0 count).

(** What the render thread has gathered so far, and what it has drawn, in a
    run that started from scene [s]. *)
Definition render_progress_ok (s : Scene) (w : Threads.World) : Prop :=
  m_renders (Threads.scene w) = m_renders s /\
  m_entity_active (Threads.scene w) = m_entity_active s /\
  Forall (fun frame => map RenderPacket.symbol frame = glyphs_shown s MAX_ENTITIES)
         (Threads.drawn w) /\
  match Threads.render_at w with
  | Threads.RenderIdle => True
  | Threads.RenderLoop _ i packets =>
      i <= MAX_ENTITIES /\ map RenderPacket.symbol packets = glyphs_shown s i
  end.

(** [v == v], which only a NaN fails. *)
Definition not_nan (v : float) : bool := (v =? v)%float.

(** An entity the renderer can cast and plot, and that stays so: its
    position is inside the world, and neither its position nor its velocity
    holds a NaN. *)
Definition entity_sound (t : TransformComponent) (p : PhysicsComponent) : bool :=
  in_world t && not_nan (x t) && not_nan (y t) && not_nan (vx p) && not_nan (vy p).

Definition scene_sound (s : Scene) : bool :=
  match GetTransforms_Front s with
  | Some tfront =>
      forallb (fun i =>
                 match m_entity_active s !! i, tfront !! i, m_physics s !! i with
                 | Some true, Some t, Some p => entity_sound t p
                 | _, _, _ => true
                 end) (seq 0 MAX_ENTITIES)
  | None => false
  end.

(** ** The three threads of [main]

    Beside the two workers, the loop of [main] itself calls
    [DrainAndApply], which pops the queue the physics thread pushes to and
    writes the health table.  One step of [main] is one turn of the drain's
    [while (true)]: a [TryPop] and the visit of what it returned; on an
    empty queue the drain breaks and [main] sleeps until its next turn.
    The workers step as in [Threads]. *)
Module MainThreads.

Record World := mkWorld {
  workers : Threads.World;
  cout : list WallHit
}.

Definition start (s : Scene) : World := mkWorld (Threads.start s) [].

Inductive thread := tPhysics | tRender | tMain.

Definition main_step (w : World) : option World :=
  let tw := workers w in
  match EventQueue.TryPop (Threads.events tw) with
  | (None, _) => Some w
  | (Some ev, events) =>
      '(healths, out) ← apply_event (GetHealths (Threads.scene tw)) (cout w) ev;
      Some (mkWorld
              (Threads.mkWorld (with_healths (Threads.scene tw) healths) events
                 (Threads.physics_at tw) (Threads.render_at tw) (Threads.drawn tw))
              out)
  end.

Definition step (th : thread) (w : World) : option World :=
  match th with
  | tPhysics => tw ← Threads.physics_step (workers w); Some (mkWorld tw (cout w))
  | tRender => tw ← Threads.render_step (workers w); Some (mkWorld tw (cout w))
  | tMain => main_step w
  end.

Fixpoint run (schedule : list thread) (w : World) : option World :=
  match schedule with
  | [] => Some w
  | th :: rest => w' ← step th w; run rest w'
  end.

Definition is_physics (th : thread) : bool :=
  match th with tPhysics => true | _ => false end.

(** The number of steps a schedule gives the physics thread. *)
Definition physics_steps_in (schedule : list thread) : nat :=
  length (filter (fun th => is_physics th) schedule).

End MainThreads.

(** Two scenes that differ at most in the health table, which is all of a
    scene that [main]'s drain writes. *)
Definition same_but_healths (s1 s2 : Scene) : Prop :=
  m_frontBufferIndex s1 = m_frontBufferIndex s2 /\
  m_transforms s1 = m_transforms s2 /\
  m_physics s1 = m_physics s2 /\
  m_renders s1 = m_renders s2 /\
  m_entity_active s1 = m_entity_active s2.

(** Two states of the workers between which the physics thread sees no
    difference in what it reads. *)
Definition physics_view (w1 w2 : Threads.World) : Prop :=
  same_but_healths (Threads.scene w1) (Threads.scene w2) /\
  Threads.physics_at w1 = Threads.physics_at w2.

(** ** The reference-counted draft

    The first program of the repository ([unnamed/part_000]): one
    [CGameObject], counted by the [CBase] it derives from, is handed by
    [main] to a physics and a render worker through their [Write], and each
    worker's [Progress] loop takes what was handed over, works on it and
    releases it.  Objects live in a heap keyed by address, and a member
    call through an address that holds no object is undefined in C++ and
    returns [None] here.

    The member functions and loop bodies are embedded as they execute when
    one is called after the other.  The program itself runs them on three
    threads, where [Update], [FixedUpdate] and [Render] read and write the
    two activity counters with no lock: what is proved below is about the
    functions composed in sequence, not about those races. *)
Module Draft.

Definition UINT_MAX : Z := 4294967295%Z.

(** [unsigned int] arithmetic. *)
Definition wrap (z : Z) : Z := (z mod (UINT_MAX + 1))%Z.

(** A [CGameObject], with the count of its [CBase]. *)
Record CGameObject := mkGameObject {
  m_iRecCount : Z;
  m_uiUpdateNums : Z;
  m_uiRenderNums : Z
}.

Abbreviation Heap := (gmap nat CGameObject).

(** [CBase::Release].  With the count at zero it runs [Free(); delete
    this; return 0] while its [lock_guard] still owns the object's own
    [m_mutex]: the mutex is destroyed locked and unlocked after the object
    is gone, which is undefined.  Otherwise [return m_iRecCount--], the
    count before the decrement. *)
Definition Release (this : nat) (heap : Heap) : option (Z * Heap) :=
  obj ← heap !! this;
  if (0 =? m_iRecCount obj)%Z then None
  else
    Some (m_iRecCount obj,
          <[this := mkGameObject (wrap (m_iRecCount obj - 1))
                      (m_uiUpdateNums obj) (m_uiRenderNums obj)]> heap).

(** [CBase::AddRect]: [return ++m_iRecCount]. *)
Definition AddRect (this : nat) (heap : Heap) : option (Z * Heap) :=
  obj ← heap !! this;
  let count := wrap (m_iRecCount obj + 1) in
  Some (count,
        <[this := mkGameObject count (m_uiUpdateNums obj) (m_uiRenderNums obj)]> heap).

(** [CGameObject::Update]: [++m_uiUpdateNums]. *)
Definition Update (this : nat) (heap : Heap) : option Heap :=
  obj ← heap !! this;
  Some (<[this := mkGameObject (m_iRecCount obj) (wrap (m_uiUpdateNums obj + 1))
                    (m_uiRenderNums obj)]> heap).

(** [CGameObject::FixedUpdate]. *)
Definition FixedUpdate (this : nat) (heap : Heap) : option Heap :=
  obj ← heap !! this;
  Some (<[this := mkGameObject (m_iRecCount obj) 0
                    (wrap (m_uiRenderNums obj + m_uiUpdateNums obj))]> heap).

(** [CGameObject::Render]: one line on [std::cout]. *)
Definition Render (this : nat) (heap : Heap) (cout : list Z) : option (list Z) :=
  obj ← heap !! this;
  Some (cout ++ [m_uiRenderNums obj]).

(** [n] calls of [AddRect], and [n] calls of [Release] with what they
    returned. *)
Fixpoint AddRects (n : nat) (this : nat) (heap : Heap) : option Heap :=
  match n with
  | O => Some heap
  | S n' => '(_, heap) ← AddRect this heap; AddRects n' this heap
  end.

Fixpoint Releases (n : nat) (this : nat) (heap : Heap) : option (list Z * Heap) :=
  match n with
  | O => Some ([], heap)
  | S n' =>
      '(r, heap) ← Release this heap;
      '(rs, heap) ← Releases n' this heap;
      Some (r :: rs, heap)
  end.

(** The heap, the vectors of the two workers, and the console. *)
Record Program := mkProgram {
  heap : Heap;
  m_vecReserveGameObjects : list nat;
  m_vecCurrentGameObjects : list nat;
  m_vecEnterNums : list nat;
  m_vecDrawNums : list nat;
  cout : list Z
}.

(** [main] after [new CGameObject()] at address [pObj]. *)
Definition start (pObj : nat) : Program :=
  mkProgram {[ pObj := mkGameObject 0 0 0 ]} [] [] [] [] [].

(** [CPhysicsThread::Write]. *)
Definition CPhysicsThread_Write (pObject : nat) (st : Program) : option Program :=
  '(_, h) ← AddRect pObject (heap st);
  Some (mkProgram h (m_vecReserveGameObjects st ++ [pObject])
          (m_vecCurrentGameObjects st) (m_vecEnterNums st) (m_vecDrawNums st)
          (cout st)).

(** [CRenderThread::Write]. *)
Definition CRenderThread_Write (pObj : nat) (st : Program) : option Program :=
  '(_, h) ← AddRect pObj (heap st);
  Some (mkProgram h (m_vecReserveGameObjects st) (m_vecCurrentGameObjects st)
          (m_vecEnterNums st ++ [pObj]) (m_vecDrawNums st) (cout st)).

(** The body of the physics worker's range-for: [FixedUpdate] then
    [Release]. *)
Definition physics_item (pObj : nat) (h : Heap) : option Heap :=
  h ← FixedUpdate pObj h;
  '(_, h) ← Release pObj h;
  Some h.

(** The body of the render worker's range-for: [Render] then [Release]. *)
Definition render_item (pObj : nat) (st : Heap * list Z) : option (Heap * list Z) :=
  out ← Render pObj st.1 st.2;
  '(_, h) ← Release pObj st.1;
  Some (h, out).

Fixpoint for_each {S} (body : nat -> S -> option S) (l : list nat) (s : S)
    : option S :=
  match l with
  | [] => Some s
  | pObj :: rest => s ← body pObj s; for_each body rest s
  end.

(** One turn of the loop of [CPhysicsThread::Progress]: swap the two
    vectors, work through the current one, clear it. *)
Definition CPhysicsThread_Progress_iteration (st : Program) : option Program :=
  let reserve := m_vecCurrentGameObjects st in
  let current := m_vecReserveGameObjects st in
  match current with
  | [] =>
      Some (mkProgram (heap st) reserve current (m_vecEnterNums st)
              (m_vecDrawNums st) (cout st))
  | _ =>
      h ← for_each physics_item current (heap st);
      Some (mkProgram h reserve [] (m_vecEnterNums st) (m_vecDrawNums st) (cout st))
  end.

(** One turn of the loop of [CRenderThread::Progress]: the swap happens
    only when something was entered. *)
Definition CRenderThread_Progress_iteration (st : Program) : option Program :=
  let '(enter, draw) :=
    match m_vecEnterNums st with
    | [] => (m_vecEnterNums st, m_vecDrawNums st)
    | _ => (m_vecDrawNums st, m_vecEnterNums st)
    end in
  match draw with
  | [] =>
      Some (mkProgram (heap st) (m_vecReserveGameObjects st)
              (m_vecCurrentGameObjects st) enter draw (cout st))
  | _ =>
      '(h, out) ← for_each render_item draw (heap st, cout st);
      Some (mkProgram h (m_vecReserveGameObjects st) (m_vecCurrentGameObjects st)
              enter [] out)
  end.

(** One turn of the loop of [main] that does not end the program. *)
Definition main_iteration (pObj : nat) (st : Program) : option Program :=
  h ← Update pObj (heap st);
  st ← CPhysicsThread_Write pObj
         (mkProgram h (m_vecReserveGameObjects st) (m_vecCurrentGameObjects st)
            (m_vecEnterNums st) (m_vecDrawNums st) (cout st));
  CRenderThread_Write pObj st.

Fixpoint main_iterations (m : nat) (pObj : nat) (st : Program) : option Program :=
  match m with
  | O => Some st
  | S m' => st ← main_iteration pObj st; main_iterations m' pObj st
  end.

End Draft.

(** ** The event queue is first in, first out *)

Lemma EventQueue_run_fifo ops : forall q rs q',
  EventQueue.run ops q = (rs, q') ->
  q ++ EventQueue.pushed ops = EventQueue.popped rs ++ q'.
Proof.
  induction ops as [|[event|] ops IH]; intros q rs q' Hrun; simpl in Hrun.
  - injection Hrun as <- <-. simpl. by rewrite app_nil_r.
  - apply IH in Hrun. unfold EventQueue.Push in Hrun.
    rewrite <- Hrun. simpl. by rewrite <- app_assoc.
  - destruct q as [|ev rest]; simpl in Hrun.
    + destruct (EventQueue.run ops []) as [rs0 q0] eqn:Hrest.
      injection Hrun as <- <-. apply IH in Hrest. exact Hrest.
    + destruct (EventQueue.run ops rest) as [rs0 q0] eqn:Hrest.
      injection Hrun as <- <-. apply IH in Hrest.
      simpl. unfold EventQueue.popped in *. simpl. by rewrite Hrest.
Qed.

Lemma EventQueue_run_answers ops : forall q,
  length (EventQueue.run ops q).1 =
  length (filter (fun o => EventQueue.is_pop o) ops).
Proof.
  induction ops as [|[event|] ops IH]; intros q; cbn [EventQueue.run].
  - reflexivity.
  - rewrite filter_cons_False by (simpl; tauto). apply IH.
  - rewrite filter_cons_True by exact I.
    destruct (EventQueue.TryPop q) as [r q1].
    specialize (IH q1). destruct (EventQueue.run ops q1) as [rs q2].
    cbn [fst length] in *. by rewrite IH.
Qed.

(** C8. Over any sequence of [Push] and [TryPop] calls, the events the pops
    returned followed by the events still queued are the events that were
    queued at the start followed by the pushed ones, in push order; every
    [TryPop] call returns (one answer per call); on an empty queue it
    answers [std::nullopt] and leaves the queue empty; on a non-empty one it
    returns the oldest event and removes it.  [Pop] of the handshake
    program is the same function. *)
Theorem EventQueue_strict_fifo :
  (forall ops q,
     q ++ EventQueue.pushed ops =
       EventQueue.popped (EventQueue.run ops q).1 ++ (EventQueue.run ops q).2 /\
     length (EventQueue.run ops q).1 =
       length (filter (fun o => EventQueue.is_pop o) ops)) /\
  EventQueue.TryPop [] = (None, []) /\
  (forall ev q, EventQueue.TryPop (EventQueue.Push ev []) = (Some ev, []) /\
                EventQueue.TryPop (ev :: q) = (Some ev, q)) /\
  (forall q, EventQueue.Pop q = EventQueue.TryPop q).
Proof.
  repeat split.
  - apply EventQueue_run_fifo. by destruct (EventQueue.run ops q).
  - apply EventQueue_run_answers.
  - intros [|ev q]; [reflexivity|].
    unfold EventQueue.Pop, EventQueue.TryPop. simpl. by rewrite drop_0.
Qed.

(** ** Entity creation *)

Lemma CreateEntity_scan_spec (active : list bool) : forall count i,
  i + count <= length active ->
  exists r,
    (CreateEntity_scan active i count = Some (<[r := true]> active, r) /\
     i <= r < i + count /\ active !! r = Some false /\
     forall j, i <= j < r -> active !! j = Some true)
    \/
    (CreateEntity_scan active i count = Some (active, MAX_ENTITIES) /\
     r = MAX_ENTITIES /\
     forall j, i <= j < i + count -> active !! j = Some true).
Proof.
  induction count as [|k IH]; intros i Hlen.
  - exists MAX_ENTITIES. right. repeat split. intros j Hj. lia.
  - destruct (lookup_lt_is_Some_2 active i ltac:(lia)) as [act Hact].
    cbn [CreateEntity_scan].
    rewrite Hact. cbn [mbind option_bind].
    destruct act; cbn [negb].
    + destruct (IH (S i) ltac:(lia)) as [r [(Hs & Hr & Hfree & Hbelow)|(Hs & Hr & Hall)]].
      * exists r. left. repeat split; [exact Hs|lia|lia|exact Hfree|].
        intros j Hj. destruct (decide (j = i)) as [->|]; [exact Hact|].
        apply Hbelow. lia.
      * exists r. right. repeat split; [exact Hs|exact Hr|].
        intros j Hj. destruct (decide (j = i)) as [->|]; [exact Hact|].
        apply Hall. lia.
    + exists i. left. repeat split; [lia|lia|exact Hact|]. intros j Hj. lia.
Qed.

(** C7. [CreateEntity] on a well-formed scene always returns.  Either it
    returns the smallest inactive id [r] (below [MAX_ENTITIES], inactive
    before, every smaller id active), flag [r] of the scene it leaves is
    set, every other flag and every other table, buffer and the front index
    are as they were, and the scene is well-formed again; or every one of
    the [MAX_ENTITIES] slots is active, the scene is unchanged, and the
    result is [MAX_ENTITIES], which is not an entity id. *)
Theorem CreateEntity_first_free_or_full (s : Scene) :
  scene_wf s ->
  exists s' r,
    CreateEntity s = Some (s', r) /\
    ((r < MAX_ENTITIES /\
      m_entity_active s !! r = Some false /\
      (forall j, j < r -> m_entity_active s !! j = Some true) /\
      s' = with_active s (<[r := true]> (m_entity_active s)) /\
      m_entity_active s' !! r = Some true /\
      (forall j, j <> r -> m_entity_active s' !! j = m_entity_active s !! j) /\
      m_transforms s' = m_transforms s /\
      m_physics s' = m_physics s /\
      m_renders s' = m_renders s /\
      m_healths s' = m_healths s /\
      m_frontBufferIndex s' = m_frontBufferIndex s /\
      scene_wf s')
     \/
     (r = MAX_ENTITIES /\
      (forall j, j < MAX_ENTITIES -> m_entity_active s !! j = Some true) /\
      s' = s)).
Proof.
  intros Hwf. unfold CreateEntity.
  destruct (CreateEntity_scan_spec (m_entity_active s) MAX_ENTITIES 0)
    as [r [(Hs & Hr & Hfree & Hbelow)|(Hs & Hr & Hall)]].
  - rewrite (wf_active s Hwf). lia.
  - rewrite Hs. cbn [mbind option_bind]. eexists _, r. split; [reflexivity|].
    left. split; [lia|]. split; [exact Hfree|].
    split; [intros j Hj; apply Hbelow; lia|]. split; [reflexivity|].
    cbn [with_active m_entity_active m_transforms m_physics m_renders m_healths
         m_frontBufferIndex].
    split; [apply list_lookup_insert_eq; by eapply lookup_lt_Some|].
    split; [intros j Hj; by apply list_lookup_insert_ne|].
    do 5 (split; [reflexivity|]).
    destruct Hwf. split; try done. cbn. by rewrite length_insert.
  - rewrite Hs. cbn [mbind option_bind]. eexists _, MAX_ENTITIES. split; [reflexivity|].
    right. repeat split; [intros j Hj; apply Hall; lia|].
    by destruct s.
Qed.

Lemma demo_scene_wf : scene_wf demo_scene.
Proof. split; [left|..]; reflexivity. Defined.

Lemma CreateEntity_first_free_or_full_witness :
  exists s' r,
    CreateEntity demo_scene = Some (s', r) /\
    ((r < MAX_ENTITIES /\
      m_entity_active demo_scene !! r = Some false /\
      (forall j, j < r -> m_entity_active demo_scene !! j = Some true) /\
      s' = with_active demo_scene (<[r := true]> (m_entity_active demo_scene)) /\
      m_entity_active s' !! r = Some true /\
      (forall j, j <> r ->
         m_entity_active s' !! j = m_entity_active demo_scene !! j) /\
      m_transforms s' = m_transforms demo_scene /\
      m_physics s' = m_physics demo_scene /\
      m_renders s' = m_renders demo_scene /\
      m_healths s' = m_healths demo_scene /\
      m_frontBufferIndex s' = m_frontBufferIndex demo_scene /\
      scene_wf s')
     \/
     (r = MAX_ENTITIES /\
      (forall j, j < MAX_ENTITIES -> m_entity_active demo_scene !! j = Some true) /\
      s' = demo_scene)).
Proof. exact (CreateEntity_first_free_or_full demo_scene demo_scene_wf). Defined.

(** ** The physics loops, slot by slot *)

Lemma flat_map_seq_ext {B} (f g : nat -> list B) : forall count first,
  (forall j, first <= j < first + count -> f j = g j) ->
  flat_map f (seq first count) = flat_map g (seq first count).
Proof.
  induction count as [|k IH]; intros first Hfg; [reflexivity|].
  cbn [seq flat_map]. rewrite (Hfg first) by lia. f_equal.
  apply IH. intros j Hj. apply Hfg. lia.
Qed.

Section PhysicsLoop.

Variable step : entity_step.
Hypothesis step_appends : appends_only step.

Variable transforms_front : list TransformComponent.
Variable active : list bool.
Variable n : nat.
Hypothesis front_length : length transforms_front = n.
Hypothesis active_length : length active = n.

Local Abbreviation outcome := (entity_outcome step transforms_front active).
Local Abbreviation body := (physics_body step transforms_front active).
Local Abbreviation after := (slot_after step transforms_front active).

Lemma entity_outcome_ext physics physics' j :
  physics' !! j = physics !! j -> outcome physics' j = outcome physics j.
Proof. intros E. unfold entity_outcome. by rewrite E. Qed.

Lemma entity_outcome_active physics j t p' out :
  outcome physics j = Some (t, p', out) ->
  active !! j = Some true /\
  exists tf p, transforms_front !! j = Some tf /\ physics !! j = Some p /\
               step j tf p [] = (t, p', out).
Proof.
  unfold entity_outcome.
  destruct (active !! j) as [[|]|]; try discriminate.
  destruct (transforms_front !! j) as [tf|]; try discriminate.
  destruct (physics !! j) as [p|]; try discriminate.
  intros [= E]. split; [reflexivity|]. by exists tf, p.
Qed.

Lemma entity_outcome_skipped physics j :
  j < n -> length physics = n ->
  outcome physics j = None -> active !! j = Some false.
Proof.
  intros Hj Hp. unfold entity_outcome.
  destruct (lookup_lt_is_Some_2 active j ltac:(lia)) as [act ->].
  destruct (lookup_lt_is_Some_2 transforms_front j ltac:(lia)) as [tf ->].
  destruct (lookup_lt_is_Some_2 physics j ltac:(lia)) as [p ->].
  by destruct act.
Qed.

(** One iteration, in terms of the outcome for its slot. *)
Lemma physics_body_spec i back physics events :
  i < n -> length back = n -> length physics = n ->
  body i (back, physics, events) =
  Some match outcome physics i with
       | Some (t, p', out) => (<[i := t]> back, <[i := p']> physics, events ++ out)
       | None => (back, physics, events)
       end.
Proof.
  intros Hi Hb Hp. unfold physics_body, entity_outcome.
  destruct (lookup_lt_is_Some_2 active i ltac:(lia)) as [act ->].
  destruct (lookup_lt_is_Some_2 transforms_front i ltac:(lia)) as [tf ->].
  destruct (lookup_lt_is_Some_2 back i ltac:(lia)) as [tb ->].
  destruct (lookup_lt_is_Some_2 physics i ltac:(lia)) as [p ->].
  cbn [mbind option_bind]. destruct act; cbn [negb]; [|reflexivity].
  rewrite (step_appends i tf p events).
  by destruct (step i tf p []) as [[t p'] out].
Qed.

Lemma physics_loop_spec : forall count first back physics events,
  first + count <= n -> length back = n -> length physics = n ->
  exists back' physics',
    for_range body first count (back, physics, events) =
      Some (back', physics',
            events ++ flat_map (entity_events step transforms_front active physics)
                        (seq first count)) /\
    length back' = n /\ length physics' = n /\
    forall j,
      back' !! j = after (fun r => r.1.1) physics back first count j /\
      physics' !! j = after (fun r => r.1.2) physics physics first count j.
Proof.
  induction count as [|k IH]; intros first back physics events Hle Hb Hp.
  - exists back, physics. cbn [for_range seq flat_map]. rewrite app_nil_r.
    repeat split; try done; unfold slot_after; case_decide; (done || lia).
  - cbn [for_range]. rewrite physics_body_spec by lia. cbn [mbind option_bind].
    destruct (outcome physics first) as [[[t p'] out]|] eqn:Hout;
      cbn [mbind option_bind].
    + destruct (IH (S first) (<[first := t]> back) (<[first := p']> physics)
                   (events ++ out)) as (back' & physics' & Hrun & Hb' & Hp' & Hslots);
        [lia|by rewrite length_insert..|].
      exists back', physics'. split; [|split; [done|split; [done|]]].
      * etrans; [exact Hrun|]. f_equal. f_equal. rewrite <- app_assoc. f_equal.
        cbn [seq flat_map]. unfold entity_events at 2. rewrite Hout. f_equal.
        apply flat_map_seq_ext. intros j Hj.
        unfold entity_events.
        rewrite (entity_outcome_ext physics (<[first := p']> physics) j); [done|].
        apply list_lookup_insert_ne. lia.
      * intros j. destruct (Hslots j) as [Hbj Hpj]. rewrite Hbj, Hpj.
        unfold slot_after. destruct (decide (j = first)) as [->|Hne].
        -- repeat case_decide; try lia. rewrite Hout.
           rewrite !list_lookup_insert_eq by lia. done.
        -- rewrite (entity_outcome_ext physics (<[first := p']> physics) j)
             by (apply list_lookup_insert_ne; lia).
           rewrite !list_lookup_insert_ne by lia.
           repeat case_decide; (done || lia).
    + destruct (IH (S first) back physics events)
        as (back' & physics' & Hrun & Hb' & Hp' & Hslots); [lia|done|done|].
      exists back', physics'.
      rewrite Hrun. split; [|split; [done|split; [done|]]].
      * cbn [seq flat_map]. unfold entity_events at 2. by rewrite Hout.
      * intros j. destruct (Hslots j) as [Hbj Hpj]. rewrite Hbj, Hpj.
        unfold slot_after. destruct (decide (j = first)) as [->|Hne].
        -- repeat case_decide; try lia. by rewrite Hout.
        -- repeat case_decide; (done || lia).
Qed.

End PhysicsLoop.

(** ** Floating point: multiplying by -1 negates

    [vx *= -1] is exact in binary64: the product has the mantissa and the
    exponent of [vx] and the opposite sign, zeros, infinities and NaN
    included. *)
Lemma mul_minus_one (v : float) : (v * -1)%float = (- v)%float.
Proof.
  apply Prim2SF_inj. rewrite mul_spec, opp_spec.
  pose proof (Prim2SF_valid v) as Hvalid.
  change (Prim2SF (-1)) with (S754_finite true 4503599627370496 (-52)).
  destruct (Prim2SF v) as [s|s| |s m e]; cbn [SF64mul SFmul SFopp xorb].
  1-3: try (destruct s; reflexivity); try reflexivity.
  cbn [valid_binary] in Hvalid. unfold bounded, canonical_mantissa in Hvalid.
  apply andb_prop in Hvalid as [Hcanon Hbound].
  apply Z.eqb_eq in Hcanon.
  unfold binary_round_aux, shr_fexp.
  rewrite (Pos.mul_comm m). cbv [Pos.mul]. cbn [Zdigits2 digits2_pos].
  rewrite !Pos2Z.inj_succ.
  match goal with
  | |- context [fexp prec emax ?z] =>
      replace z with (Z.pos (digits2_pos m) + e)%Z by lia
  end.
  rewrite Hcanon. replace (e - (e + -52))%Z with 52%Z by lia.
  cbn [shr shr_record_of_loc SpecFloat.iter_pos shr_1 orb round_nearest_even
       loc_of_shr_record shr_m Zdigits2].
  replace (e + -52 + 52)%Z with e by lia.
  rewrite Hcanon, Z.sub_diag. cbn [shr shr_m]. rewrite Hbound.
  destruct s; reflexivity.
Qed.

(** ** What each physics loop does for one active entity *)

(** Closes goals that differ only in how the appended events are bracketed. *)
Ltac queue_done :=
  rewrite ?mul_minus_one;
  cbn [app]; rewrite <- ?app_assoc, ?app_nil_r; cbn [app]; reflexivity.

Lemma UpdateParallel_entity_moving i tf p events :
  has_velocity p = true ->
  Pipeline.UpdateParallel_entity i tf p events =
  (let x1 := (x tf + vx p)%float in
   let y1 := (y tf + vy p)%float in
   (mkTransform (clamp 0 79 x1) (clamp 0 24 y1),
    mkPhysics (bounce (outside 0 79 x1) (vx p)) (bounce (outside 0 24 y1) (vy p)),
    events ++ boundary_events i x1 y1)).
Proof.
  intros Hv. unfold Pipeline.UpdateParallel_entity. rewrite Hv. clear Hv.
  destruct tf as [tx ty], p as [pvx pvy].
  unfold boundary_events, clamp, outside, bounce, set_x, set_y, set_vx, set_vy,
    EventQueue.Push.
  cbn [x y vx vy].
  destruct (tx + pvx <? 0)%float eqn:Hx0; cbn [x y vx vy orb].
  - change (79 <? 0)%float with false. cbn [x y vx vy].
    destruct (ty + pvy <? 0)%float eqn:Hy0; cbn [x y vx vy orb].
    + change (24 <? 0)%float with false. cbn [x y vx vy].
      queue_done.
    + destruct (24 <? ty + pvy)%float; cbn [x y vx vy];
        queue_done.
  - destruct (79 <? tx + pvx)%float eqn:Hx1; cbn [x y vx vy].
    + destruct (ty + pvy <? 0)%float eqn:Hy0; cbn [x y vx vy orb].
      * change (24 <? 0)%float with false. cbn [x y vx vy].
        queue_done.
      * destruct (24 <? ty + pvy)%float; cbn [x y vx vy];
          queue_done.
    + destruct (ty + pvy <? 0)%float eqn:Hy0; cbn [x y vx vy orb].
      * change (24 <? 0)%float with false. cbn [x y vx vy].
        queue_done.
      * destruct (24 <? ty + pvy)%float; cbn [x y vx vy];
          queue_done.
Qed.

Lemma Handshake_Update_entity_moving i tf p events :
  has_velocity p = true ->
  Handshake.Update_entity i tf p events =
  (let x1 := (x tf + vx p)%float in
   let y1 := (y tf + vy p)%float in
   (mkTransform x1 y1,
    mkPhysics (bounce (outside 0 79 x1) (vx p)) (bounce (outside 0 24 y1) (vy p)),
    events ++ boundary_events i x1 y1)).
Proof.
  intros Hv. unfold Handshake.Update_entity. rewrite Hv. clear Hv.
  destruct tf as [tx ty], p as [pvx pvy].
  unfold boundary_events, outside, bounce, set_x, set_y, set_vx, set_vy,
    EventQueue.Push.
  cbn [x y vx vy].
  destruct ((tx + pvx <? 0) || (79 <? tx + pvx))%float;
    destruct ((ty + pvy <? 0) || (24 <? ty + pvy))%float;
    cbn [x y vx vy]; queue_done.
Qed.

Lemma Pipeline_Update_entity_moving i tf p events :
  has_velocity p = true ->
  Pipeline.Update_entity i tf p events =
  (mkTransform (x tf + vx p) (y tf + vy p), p, events).
Proof. intros Hv. unfold Pipeline.Update_entity. by rewrite Hv. Qed.

(** With zero velocity all three loops copy the front position and touch
    nothing else. *)
Lemma entity_at_rest i tf p events :
  has_velocity p = false ->
  Pipeline.UpdateParallel_entity i tf p events = (tf, p, events) /\
  Pipeline.Update_entity i tf p events = (tf, p, events) /\
  Handshake.Update_entity i tf p events = (tf, p, events).
Proof.
  intros Hv.
  unfold Pipeline.UpdateParallel_entity, Pipeline.Update_entity,
    Handshake.Update_entity.
  by rewrite Hv.
Qed.

Lemma UpdateParallel_entity_appends : appends_only Pipeline.UpdateParallel_entity.
Proof.
  intros i tf p events. destruct (has_velocity p) eqn:Hv.
  - by rewrite !UpdateParallel_entity_moving.
  - destruct (entity_at_rest i tf p events Hv) as (-> & _).
    destruct (entity_at_rest i tf p [] Hv) as (-> & _). by rewrite app_nil_r.
Qed.

Lemma Handshake_Update_entity_appends : appends_only Handshake.Update_entity.
Proof.
  intros i tf p events. destruct (has_velocity p) eqn:Hv.
  - by rewrite !Handshake_Update_entity_moving.
  - destruct (entity_at_rest i tf p events Hv) as (_ & _ & ->).
    destruct (entity_at_rest i tf p [] Hv) as (_ & _ & ->). by rewrite app_nil_r.
Qed.

Lemma Pipeline_Update_entity_appends : appends_only Pipeline.Update_entity.
Proof.
  intros i tf p events. unfold Pipeline.Update_entity.
  destruct (has_velocity p); by rewrite app_nil_r.
Qed.

(** ** A whole physics pass *)

(** Splits on the front index of a well-formed scene and evaluates the
    buffer accessors at it. *)
Ltac front_cases s Hwf :=
  let E := fresh "E" in
  destruct (wf_front s Hwf) as [E | E]; rewrite E in *;
  change (1 - 0)%Z with 1%Z in *; change (1 - 1)%Z with 0%Z in *;
  cbn [GetTransformsAt] in *.

Lemma front_and_back s :
  scene_wf s ->
  exists tfront tback,
    GetTransforms_Front s = Some tfront /\ GetTransforms_Back s = Some tback /\
    length tfront = MAX_ENTITIES /\ length tback = MAX_ENTITIES.
Proof.
  intros Hwf. unfold GetTransforms_Front, GetTransforms_Back.
  front_cases s Hwf; eexists _, _; repeat split; apply Hwf.
Qed.

Lemma physics_pass_spec step s events :
  appends_only step -> scene_wf s ->
  exists s' pushed,
    physics_pass step s events = Some (s', events ++ pushed) /\
    m_frontBufferIndex s' = m_frontBufferIndex s /\
    pass_result step s s' pushed.
Proof.
  intros Happ Hwf.
  destruct (front_and_back s Hwf) as (tfront & tback & Hf & Hb & Hlf & Hlb).
  destruct (physics_loop_spec step Happ tfront (m_entity_active s) MAX_ENTITIES
              Hlf (wf_active s Hwf) MAX_ENTITIES 0 tback (m_physics s) events)
    as (back' & physics' & Hrun & Hlb' & Hlp' & Hslots);
    [lia|done|apply Hwf|].
  unfold physics_pass. rewrite Hf, Hb. cbn [mbind option_bind].
  unfold GetActiveEntities, GetPhysics.
  rewrite Hrun. cbn [mbind option_bind].
  eexists _, _. split; [reflexivity|]. split; [reflexivity|].
  exists tfront, tback, back'.
  unfold GetTransforms_Front, GetTransforms_Back in *.
  split; [done|]. split; [done|].
  front_cases s Hwf;
    cbn [with_physics with_transforms_at m_transforms fst snd
         m_physics m_renders m_healths m_entity_active] in *;
    repeat split; try done; apply Hslots.
Qed.

Lemma pass_result_StoreFrontIndex step s s' pushed idx :
  pass_result step s s' pushed -> pass_result step s (StoreFrontIndex s' idx) pushed.
Proof. intros H. exact H. Qed.

Lemma pass_result_wf step s s' pushed :
  scene_wf s -> pass_result step s s' pushed ->
  m_frontBufferIndex s' = 0%Z \/ m_frontBufferIndex s' = 1%Z ->
  scene_wf s'.
Proof.
  intros Hwf (tfront & tback & back' & Hf & Hb & Hf' & Hb' & Hlb & Hlp & Hr & Hh & Ha & _)
    Hidx.
  destruct (front_and_back s Hwf) as (tfront0 & tback0 & Hf0 & _ & Hlf & _).
  assert (tfront0 = tfront) as -> by congruence.
  split; [exact Hidx|..|exact Hlp| | |].
  - front_cases s Hwf; congruence.
  - front_cases s Hwf; congruence.
  - rewrite Hr. apply Hwf.
  - rewrite Hh. apply Hwf.
  - rewrite Ha. apply Hwf.
Qed.

Lemma UpdateParallel_as_pass s events :
  Pipeline.UpdateParallel s events =
  '(s1, events1) ← physics_pass Pipeline.UpdateParallel_entity s events;
  Some (StoreFrontIndex s1 (1 - m_frontBufferIndex s)%Z, events1).
Proof.
  unfold Pipeline.UpdateParallel, physics_pass, GetTransforms_Front,
    GetTransforms_Back, LoadFrontIndex.
  destruct (GetTransformsAt s (m_frontBufferIndex s)) as [tfront|]; [|reflexivity].
  destruct (GetTransformsAt s (1 - m_frontBufferIndex s)) as [tback|]; [|reflexivity].
  cbn [mbind option_bind].
  by destruct (for_range _ _ _ _) as [[[back' physics'] events']|].
Qed.

Lemma Pipeline_Update_as_pass s events :
  Pipeline.Update s events =
  '(s1, events1) ← physics_pass Pipeline.Update_entity s events;
  Some (StoreFrontIndex s1 (1 - m_frontBufferIndex s)%Z, events1).
Proof.
  unfold Pipeline.Update, physics_pass.
  destruct (GetTransforms_Front s) as [tfront|]; [|reflexivity].
  destruct (GetTransforms_Back s) as [tback|]; [|reflexivity].
  cbn [mbind option_bind].
  by destruct (for_range _ _ _ _) as [[[back' physics'] events']|].
Qed.

Lemma Handshake_Update_as_pass s events :
  Handshake.Update s events = physics_pass Handshake.Update_entity s events.
Proof. reflexivity. Qed.

Lemma flipped_index s :
  scene_wf s ->
  (1 - m_frontBufferIndex s = 0 \/ 1 - m_frontBufferIndex s = 1)%Z.
Proof. intros Hwf. destruct (wf_front s Hwf); lia. Qed.

(** [UpdateParallel] returns on every well-formed scene: the pass with its
    own step, the front index flipped, the scene still well-formed. *)
Lemma UpdateParallel_spec s events :
  scene_wf s ->
  exists s' pushed,
    Pipeline.UpdateParallel s events = Some (s', events ++ pushed) /\
    m_frontBufferIndex s' = (1 - m_frontBufferIndex s)%Z /\
    pass_result Pipeline.UpdateParallel_entity s s' pushed /\
    scene_wf s'.
Proof.
  intros Hwf.
  destruct (physics_pass_spec _ s events UpdateParallel_entity_appends Hwf)
    as (s1 & pushed & Hrun & Hidx & Hres).
  rewrite UpdateParallel_as_pass, Hrun. cbn [mbind option_bind].
  eexists _, pushed. split; [reflexivity|]. split; [reflexivity|].
  split; [by apply pass_result_StoreFrontIndex|].
  eapply pass_result_wf; [exact Hwf|by apply pass_result_StoreFrontIndex|].
  by apply flipped_index.
Qed.

(** The legacy [Update] of the pipeline program: the same, with its step. *)
Lemma Pipeline_Update_spec s events :
  scene_wf s ->
  exists s' pushed,
    Pipeline.Update s events = Some (s', events ++ pushed) /\
    m_frontBufferIndex s' = (1 - m_frontBufferIndex s)%Z /\
    pass_result Pipeline.Update_entity s s' pushed /\
    scene_wf s'.
Proof.
  intros Hwf.
  destruct (physics_pass_spec _ s events Pipeline_Update_entity_appends Hwf)
    as (s1 & pushed & Hrun & Hidx & Hres).
  rewrite Pipeline_Update_as_pass, Hrun. cbn [mbind option_bind].
  eexists _, pushed. split; [reflexivity|]. split; [reflexivity|].
  split; [by apply pass_result_StoreFrontIndex|].
  eapply pass_result_wf; [exact Hwf|by apply pass_result_StoreFrontIndex|].
  by apply flipped_index.
Qed.

(** [Update] of the handshake program leaves the front index alone. *)
Lemma Handshake_Update_spec s events :
  scene_wf s ->
  exists s' pushed,
    Handshake.Update s events = Some (s', events ++ pushed) /\
    m_frontBufferIndex s' = m_frontBufferIndex s /\
    pass_result Handshake.Update_entity s s' pushed /\
    scene_wf s'.
Proof.
  intros Hwf.
  destruct (physics_pass_spec _ s events Handshake_Update_entity_appends Hwf)
    as (s1 & pushed & Hrun & Hidx & Hres).
  rewrite Handshake_Update_as_pass, Hrun.
  eexists _, pushed. split; [reflexivity|]. split; [exact Hidx|].
  split; [exact Hres|].
  eapply pass_result_wf; [exact Hwf|exact Hres|].
  rewrite Hidx. apply Hwf.
Qed.

(** ** Reading one entity off a pass *)

Lemma events_of_own i j (l : list GameEvent) :
  Forall (fun ev => event_entity ev = j) l ->
  events_of i l = if decide (j = i) then l else [].
Proof.
  unfold events_of. induction 1 as [|ev l Hev _ IH].
  - by case_decide.
  - case_decide as Hji.
    + rewrite filter_cons_True by congruence. by rewrite IH.
    + rewrite filter_cons_False by congruence. exact IH.
Qed.

Lemma events_of_flat_map i (f : nat -> list GameEvent) :
  (forall j, Forall (fun ev => event_entity ev = j) (f j)) ->
  forall count first,
    events_of i (flat_map f (seq first count)) =
    if decide (first <= i < first + count) then f i else [].
Proof.
  intros Hown. induction count as [|k IH]; intros first.
  - cbn [seq flat_map]. case_decide; [lia|reflexivity].
  - cbn [seq flat_map]. unfold events_of in *. rewrite filter_app.
    fold (events_of i (f first)). rewrite (events_of_own i first) by apply Hown.
    rewrite IH. repeat case_decide; subst; try lia; try reflexivity.
    by rewrite app_nil_r.
Qed.

Lemma entity_events_own step tfront active physics :
  own_events step ->
  forall j, Forall (fun ev => event_entity ev = j)
              (entity_events step tfront active physics j).
Proof.
  intros Hown j. unfold entity_events, entity_outcome.
  destruct (active !! j) as [[|]|]; try constructor.
  destruct (tfront !! j) as [tf|]; try constructor.
  destruct (physics !! j) as [p|]; try constructor.
  specialize (Hown j tf p). by destruct (step j tf p []) as [[t p'] out].
Qed.

(** An active entity: its slot of the buffer that was next holds what the
    step made of its front position and velocity, whatever the slot held
    before; its velocity is what the step left; its events are the step's. *)
Lemma pass_result_active step s s' pushed i tfront tf p :
  own_events step -> scene_wf s -> pass_result step s s' pushed ->
  m_entity_active s !! i = Some true ->
  GetTransforms_Front s = Some tfront -> tfront !! i = Some tf ->
  m_physics s !! i = Some p ->
  exists back',
    GetTransformsAt s' (1 - m_frontBufferIndex s)%Z = Some back' /\
    back' !! i = Some (step i tf p []).1.1 /\
    m_physics s' !! i = Some (step i tf p []).1.2 /\
    events_of i pushed = (step i tf p []).2.
Proof.
  intros Hown Hwf (tfront0 & tback & back' & Hf & Hb & Hf' & Hb' & Hlb & Hlp & _ & _ & _
                   & Hpushed & Hslots) Hact Hfront Htf Hp.
  assert (tfront0 = tfront) as -> by congruence.
  assert (i < MAX_ENTITIES) as Hi.
  { rewrite <- (wf_active s Hwf). by eapply lookup_lt_Some. }
  assert (entity_outcome step tfront (m_entity_active s) (m_physics s) i
          = Some (step i tf p [])) as Hout.
  { unfold entity_outcome. by rewrite Hact, Htf, Hp. }
  exists back'. split; [exact Hb'|].
  destruct (Hslots i) as [Hbi Hpi]. unfold slot_after in Hbi, Hpi.
  rewrite decide_True in Hbi by lia. rewrite decide_True in Hpi by lia.
  rewrite Hout in Hbi, Hpi.
  split; [exact Hbi|]. split; [exact Hpi|].
  rewrite Hpushed, events_of_flat_map by by apply entity_events_own.
  rewrite decide_True by lia. unfold entity_events. rewrite Hout.
  by destruct (step i tf p []) as [[t p'] out].
Qed.

(** An inactive entity: its slots are as they were and it has no events. *)
Lemma pass_result_inactive step s s' pushed i :
  own_events step -> scene_wf s -> pass_result step s s' pushed ->
  m_entity_active s !! i = Some false ->
  exists tback back',
    GetTransforms_Back s = Some tback /\
    GetTransformsAt s' (1 - m_frontBufferIndex s)%Z = Some back' /\
    back' !! i = tback !! i /\
    m_physics s' !! i = m_physics s !! i /\
    events_of i pushed = [].
Proof.
  intros Hown Hwf (tfront & tback & back' & Hf & Hb & Hf' & Hb' & Hlb & Hlp & _ & _ & _
                   & Hpushed & Hslots) Hact.
  assert (entity_outcome step tfront (m_entity_active s) (m_physics s) i = None)
    as Hout.
  { unfold entity_outcome. by rewrite Hact. }
  exists tback, back'. split; [exact Hb|]. split; [exact Hb'|].
  destruct (Hslots i) as [Hbi Hpi]. unfold slot_after in Hbi, Hpi.
  rewrite Hout in Hbi, Hpi.
  split; [by case_decide|]. split; [by case_decide|].
  rewrite Hpushed, events_of_flat_map by by apply entity_events_own.
  unfold entity_events. rewrite Hout. by case_decide.
Qed.

Lemma boundary_events_own i x1 y1 :
  Forall (fun ev => event_entity ev = i) (boundary_events i x1 y1).
Proof.
  unfold boundary_events.
  destruct (outside 0 79 x1), (outside 0 24 y1); repeat constructor.
Qed.

Lemma UpdateParallel_entity_own : own_events Pipeline.UpdateParallel_entity.
Proof.
  intros i tf p. destruct (has_velocity p) eqn:Hv.
  - rewrite UpdateParallel_entity_moving by done. apply boundary_events_own.
  - destruct (entity_at_rest i tf p [] Hv) as (-> & _). constructor.
Qed.

Lemma Handshake_Update_entity_own : own_events Handshake.Update_entity.
Proof.
  intros i tf p. destruct (has_velocity p) eqn:Hv.
  - rewrite Handshake_Update_entity_moving by done. apply boundary_events_own.
  - destruct (entity_at_rest i tf p [] Hv) as (_ & _ & ->). constructor.
Qed.

Lemma Pipeline_Update_entity_own : own_events Pipeline.Update_entity.
Proof.
  intros i tf p. unfold Pipeline.Update_entity.
  destruct (has_velocity p); constructor.
Qed.

(** ** The boundary policy of the parallel pipeline *)


(** The same entity under [Update] of the handshake program: integrated,
    velocity negated and events pushed, the coordinate not clamped. *)
Lemma Handshake_Update_policy s events i tfront tf p :
  scene_wf s ->
  m_entity_active s !! i = Some true ->
  GetTransforms_Front s = Some tfront -> tfront !! i = Some tf ->
  m_physics s !! i = Some p -> has_velocity p = true ->
  exists s' pushed written,
    Handshake.Update s events = Some (s', events ++ pushed) /\
    GetTransforms_Back s' = Some written /\
    let x1 := (x tf + vx p)%float in
    let y1 := (y tf + vy p)%float in
    written !! i = Some (mkTransform x1 y1) /\
    m_physics s' !! i =
      Some (mkPhysics (bounce (outside 0 79 x1) (vx p))
                      (bounce (outside 0 24 y1) (vy p))) /\
    events_of i pushed = boundary_events i x1 y1.
Proof.
  intros Hwf Hact Hfront Htf Hp Hv.
  destruct (Handshake_Update_spec s events Hwf) as (s' & pushed & Hrun & Hidx & Hres & _).
  destruct (pass_result_active _ s s' pushed i tfront tf p
              Handshake_Update_entity_own Hwf Hres Hact Hfront Htf Hp)
    as (back' & Hback & Hslot & Hvel & Hev).
  rewrite Handshake_Update_entity_moving in Hslot, Hvel, Hev by exact Hv.
  exists s', pushed, back'. split; [exact Hrun|].
  split; [unfold GetTransforms_Back; by rewrite Hidx|].
  cbn [fst snd app] in *. done.
Qed.

(** The specification's example on the parallel pipeline: from x = 78 with
    vx = 5 the step ends at x = 79 with vx = -5 and one boundary event. *)
Lemma UpdateParallel_edge_example :
  exists s',
    Pipeline.UpdateParallel edge_scene [] = Some (s', [boundary_event 0]) /\
    (GetTransforms_Front s' ≫= (.!! 0)) = Some (mkTransform 79 12) /\
    m_physics s' !! 0 = Some (mkPhysics (-5) 0).
Proof. eexists. split; [vm_compute; reflexivity|]. split; reflexivity. Qed.

(** C1. The handshake program's physics step on the specification's own
    example, an entity at x = 78 with vx = 5: the step (update, then swap)
    negates the velocity and pushes the one boundary event, but the
    position it publishes is x = 83, outside the world; the coordinate is
    not clamped to 79. *)
Theorem Handshake_step_leaves_overshoot :
  exists s',
    Handshake.CPhysicsThread_Run_iteration edge_scene [] =
      Some (s', [boundary_event 0]) /\
    (GetTransforms_Front s' ≫= (.!! 0)) = Some (mkTransform 83 12) /\
    m_physics s' !! 0 = Some (mkPhysics (-5) 0) /\
    clamp 0 79 83 = 79%float.
Proof.
  eexists. split; [vm_compute; reflexivity|]. repeat split; reflexivity.
Qed.

(** ** Every active slot is written *)

(** A whole step of the handshake program: [Update], then the swap. *)
Lemma Handshake_Run_spec s events :
  scene_wf s ->
  exists s' pushed,
    Handshake.CPhysicsThread_Run_iteration s events = Some (s', events ++ pushed) /\
    m_frontBufferIndex s' = (1 - m_frontBufferIndex s)%Z /\
    pass_result Handshake.Update_entity s s' pushed /\
    scene_wf s'.
Proof.
  intros Hwf.
  destruct (Handshake_Update_spec s events Hwf) as (s1 & pushed & Hrun & Hidx & Hres & Hwf1).
  unfold Handshake.CPhysicsThread_Run_iteration. rewrite Hrun.
  cbn [mbind option_bind]. eexists _, pushed. split; [reflexivity|].
  unfold SwapTransformBuffers. split; [cbn; by rewrite Hidx|].
  split; [by apply pass_result_StoreFrontIndex|].
  eapply pass_result_wf; [exact Hwf|by apply pass_result_StoreFrontIndex|].
  cbn. rewrite Hidx. by apply flipped_index.
Qed.

Lemma at_rest_has_no_velocity p :
  (vx p =? 0)%float = true -> (vy p =? 0)%float = true -> has_velocity p = false.
Proof. intros Hx Hy. unfold has_velocity. by rewrite Hx, Hy. Qed.

(** C4. For an active entity, a physics step of either program writes the
    entity's slot of the buffer that was next, which the step then makes
    current (the front index is flipped), and what it writes
    is computed from the entity's current position and velocity alone:
    the slot's old content plays no part.  When the velocity is zero
    (both components compare equal to 0.0) the slot receives the current
    position itself, the velocity is as it was, and no event of the entity
    is pushed. *)
Theorem physics_step_writes_every_active_slot s events i tfront tf p :
  scene_wf s ->
  m_entity_active s !! i = Some true ->
  GetTransforms_Front s = Some tfront -> tfront !! i = Some tf ->
  m_physics s !! i = Some p ->
  let x1 := (x tf + vx p)%float in
  let y1 := (y tf + vy p)%float in
  (exists s' pushed current,
     Pipeline.UpdateParallel s events = Some (s', events ++ pushed) /\
     m_frontBufferIndex s' = (1 - m_frontBufferIndex s)%Z /\
     GetTransforms_Front s' = Some current /\
     current !! i =
       Some (if has_velocity p
             then mkTransform (clamp 0 79 x1) (clamp 0 24 y1) else tf) /\
     ((vx p =? 0)%float = true -> (vy p =? 0)%float = true ->
      current !! i = Some tf /\ m_physics s' !! i = Some p /\
      events_of i pushed = [])) /\
  (exists s' pushed current,
     Handshake.CPhysicsThread_Run_iteration s events = Some (s', events ++ pushed) /\
     m_frontBufferIndex s' = (1 - m_frontBufferIndex s)%Z /\
     GetTransforms_Front s' = Some current /\
     current !! i = Some (if has_velocity p then mkTransform x1 y1 else tf) /\
     ((vx p =? 0)%float = true -> (vy p =? 0)%float = true ->
      current !! i = Some tf /\ m_physics s' !! i = Some p /\
      events_of i pushed = [])).
Proof.
  intros Hwf Hact Hfront Htf Hp x1 y1. split.
  - destruct (UpdateParallel_spec s events Hwf) as (s' & pushed & Hrun & Hidx & Hres & _).
    destruct (pass_result_active _ s s' pushed i tfront tf p
                UpdateParallel_entity_own Hwf Hres Hact Hfront Htf Hp)
      as (back' & Hback & Hslot & Hvel & Hev).
    exists s', pushed, back'. split; [exact Hrun|]. split; [exact Hidx|].
    split; [unfold GetTransforms_Front; by rewrite Hidx|].
    split.
    + rewrite Hslot. destruct (has_velocity p) eqn:Hv.
      * by rewrite UpdateParallel_entity_moving.
      * by destruct (entity_at_rest i tf p [] Hv) as (-> & _).
    + intros Hx Hy. pose proof (at_rest_has_no_velocity p Hx Hy) as Hv.
      destruct (entity_at_rest i tf p [] Hv) as (E & _).
      rewrite E in Hslot, Hvel, Hev. done.
  - destruct (Handshake_Run_spec s events Hwf) as (s' & pushed & Hrun & Hidx & Hres & _).
    destruct (pass_result_active _ s s' pushed i tfront tf p
                Handshake_Update_entity_own Hwf Hres Hact Hfront Htf Hp)
      as (back' & Hback & Hslot & Hvel & Hev).
    exists s', pushed, back'. split; [exact Hrun|]. split; [exact Hidx|].
    split; [unfold GetTransforms_Front; by rewrite Hidx|].
    split.
    + rewrite Hslot. destruct (has_velocity p) eqn:Hv.
      * by rewrite Handshake_Update_entity_moving.
      * by destruct (entity_at_rest i tf p [] Hv) as (_ & _ & ->).
    + intros Hx Hy. pose proof (at_rest_has_no_velocity p Hx Hy) as Hv.
      destruct (entity_at_rest i tf p [] Hv) as (_ & _ & E).
      rewrite E in Hslot, Hvel, Hev. done.
Qed.

Lemma rest_scene_wf : scene_wf rest_scene.
Proof. split; [left|..]; reflexivity. Defined.

(** The entity at rest of [rest_scene], at (10, 5) with velocity (0, 0). *)
Lemma physics_step_writes_every_active_slot_witness :
  let s := rest_scene in
  let tf := mkTransform 10 5 in
  let p := mkPhysics 0 0 in
  (exists s' pushed current,
     Pipeline.UpdateParallel s [] = Some (s', [] ++ pushed) /\
     m_frontBufferIndex s' = (1 - m_frontBufferIndex s)%Z /\
     GetTransforms_Front s' = Some current /\
     current !! 1 =
       Some (if has_velocity p
             then mkTransform (clamp 0 79 (10 + 0)) (clamp 0 24 (5 + 0)) else tf) /\
     ((0 =? 0)%float = true -> (0 =? 0)%float = true ->
      current !! 1 = Some tf /\ m_physics s' !! 1 = Some p /\
      events_of 1 pushed = [])) /\
  (exists s' pushed current,
     Handshake.CPhysicsThread_Run_iteration s [] = Some (s', [] ++ pushed) /\
     m_frontBufferIndex s' = (1 - m_frontBufferIndex s)%Z /\
     GetTransforms_Front s' = Some current /\
     current !! 1 = Some (if has_velocity p then mkTransform (10 + 0) (5 + 0) else tf) /\
     ((0 =? 0)%float = true -> (0 =? 0)%float = true ->
      current !! 1 = Some tf /\ m_physics s' !! 1 = Some p /\
      events_of 1 pushed = [])).
Proof.
  exact (physics_step_writes_every_active_slot rest_scene [] 1
           (fst (m_transforms rest_scene)) (mkTransform 10 5) (mkPhysics 0 0)
           rest_scene_wf eq_refl eq_refl eq_refl eq_refl).
Defined.

(** ** The events a physics step pushes *)

Lemma entity_events_expected step s tfront i :
  (forall tf p, has_velocity p = true ->
     (step i tf p []).2 = boundary_events i (x tf + vx p)%float (y tf + vy p)%float) ->
  (forall tf p, has_velocity p = false -> (step i tf p []).2 = []) ->
  entity_events step tfront (m_entity_active s) (m_physics s) i =
  expected_events s tfront i.
Proof.
  intros Hmove Hrest. unfold entity_events, entity_outcome, expected_events.
  destruct (m_entity_active s !! i) as [[|]|]; try reflexivity.
  destruct (tfront !! i) as [tf|]; try reflexivity.
  destruct (m_physics s !! i) as [p|]; try reflexivity.
  specialize (Hmove tf p). specialize (Hrest tf p).
  destruct (step i tf p []) as [[t p'] out]. cbn [snd] in *.
  destruct (has_velocity p); auto.
Qed.

Lemma UpdateParallel_events_expected s tfront i :
  entity_events Pipeline.UpdateParallel_entity tfront (m_entity_active s) (m_physics s) i
  = expected_events s tfront i.
Proof.
  apply entity_events_expected; intros tf p Hv.
  - by rewrite UpdateParallel_entity_moving.
  - by destruct (entity_at_rest i tf p [] Hv) as (-> & _).
Qed.

Lemma Handshake_events_expected s tfront i :
  entity_events Handshake.Update_entity tfront (m_entity_active s) (m_physics s) i
  = expected_events s tfront i.
Proof.
  apply entity_events_expected; intros tf p Hv.
  - by rewrite Handshake_Update_entity_moving.
  - by destruct (entity_at_rest i tf p [] Hv) as (_ & _ & ->).
Qed.

Lemma boundary_events_length i x1 y1 : length (boundary_events i x1 y1) <= 2.
Proof.
  unfold boundary_events.
  destruct (outside 0 79 x1), (outside 0 24 y1); cbn; lia.
Qed.

Lemma expected_events_length s tfront i : length (expected_events s tfront i) <= 2.
Proof.
  unfold expected_events.
  destruct (m_entity_active s !! i) as [[|]|]; cbn; try lia.
  destruct (tfront !! i) as [tf|]; cbn; try lia.
  destruct (m_physics s !! i) as [p|]; cbn; try lia.
  destruct (has_velocity p); cbn; try lia. apply boundary_events_length.
Qed.

Lemma expected_events_boundary s tfront i :
  Forall (fun ev =>
            ev = Collision (mkCollision i MAX_ENTITIES) /\
            m_entity_active s !! i = Some true /\
            exists p, m_physics s !! i = Some p /\ has_velocity p = true)
         (expected_events s tfront i).
Proof.
  unfold expected_events.
  destruct (m_entity_active s !! i) as [[|]|]; try constructor.
  destruct (tfront !! i) as [tf|]; try constructor.
  destruct (m_physics s !! i) as [p|]; try constructor.
  destruct (has_velocity p) eqn:Hv; try constructor.
  unfold boundary_events, boundary_event.
  destruct (outside 0 79 _), (outside 0 24 _); repeat constructor; eauto.
Qed.

(** C10. On a well-formed scene the step of the parallel pipeline and the
    step of the handshake program push the same events, after the ones
    already queued.  Each pushed event is a collision whose first id is an
    entity below [MAX_ENTITIES] that is active and has nonzero velocity and
    whose second id is [MAX_ENTITIES], which is no entity id.  The events
    of one entity are those the boundary policy owes it: none if it is
    inactive or at rest, else at most one for the x axis followed by at
    most one for the y axis; so never more than two. *)
Theorem physics_events_are_boundary_hits s events tfront :
  scene_wf s -> GetTransforms_Front s = Some tfront ->
  exists s1 s2 pushed,
    Pipeline.UpdateParallel s events = Some (s1, events ++ pushed) /\
    Handshake.Update s events = Some (s2, events ++ pushed) /\
    Forall (fun ev =>
              exists i p,
                ev = Collision (mkCollision i MAX_ENTITIES) /\
                i < MAX_ENTITIES /\ ~ (MAX_ENTITIES < MAX_ENTITIES) /\
                m_entity_active s !! i = Some true /\
                m_physics s !! i = Some p /\ has_velocity p = true) pushed /\
    forall i,
      events_of i pushed = expected_events s tfront i /\
      length (events_of i pushed) <= 2.
Proof.
  intros Hwf Hfront.
  destruct (UpdateParallel_spec s events Hwf) as (s1 & pushed & Hrun1 & _ & Hres1 & _).
  destruct (Handshake_Update_spec s events Hwf) as (s2 & pushed2 & Hrun2 & _ & Hres2 & _).
  destruct Hres1 as (tf1 & _ & _ & Hf1 & _ & _ & _ & _ & _ & _ & _ & _ & Hpushed & _).
  destruct Hres2 as (tf2 & _ & _ & Hf2 & _ & _ & _ & _ & _ & _ & _ & _ & Hpushed2 & _).
  assert (tf1 = tfront) as -> by congruence.
  assert (tf2 = tfront) as -> by congruence.
  assert (pushed = flat_map (expected_events s tfront) (seq 0 MAX_ENTITIES)) as Hexp.
  { rewrite Hpushed. apply flat_map_ext. intros i. apply UpdateParallel_events_expected. }
  assert (pushed2 = pushed) as ->.
  { rewrite Hpushed2, Hexp. apply flat_map_ext. intros i.
    apply Handshake_events_expected. }
  exists s1, s2, pushed. split; [exact Hrun1|]. split; [exact Hrun2|].
  assert (forall j, Forall (fun ev => event_entity ev = j) (expected_events s tfront j))
    as Hown.
  { intros j. eapply Forall_impl; [apply expected_events_boundary|].
    intros ev (-> & _). reflexivity. }
  split.
  - rewrite Hexp. apply Forall_flat_map. apply Forall_forall.
    intros i Hi. apply list_elem_of_In, in_seq in Hi.
    eapply Forall_impl; [apply expected_events_boundary|].
    intros ev (-> & Hact & p & Hp & Hv). exists i, p. repeat split; try done; lia.
  - intros i. rewrite Hexp, events_of_flat_map by exact Hown.
    case_decide as Hi.
    + split; [reflexivity|apply expected_events_length].
    + assert (expected_events s tfront i = []) as ->; [|split; [reflexivity|cbn; lia]].
      unfold expected_events.
      rewrite (lookup_ge_None_2 (m_entity_active s) i); [reflexivity|].
      rewrite (wf_active s Hwf). lia.
Qed.

Lemma edge_scene_wf : scene_wf edge_scene.
Proof. split; [left|..]; reflexivity. Defined.

Lemma physics_events_are_boundary_hits_witness :
  exists s1 s2 pushed,
    Pipeline.UpdateParallel edge_scene [] = Some (s1, [] ++ pushed) /\
    Handshake.Update edge_scene [] = Some (s2, [] ++ pushed) /\
    Forall (fun ev =>
              exists i p,
                ev = Collision (mkCollision i MAX_ENTITIES) /\
                i < MAX_ENTITIES /\ ~ (MAX_ENTITIES < MAX_ENTITIES) /\
                m_entity_active edge_scene !! i = Some true /\
                m_physics edge_scene !! i = Some p /\ has_velocity p = true) pushed /\
    forall i,
      events_of i pushed =
        expected_events edge_scene (fst (m_transforms edge_scene)) i /\
      length (events_of i pushed) <= 2.
Proof.
  exact (physics_events_are_boundary_hits edge_scene []
           (fst (m_transforms edge_scene)) edge_scene_wf eq_refl).
Defined.

(** ** The front index *)

(** The index stays 0 or 1, and one call of [UpdateParallel], one call of
    the legacy [Update], and one iteration of the handshake program's
    physics thread each flip it once. *)
Lemma front_index_flips_once s events :
  scene_wf s ->
  (exists s' events',
     Pipeline.UpdateParallel s events = Some (s', events') /\
     m_frontBufferIndex s' = (1 - m_frontBufferIndex s)%Z /\ scene_wf s') /\
  (exists s' events',
     Pipeline.Update s events = Some (s', events') /\
     m_frontBufferIndex s' = (1 - m_frontBufferIndex s)%Z /\ scene_wf s') /\
  (exists s' events',
     Handshake.CPhysicsThread_Run_iteration s events = Some (s', events') /\
     m_frontBufferIndex s' = (1 - m_frontBufferIndex s)%Z /\ scene_wf s').
Proof.
  intros Hwf. repeat split.
  - destruct (UpdateParallel_spec s events Hwf) as (s' & pushed & Hrun & Hidx & _ & Hwf').
    by exists s', (events ++ pushed).
  - destruct (Pipeline_Update_spec s events Hwf) as (s' & pushed & Hrun & Hidx & _ & Hwf').
    by exists s', (events ++ pushed).
  - destruct (Handshake_Run_spec s events Hwf) as (s' & pushed & Hrun & Hidx & _ & Hwf').
    by exists s', (events ++ pushed).
Qed.

(** C2. The step paths that run: [UpdateParallel] (what [tPhysics] calls),
    one iteration of the handshake program's physics thread ([Update] and
    then [SwapTransformBuffers]), and the legacy [Update] called on its own.
    From a well-formed scene, [k] completed steps of any one of them all
    return; the front index is 0 or 1 afterwards, as it was before; it has
    flipped once per step, so it is the old index after an even number of
    steps and 1 minus the old index after an odd number; and one step
    leaves 1 minus the index it found. *)
Theorem completed_step_flips_front_index step s events k :
  scene_wf s ->
  step = Pipeline.UpdateParallel \/
  step = Handshake.CPhysicsThread_Run_iteration \/
  step = Pipeline.Update ->
  (exists s1 events1,
     step s events = Some (s1, events1) /\
     m_frontBufferIndex s1 = (1 - m_frontBufferIndex s)%Z) /\
  exists s' events',
    completed_steps step k s events = Some (s', events') /\
    (m_frontBufferIndex s = 0%Z \/ m_frontBufferIndex s = 1%Z) /\
    (m_frontBufferIndex s' = 0%Z \/ m_frontBufferIndex s' = 1%Z) /\
    m_frontBufferIndex s' =
      (if Nat.even k then m_frontBufferIndex s else 1 - m_frontBufferIndex s)%Z.
Proof.
  intros Hwf Hstep.
  assert (forall s0 events0, scene_wf s0 ->
            exists s1 events1,
              step s0 events0 = Some (s1, events1) /\
              m_frontBufferIndex s1 = (1 - m_frontBufferIndex s0)%Z /\
              scene_wf s1) as Hone.
  { intros s0 events0 Hwf0. destruct Hstep as [-> | [-> | ->]].
    - destruct (UpdateParallel_spec s0 events0 Hwf0)
        as (s1 & pushed & Hrun & Hidx & _ & Hwf1).
      by exists s1, (events0 ++ pushed).
    - destruct (Handshake_Run_spec s0 events0 Hwf0)
        as (s1 & pushed & Hrun & Hidx & _ & Hwf1).
      by exists s1, (events0 ++ pushed).
    - destruct (Pipeline_Update_spec s0 events0 Hwf0)
        as (s1 & pushed & Hrun & Hidx & _ & Hwf1).
      by exists s1, (events0 ++ pushed). }
  split.
  { destruct (Hone s events Hwf) as (s1 & events1 & Hrun & Hidx & _).
    by exists s1, events1. }
  clear Hstep. revert s events Hwf.
  induction k as [|k IH]; intros s events Hwf.
  - exists s, events. cbn [completed_steps Nat.even].
    split; [reflexivity|]. by repeat split; try apply Hwf.
  - destruct (Hone s events Hwf) as (s1 & events1 & Hrun & Hidx & Hwf1).
    destruct (IH s1 events1 Hwf1) as (s' & events' & Hruns & _ & Hrange & Hidx').
    exists s', events'. cbn [completed_steps]. rewrite Hrun.
    cbn [mbind option_bind]. split; [exact Hruns|].
    split; [apply Hwf|]. split; [exact Hrange|].
    rewrite Hidx', Hidx, Nat.even_succ, <- Nat.negb_even.
    destruct (Nat.even k); cbn [negb]; lia.
Qed.

Lemma completed_step_flips_front_index_witness :
  (exists s1 events1,
     Pipeline.UpdateParallel demo_scene [] = Some (s1, events1) /\
     m_frontBufferIndex s1 = (1 - m_frontBufferIndex demo_scene)%Z) /\
  exists s' events',
    completed_steps Pipeline.UpdateParallel 3 demo_scene [] = Some (s', events') /\
    (m_frontBufferIndex demo_scene = 0%Z \/ m_frontBufferIndex demo_scene = 1%Z) /\
    (m_frontBufferIndex s' = 0%Z \/ m_frontBufferIndex s' = 1%Z) /\
    m_frontBufferIndex s' =
      (if Nat.even 3 then m_frontBufferIndex demo_scene
       else 1 - m_frontBufferIndex demo_scene)%Z.
Proof.
  apply (completed_step_flips_front_index Pipeline.UpdateParallel demo_scene [] 3
           demo_scene_wf).
  left. reflexivity.
Defined.

(** ** The render snapshot *)

Section CollectLoop.

Variable hidden : ascii.
Variable transforms : list TransformComponent.
Variable renders : list RenderComponent.
Variable active : list bool.
Variable n : nat.
Hypothesis transforms_length : length transforms = n.
Hypothesis renders_length : length renders = n.
Hypothesis active_length : length active = n.

Lemma Collect_body_spec i packets :
  i < n ->
  Collect_body hidden transforms renders active i packets =
  if visible hidden active renders i
  then pkt ← packet_of transforms renders i; Some (packets ++ [pkt])
  else Some packets.
Proof.
  intros Hi. unfold Collect_body, visible, packet_of.
  destruct (lookup_lt_is_Some_2 active i ltac:(lia)) as [act ->].
  destruct (lookup_lt_is_Some_2 renders i ltac:(lia)) as [r ->].
  destruct (lookup_lt_is_Some_2 transforms i ltac:(lia)) as [t ->].
  cbn [mbind option_bind]. destruct act; [|reflexivity].
  destruct (negb (Ascii.eqb (symbol r) hidden)); [|reflexivity].
  destruct (double_to_int (x t)) as [px|]; [|reflexivity].
  cbn [mbind option_bind].
  by destruct (double_to_int (y t)) as [py|].
Qed.

Lemma Collect_loop_spec : forall count first packets,
  first + count <= n ->
  for_range (Collect_body hidden transforms renders active) first count packets =
  rest ← mapM (packet_of transforms renders)
            (filter (fun i => visible hidden active renders i) (seq first count));
  Some (packets ++ rest).
Proof.
  induction count as [|k IH]; intros first packets Hle.
  - cbn. by rewrite app_nil_r.
  - cbn [for_range seq]. rewrite Collect_body_spec by lia.
    destruct (visible hidden active renders first) eqn:Hvis.
    + rewrite filter_cons_True by (rewrite Hvis; exact I).
      cbn [mapM]. destruct (packet_of transforms renders first) as [pkt|];
        cbn [mbind option_bind]; [|reflexivity].
      rewrite IH by lia.
      destruct (mapM _ _) as [rest|]; cbn [mbind option_bind mret option_ret];
        [|reflexivity].
      by rewrite <- app_assoc.
    + rewrite filter_cons_False by (rewrite Hvis; exact id).
      cbn [mbind option_bind]. apply IH. lia.
Qed.

End CollectLoop.

(** [CollectParallel] and the first [Collect] of the pipeline program emit
    the packets of the active entities whose glyph is not a space, by
    increasing id, from the current buffer, coordinates truncated. *)
Lemma CollectParallel_spec s packets :
  scene_wf s ->
  PipelineRender.CollectParallel s packets = expected_packets " " s /\
  PipelineRender.Collect s packets = expected_packets " " s.
Proof.
  intros Hwf.
  destruct (front_and_back s Hwf) as (tfront & tback & Hf & _ & Hlf & _).
  unfold PipelineRender.CollectParallel, PipelineRender.Collect, expected_packets,
    GetTransformsAtConst, LoadFrontIndex, GetRenders, GetActiveEntities.
  fold (GetTransforms_Front s). rewrite Hf. cbn [mbind option_bind].
  rewrite (Collect_loop_spec " " tfront (m_renders s) (m_entity_active s) MAX_ENTITIES
             Hlf (wf_renders s Hwf) (wf_active s Hwf)) by lia.
  by destruct (mapM _ _).
Qed.

(** [Collect] of the handshake program emits the packets of the active
    entities whose glyph is not the null character. *)
Lemma Handshake_Collect_spec s packets :
  scene_wf s ->
  HandshakeRender.Collect s packets = expected_packets "000" s.
Proof.
  intros Hwf.
  destruct (front_and_back s Hwf) as (tfront & tback & Hf & _ & Hlf & _).
  unfold HandshakeRender.Collect, expected_packets, GetRenders, GetActiveEntities.
  rewrite Hf. cbn [mbind option_bind].
  rewrite (Collect_loop_spec "000" tfront (m_renders s) (m_entity_active s) MAX_ENTITIES
             Hlf (wf_renders s Hwf) (wf_active s Hwf)) by lia.
  by destruct (mapM _ _).
Qed.

(** C6. [CollectParallel] on a scene with one entity that was created and
    given no glyph: the entity is active, its glyph is the null character,
    and the snapshot holds a packet for it, with that null glyph.  The
    handshake program's [Collect] emits nothing for the same scene.  The
    loop hides the space character instead: an active entity whose glyph
    is a space gets no packet from it. *)
Theorem CollectParallel_draws_null_glyph :
  m_entity_active bare_scene !! 0 = Some true /\
  m_renders bare_scene !! 0 = Some (mkRender "000") /\
  PipelineRender.CollectParallel bare_scene [] =
    Some [RenderPacket.mk "000" 0 0] /\
  HandshakeRender.Collect bare_scene [] = Some [] /\
  m_renders blank_scene !! 0 = Some (mkRender " ") /\
  PipelineRender.CollectParallel blank_scene [] = Some [] /\
  HandshakeRender.Collect blank_scene [] = Some [RenderPacket.mk " " 3 4].
Proof. repeat split; vm_compute; reflexivity. Qed.

(** ** The damage resolver *)

(** The loop is the [TryPop] loop of the source. *)
Lemma drain_loop_TryPop healths events out :
  drain_loop healths events out =
  match EventQueue.TryPop events with
  | (None, events') => Some (healths, events', out)
  | (Some ev, events') =>
      '(healths', out') ← apply_event healths out ev;
      drain_loop healths' events' out'
  end.
Proof. by destruct events. Qed.

(** The same loop over [Pop], as [DamageSystem::Update] of the handshake
    program writes it. *)
Lemma drain_loop_Pop healths events out :
  drain_loop healths events out =
  match EventQueue.Pop events with
  | (None, events') => Some (healths, events', out)
  | (Some ev, events') =>
      '(healths', out') ← apply_event healths out ev;
      drain_loop healths' events' out'
  end.
Proof. by destruct events. Qed.

Lemma apply_event_ignored healths out ev :
  is_boundary ev = false -> apply_event healths out ev = Some (healths, out).
Proof. destruct ev as [arg]. cbn. by intros ->. Qed.

Lemma apply_event_boundary healths out i h :
  healths !! i = Some (mkHealth h) ->
  apply_event healths out (boundary_event i) =
  Some (<[i := mkHealth (health_after_hit h)]> healths, out ++ report_of_hit i h).
Proof.
  intros Hh. unfold apply_event, boundary_event, health_after_hit, report_of_hit.
  cbn [a b]. rewrite Nat.eqb_refl, Hh. cbn [mbind option_bind health].
  destruct (0 <? h)%Z; [reflexivity|].
  by rewrite list_insert_id, app_nil_r.
Qed.

Lemma health_after_hit_nonneg h : (0 <= h)%Z -> (0 <= health_after_hit h)%Z.
Proof. unfold health_after_hit. destruct (0 <? h)%Z; lia. Qed.

Lemma apply_event_total healths out ev :
  event_in_range ev -> length healths = MAX_ENTITIES ->
  exists healths' out',
    apply_event healths out ev = Some (healths', out') /\
    length healths' = MAX_ENTITIES /\
    (Forall (fun h => (0 <= health h)%Z) healths ->
     Forall (fun h => (0 <= health h)%Z) healths').
Proof.
  intros Hin Hlen. destruct ev as [[i j]]. cbn [event_in_range a b] in Hin.
  destruct (Nat.eqb j MAX_ENTITIES) eqn:Hj.
  - apply Nat.eqb_eq in Hj. subst j. specialize (Hin eq_refl).
    destruct (lookup_lt_is_Some_2 healths i ltac:(lia)) as [[h] Hh].
    fold (boundary_event i). rewrite (apply_event_boundary _ _ _ _ Hh).
    eexists _, _. split; [reflexivity|]. split; [by rewrite length_insert|].
    intros Hpos. apply Forall_insert; [exact Hpos|]. cbn.
    apply health_after_hit_nonneg.
    by apply (Forall_lookup_1 _ _ _ _ Hpos Hh).
  - exists healths, out. split; [|done].
    apply apply_event_ignored. cbn. exact Hj.
Qed.

Lemma drain_loop_spec events : forall healths out,
  Forall event_in_range events -> length healths = MAX_ENTITIES ->
  exists healths' out',
    drain_loop healths events out = Some (healths', [], out') /\
    length healths' = MAX_ENTITIES /\
    drain_loop healths (filter (fun ev => is_boundary ev) events) out =
      Some (healths', [], out') /\
    (Forall (fun h => (0 <= health h)%Z) healths ->
     Forall (fun h => (0 <= health h)%Z) healths').
Proof.
  induction events as [|ev events IH]; intros healths out Hin Hlen.
  - exists healths, out. by repeat split.
  - apply Forall_cons in Hin as [Hev Hin].
    destruct (apply_event_total healths out ev Hev Hlen)
      as (healths1 & out1 & Happ & Hlen1 & Hpos1).
    destruct (IH healths1 out1 Hin Hlen1) as (healths' & out' & Hrun & Hlen' & Hfil & Hpos').
    exists healths', out'. cbn [drain_loop]. rewrite Happ. cbn [mbind option_bind].
    split; [exact Hrun|]. split; [exact Hlen'|]. split; [|by auto].
    destruct (is_boundary ev) eqn:Hb.
    + rewrite filter_cons_True by (rewrite Hb; exact I).
      cbn [drain_loop]. rewrite Happ. exact Hfil.
    + rewrite filter_cons_False by (rewrite Hb; exact id).
      rewrite (apply_event_ignored _ _ _ Hb) in Happ.
      by injection Happ as <- <-.
Qed.

Lemma drain_loop_ignored events : forall healths out,
  Forall (fun ev => is_boundary ev = false) events ->
  drain_loop healths events out = Some (healths, [], out).
Proof.
  induction events as [|ev events IH]; intros healths out Hall; [reflexivity|].
  apply Forall_cons in Hall as [Hev Hall].
  cbn [drain_loop]. rewrite (apply_event_ignored _ _ _ Hev).
  cbn [mbind option_bind]. by apply IH.
Qed.

(** C9. On a well-formed scene whose queued boundary events name entities
    below [MAX_ENTITIES], [DrainAndApply] returns, the queue it leaves is
    empty, and the scene it leaves has the position buffers, the front
    index, the velocity, glyph and active tables of the scene it was given.
    It does to the health table and the output exactly what it does when
    the events whose second id is not [MAX_ENTITIES] are removed from the
    queue beforehand; in particular a queue of such events only leaves the
    whole scene and the output as they were. *)
Theorem DrainAndApply_frame s events out :
  scene_wf s -> Forall event_in_range events ->
  exists s' out',
    DrainAndApply s events out = Some (s', [], out') /\
    m_transforms s' = m_transforms s /\
    m_frontBufferIndex s' = m_frontBufferIndex s /\
    m_physics s' = m_physics s /\
    m_renders s' = m_renders s /\
    m_entity_active s' = m_entity_active s /\
    scene_wf s' /\
    DrainAndApply s (filter (fun ev => is_boundary ev) events) out = Some (s', [], out') /\
    (Forall (fun ev => is_boundary ev = false) events -> s' = s /\ out' = out).
Proof.
  intros Hwf Hin.
  destruct (drain_loop_spec events (m_healths s) out Hin (wf_healths s Hwf))
    as (healths' & out' & Hrun & Hlen & Hfil & _).
  unfold DrainAndApply, GetHealths. rewrite Hrun, Hfil. cbn [mbind option_bind].
  eexists _, out'. split; [reflexivity|]. repeat split; try apply Hwf; try done.
  - rewrite (drain_loop_ignored _ _ _ H) in Hrun. injection Hrun as <- <-.
    by destruct s.
  - rewrite (drain_loop_ignored _ _ _ H) in Hrun. by injection Hrun as <- <-.
Qed.

Lemma DrainAndApply_frame_witness :
  exists s' out',
    DrainAndApply demo_scene
      [boundary_event 1; Collision (mkCollision 0 1)] [] = Some (s', [], out') /\
    m_transforms s' = m_transforms demo_scene /\
    m_frontBufferIndex s' = m_frontBufferIndex demo_scene /\
    m_physics s' = m_physics demo_scene /\
    m_renders s' = m_renders demo_scene /\
    m_entity_active s' = m_entity_active demo_scene /\
    scene_wf s' /\
    DrainAndApply demo_scene
      (filter (fun ev => is_boundary ev)
         [boundary_event 1; Collision (mkCollision 0 1)]) [] = Some (s', [], out') /\
    (Forall (fun ev => is_boundary ev = false)
       [boundary_event 1; Collision (mkCollision 0 1)] ->
     s' = demo_scene /\ out' = []).
Proof.
  apply (DrainAndApply_frame demo_scene
           [boundary_event 1; Collision (mkCollision 0 1)] [] demo_scene_wf).
  repeat constructor; simpl; unfold MAX_ENTITIES; lia.
Defined.

Lemma drain_loop_nonneg events : forall healths out healths' events' out',
  drain_loop healths events out = Some (healths', events', out') ->
  Forall (fun h => (0 <= health h)%Z) healths ->
  Forall (fun h => (0 <= health h)%Z) healths'.
Proof.
  induction events as [|[arg] events IH]; intros healths out healths' events' out' Hrun Hpos.
  - cbn in Hrun. by injection Hrun as <- _ _.
  - cbn [drain_loop apply_event] in Hrun.
    destruct (Nat.eqb (b arg) MAX_ENTITIES); [|by eapply IH].
    destruct (healths !! a arg) as [h|] eqn:Hh; [|discriminate].
    cbn [mbind option_bind] in Hrun.
    destruct (0 <? health h)%Z; [|by eapply IH].
    eapply IH; [exact Hrun|]. apply Forall_insert; [exact Hpos|]. cbn. lia.
Qed.

(** C3, as the code has it. Draining one boundary event of an entity with
    health [h]: if [h] is positive the health becomes [max 0 (h - 10)] and
    one line reporting that value is written; otherwise the health stays
    and nothing is written.  Health that was not negative is not negative
    afterwards, for this entity and, over any drain, for every entity.
    With [h = 5], one hit leaves 0 and reports it; two hits in a row leave
    0 and the output holds the first hit's line only: the second hit is
    not reported. *)
Theorem boundary_hit_floors_health s out i h :
  m_healths s !! i = Some (mkHealth h) ->
  DrainAndApply s [boundary_event i] out =
    Some (with_healths s (<[i := mkHealth (health_after_hit h)]> (m_healths s)),
          [], out ++ report_of_hit i h) /\
  ((0 < h)%Z -> health_after_hit h = Z.max 0 (h - 10) /\
                report_of_hit i h = [mkWallHit i (Z.max 0 (h - 10))]) /\
  ((h <= 0)%Z -> health_after_hit h = h /\ report_of_hit i h = []) /\
  ((0 <= h)%Z -> (0 <= health_after_hit h)%Z) /\
  (h = 5%Z ->
   health_after_hit h = 0%Z /\
   DrainAndApply s [boundary_event i; boundary_event i] out =
     Some (with_healths s (<[i := mkHealth 0]> (m_healths s)),
           [], out ++ [mkWallHit i 0])) /\
  (forall events out0 s' events' out',
     DrainAndApply s events out0 = Some (s', events', out') ->
     Forall (fun e => (0 <= health e)%Z) (m_healths s) ->
     Forall (fun e => (0 <= health e)%Z) (m_healths s')).
Proof.
  intros Hh. pose proof (lookup_lt_Some _ _ _ Hh) as Hi.
  split; [|split; [|split; [|split; [|split]]]].
  - unfold DrainAndApply, GetHealths. cbn [drain_loop].
    by rewrite (apply_event_boundary _ _ _ _ Hh).
  - intros Hpos. unfold health_after_hit, report_of_hit.
    by rewrite (proj2 (Z.ltb_lt 0 h) Hpos).
  - intros Hle. unfold health_after_hit, report_of_hit.
    by rewrite (proj2 (Z.ltb_ge 0 h) Hle).
  - apply health_after_hit_nonneg.
  - intros ->. split; [reflexivity|].
    unfold DrainAndApply, GetHealths. cbn [drain_loop].
    rewrite (apply_event_boundary _ _ _ _ Hh). cbn [mbind option_bind].
    rewrite (apply_event_boundary _ _ i 0%Z) by by apply list_lookup_insert_eq.
    cbn [mbind option_bind health_after_hit report_of_hit Z.ltb Z.compare Z.max Z.sub
         Z.add Z.opp Z.pos_sub Pos.compare Pos.compare_cont].
    by rewrite list_insert_insert_eq, app_nil_r.
  - intros events out0 s' events' out' Hrun Hpos.
    unfold DrainAndApply, GetHealths in Hrun.
    destruct (drain_loop (m_healths s) events out0) as [[[healths' q] o]|] eqn:Hd;
      [|discriminate].
    cbn [mbind option_bind] in Hrun. injection Hrun as <- _ _.
    cbn [with_healths m_healths]. by eapply drain_loop_nonneg.
Qed.

Lemma boundary_hit_floors_health_witness :
  DrainAndApply frail_scene [boundary_event 0] [] =
    Some (with_healths frail_scene
            (<[0 := mkHealth (health_after_hit 5)]> (m_healths frail_scene)),
          [], [] ++ report_of_hit 0 5) /\
  ((0 < 5)%Z -> health_after_hit 5 = Z.max 0 (5 - 10) /\
                report_of_hit 0 5 = [mkWallHit 0 (Z.max 0 (5 - 10))]) /\
  ((5 <= 0)%Z -> health_after_hit 5 = 5%Z /\ report_of_hit 0 5 = []) /\
  ((0 <= 5)%Z -> (0 <= health_after_hit 5)%Z) /\
  (5%Z = 5%Z ->
   health_after_hit 5 = 0%Z /\
   DrainAndApply frail_scene [boundary_event 0; boundary_event 0] [] =
     Some (with_healths frail_scene (<[0 := mkHealth 0]> (m_healths frail_scene)),
           [], [] ++ [mkWallHit 0 0])) /\
  (forall events out0 s' events' out',
     DrainAndApply frail_scene events out0 = Some (s', events', out') ->
     Forall (fun e => (0 <= health e)%Z) (m_healths frail_scene) ->
     Forall (fun e => (0 <= health e)%Z) (m_healths s')).
Proof. exact (boundary_hit_floors_health frail_scene [] 0 5 eq_refl). Defined.

Lemma frail_scene_two_hits :
  DrainAndApply frail_scene [boundary_event 0; boundary_event 0] [] =
  Some (with_healths frail_scene (<[0 := mkHealth 0]> (m_healths frail_scene)),
        [], [mkWallHit 0 0]).
Proof. vm_compute. reflexivity. Qed.

(** C3, as the specification words it, fails on [frail_scene]: two boundary
    hits on the entity with health 5 do not leave two reports. *)
Lemma second_hit_is_not_reported :
  ~ exists s' out',
      DrainAndApply frail_scene [boundary_event 0; boundary_event 0] [] =
        Some (s', [], out') /\
      m_healths s' !! 0 = Some (mkHealth 0) /\
      length out' = 2.
Proof.
  intros (s' & out' & Hrun & _ & Hlen).
  rewrite frail_scene_two_hits in Hrun.
  injection Hrun as _ <-. discriminate Hlen.
Qed.

(** ** The free-running threads *)

Lemma Threads_run_app l1 : forall l2 w,
  Threads.run (l1 ++ l2) w = (w' ← Threads.run l1 w; Threads.run l2 w').
Proof.
  induction l1 as [|th l1 IH]; intros l2 w; [reflexivity|].
  cbn [app Threads.run]. destruct (Threads.step th w) as [w1|]; [|reflexivity].
  cbn [mbind option_bind]. apply IH.
Qed.

(** The physics thread inside its loop, not interrupted for [k]
    iterations: the [k] iterations of the loop of [UpdateParallel]. *)
Lemma physics_thread_loop r d cf bk :
  (cf = 0%Z /\ bk = 1%Z) \/ (cf = 1%Z /\ bk = 0%Z) ->
  forall k i s events,
    i + k <= MAX_ENTITIES ->
    Threads.run (replicate k Threads.tPhysics)
      (Threads.mkWorld s events (Threads.PhysicsLoop cf bk i) r d) =
    (tf ← GetTransformsAt s cf;
     tb ← GetTransformsAt s bk;
     st ← for_range (physics_body Pipeline.UpdateParallel_entity tf (m_entity_active s))
            i k (tb, m_physics s, events);
     Some (Threads.mkWorld (with_physics (with_transforms_at s bk st.1.1) st.1.2)
             st.2 (Threads.PhysicsLoop cf bk (i + k)) r d)).
Proof.
  intros Hidx. induction k as [|k IH]; intros i s events Hle.
  - cbn [replicate Threads.run for_range]. rewrite Nat.add_0_r.
    destruct s as [f [t0 t1] ph re he ac].
    destruct Hidx as [[-> ->]|[-> ->]].
    all: reflexivity.
  - cbn [replicate Threads.run Threads.step for_range].
    unfold Threads.physics_step at 1. cbn [Threads.physics_at Threads.scene Threads.events
      Threads.render_at Threads.drawn].
    rewrite (proj2 (Nat.ltb_lt i MAX_ENTITIES)) by lia.
    unfold GetActiveEntities, GetPhysics.
    destruct (GetTransformsAt s cf) as [tf|] eqn:Hf; [|reflexivity].
    destruct (GetTransformsAt s bk) as [tb|] eqn:Hb; [|reflexivity].
    cbn [mbind option_bind].
    destruct (physics_body _ tf (m_entity_active s) i (tb, m_physics s, events))
      as [[[tb1 ph1] ev1]|]; [|reflexivity].
    cbn [mbind option_bind]. rewrite IH by lia.
    replace (S i + k) with (i + S k) by lia.
    destruct s as [f [t0 t1] ph re he ac].
    destruct Hidx as [[-> ->]|[-> ->]]; cbn in Hf, Hb |- *;
      injection Hf as <-; injection Hb as <-; reflexivity.
Qed.

(** The physics thread running alone through one whole call ends where
    [UpdateParallel] ends. *)
Lemma physics_thread_alone s events r d :
  scene_wf s ->
  Threads.run Threads.whole_physics_step
    (Threads.mkWorld s events Threads.PhysicsIdle r d) =
  (res ← Pipeline.UpdateParallel s events;
   Some (Threads.mkWorld res.1 res.2 Threads.PhysicsIdle r d)).
Proof.
  intros Hwf. unfold Threads.whole_physics_step.
  rewrite replicate_S, replicate_S_end. cbn [Threads.run Threads.step].
  unfold Threads.physics_step at 1. cbn [Threads.physics_at Threads.scene
    Threads.events Threads.render_at Threads.drawn mbind option_bind].
  rewrite Threads_run_app, physics_thread_loop;
    [|unfold LoadFrontIndex; destruct (wf_front s Hwf) as [-> | ->]; auto|lia].
  unfold Pipeline.UpdateParallel, GetActiveEntities, GetPhysics.
  destruct (GetTransformsAt s (LoadFrontIndex s)) as [tf|]; [|reflexivity].
  destruct (GetTransformsAt s (1 - LoadFrontIndex s)) as [tb|]; [|reflexivity].
  cbn [mbind option_bind].
  destruct (for_range _ 0 MAX_ENTITIES _) as [[[tb' ph'] ev']|]; [|reflexivity].
  cbn [mbind option_bind Threads.run Threads.step fst snd].
  unfold Threads.physics_step. cbn [Threads.physics_at Threads.scene
    Threads.events Threads.render_at Threads.drawn].
  by rewrite Nat.ltb_irrefl.
Qed.

(** The render thread inside its loop, not interrupted for [k]
    iterations. *)
Lemma render_thread_loop s events pc d cf :
  cf = 0%Z \/ cf = 1%Z ->
  forall k i packets,
  i + k <= MAX_ENTITIES ->
  Threads.run (replicate k Threads.tRender)
    (Threads.mkWorld s events pc (Threads.RenderLoop cf i packets) d) =
  (transforms ← GetTransformsAtConst s cf;
   packets' ← for_range (Collect_body " " transforms (m_renders s) (m_entity_active s))
                i k packets;
   Some (Threads.mkWorld s events pc (Threads.RenderLoop cf (i + k) packets') d)).
Proof.
  intros Hidx. induction k as [|k IH]; intros i packets Hle.
  - cbn [replicate Threads.run for_range]. rewrite Nat.add_0_r.
    by destruct Hidx as [-> | ->].
  - cbn [replicate Threads.run Threads.step for_range].
    unfold Threads.render_step at 1. cbn [Threads.physics_at Threads.scene Threads.events
      Threads.render_at Threads.drawn].
    rewrite (proj2 (Nat.ltb_lt i MAX_ENTITIES)) by lia.
    unfold GetActiveEntities, GetRenders.
    destruct (GetTransformsAtConst s cf) as [transforms|] eqn:Hf; [|reflexivity].
    cbn [mbind option_bind].
    destruct (Collect_body _ transforms (m_renders s) (m_entity_active s) i packets)
      as [packets1|]; [|reflexivity].
    cbn [mbind option_bind]. rewrite IH by lia. cbn [mbind option_bind].
    by replace (S i + k) with (i + S k) by lia.
Qed.

(** The render thread running alone through one whole pass draws what
    [CollectParallel] returns. *)
Lemma render_thread_alone s events pc d :
  scene_wf s ->
  Threads.run (replicate (S (S MAX_ENTITIES)) Threads.tRender)
    (Threads.mkWorld s events pc Threads.RenderIdle d) =
  (packets ← PipelineRender.CollectParallel s [];
   Some (Threads.mkWorld s events pc Threads.RenderIdle (d ++ [packets]))).
Proof.
  intros Hwf. rewrite replicate_S, replicate_S_end. cbn [Threads.run Threads.step].
  unfold Threads.render_step at 1. cbn [Threads.physics_at Threads.scene
    Threads.events Threads.render_at Threads.drawn mbind option_bind].
  rewrite Threads_run_app, render_thread_loop; [|apply Hwf|lia].
  unfold PipelineRender.CollectParallel, GetActiveEntities, GetRenders.
  destruct (GetTransformsAtConst s (LoadFrontIndex s)) as [transforms|]; [|reflexivity].
  cbn [mbind option_bind].
  destruct (for_range _ 0 MAX_ENTITIES _) as [packets|]; [|reflexivity].
  cbn [mbind option_bind Threads.run Threads.step].
  unfold Threads.render_step. cbn [Threads.physics_at Threads.scene
    Threads.events Threads.render_at Threads.drawn].
  by rewrite Nat.ltb_irrefl.
Qed.

(** C5. A run of the two threads of [main] over two entities that move one
    cell to the right per step.  The render pass starts after the first
    physics step, loads front index 1 and reads entity 0 from buffer 1;
    physics then completes its second step (front index back to 0) and
    starts its third, which writes buffer 1.  At that instant the render
    thread is about to read buffer 1, the physics thread is about to write
    buffer 1, and buffer 1 is the one designated next.  When the render
    pass resumes, the frame it draws shows entity A where the first step
    left it and entity B where the unfinished third step put it, which is
    the snapshot of no completed step. *)
Theorem render_pass_overtaken_by_physics :
  exists w w',
    Threads.run Threads.overtaken (Threads.start Threads.race_scene) = Some w /\
    m_frontBufferIndex (Threads.scene w) = 0%Z /\
    Threads.render_reads w = Some 1%Z /\
    Threads.physics_writes w = Some 1%Z /\
    ~ Threads.buffers_respected w /\
    Threads.run (replicate MAX_ENTITIES Threads.tRender) w = Some w' /\
    Threads.drawn w' = [[RenderPacket.mk "A" 11 5; RenderPacket.mk "B" 23 5]] /\
    (forall k, k <= 3 ->
       Threads.snapshot_after k Threads.race_scene <>
       Some [RenderPacket.mk "A" 11 5; RenderPacket.mk "B" 23 5]) /\
    Threads.snapshot_after 0 Threads.race_scene =
      Some [RenderPacket.mk "A" 10 5; RenderPacket.mk "B" 20 5] /\
    Threads.snapshot_after 1 Threads.race_scene =
      Some [RenderPacket.mk "A" 11 5; RenderPacket.mk "B" 21 5] /\
    Threads.snapshot_after 2 Threads.race_scene =
      Some [RenderPacket.mk "A" 12 5; RenderPacket.mk "B" 22 5] /\
    Threads.snapshot_after 3 Threads.race_scene =
      Some [RenderPacket.mk "A" 13 5; RenderPacket.mk "B" 23 5].
Proof.
  eexists _, _. split; [vm_compute; reflexivity|].
  split; [reflexivity|]. split; [reflexivity|]. split; [reflexivity|].
  split.
  { intros [Hread _]. specialize (Hread 1%Z eq_refl). discriminate Hread. }
  split; [vm_compute; reflexivity|].
  split; [reflexivity|].
  split.
  { intros k Hk. destruct k as [|[|[|[|k]]]]; [vm_compute; discriminate..|lia]. }
  repeat split; vm_compute; reflexivity.
Qed.

(** * Further properties of the code *)

(** ** Physics: the world boundary *)

Lemma edge_scene_entity :
  m_entity_active edge_scene !! 0 = Some true /\
  GetTransforms_Front edge_scene = Some (fst (m_transforms edge_scene)) /\
  fst (m_transforms edge_scene) !! 0 = Some (mkTransform 78 12) /\
  m_physics edge_scene !! 0 = Some (mkPhysics 5 0) /\
  has_velocity (mkPhysics 5 0) = true.
Proof. repeat split. Defined.


Lemma Handshake_Update_policy_witness :
  exists s' pushed written,
    Handshake.Update edge_scene [] = Some (s', [] ++ pushed) /\
    GetTransforms_Back s' = Some written /\
    let x1 := (78 + 5)%float in
    let y1 := (12 + 0)%float in
    written !! 0 = Some (mkTransform x1 y1) /\
    m_physics s' !! 0 =
      Some (mkPhysics (bounce (outside 0 79 x1) 5) (bounce (outside 0 24 y1) 0)) /\
    events_of 0 pushed = boundary_events 0 x1 y1.
Proof.
  exact (Handshake_Update_policy edge_scene [] 0 _ _ _ edge_scene_wf
           (proj1 edge_scene_entity)
           (proj1 (proj2 edge_scene_entity))
           (proj1 (proj2 (proj2 edge_scene_entity)))
           (proj1 (proj2 (proj2 (proj2 edge_scene_entity))))
           (proj2 (proj2 (proj2 (proj2 edge_scene_entity))))).
Defined.

Lemma clamp_inside_x v : outside 0 79 (clamp 0 79 v) = false.
Proof.
  unfold outside, clamp.
  destruct (v <? 0)%float eqn:Hlo; [reflexivity|].
  destruct (79 <? v)%float eqn:Hhi; [reflexivity|].
  by rewrite Hlo, Hhi.
Qed.

Lemma clamp_inside_y v : outside 0 24 (clamp 0 24 v) = false.
Proof.
  unfold outside, clamp.
  destruct (v <? 0)%float eqn:Hlo; [reflexivity|].
  destruct (24 <? v)%float eqn:Hhi; [reflexivity|].
  by rewrite Hlo, Hhi.
Qed.

Lemma world_ok_lookup s tfront :
  GetTransforms_Front s = Some tfront ->
  world_ok s = true <->
  (forall i t, i < MAX_ENTITIES -> m_entity_active s !! i = Some true ->
               tfront !! i = Some t -> in_world t = true).
Proof.
  intros Hf. unfold world_ok. rewrite Hf, List.forallb_forall. split.
  - intros Hall i t Hi Hact Ht. specialize (Hall i).
    rewrite Hact, Ht in Hall. apply Hall, in_seq. lia.
  - intros Hall i Hi. apply in_seq in Hi.
    destruct (m_entity_active s !! i) as [[|]|] eqn:Hact; try reflexivity.
    destruct (tfront !! i) as [t|] eqn:Ht; try reflexivity.
    apply (Hall i t); [lia|done..].
Qed.

Lemma UpdateParallel_world_step s events :
  scene_wf s -> world_ok s = true ->
  exists s' events',
    Pipeline.UpdateParallel s events = Some (s', events') /\
    scene_wf s' /\ world_ok s' = true.
Proof.
  intros Hwf Hok.
  destruct (UpdateParallel_spec s events Hwf) as (s' & pushed & Hrun & Hidx & Hres & Hwf').
  exists s', (events ++ pushed). split; [exact Hrun|]. split; [exact Hwf'|].
  destruct (front_and_back s Hwf) as (tfront & tback & Hf & Hb & Hlf & Hlb).
  pose proof (proj1 (world_ok_lookup s tfront Hf) Hok) as Hin.
  destruct (front_and_back s' Hwf') as (current & old & Hf' & _ & _ & _).
  apply (world_ok_lookup s' current Hf').
  intros i t' Hi Hact' Ht'.
  assert (m_entity_active s' = m_entity_active s) as Hsame.
  { by destruct Hres as (_ & _ & _ & _ & _ & _ & _ & _ & _ & _ & _ & ? & _). }
  rewrite Hsame in Hact'.
  destruct (lookup_lt_is_Some_2 tfront i ltac:(lia)) as [tf Htf].
  destruct (lookup_lt_is_Some_2 (m_physics s) i) as [p Hp];
    [rewrite (wf_physics s Hwf); lia|].
  destruct (pass_result_active _ s s' pushed i tfront tf p
              UpdateParallel_entity_own Hwf Hres Hact' Hf Htf Hp)
    as (back' & Hback & Hslot & _ & _).
  unfold GetTransforms_Front in Hf'. rewrite Hidx, Hback in Hf'.
  injection Hf' as <-. rewrite Hslot in Ht'. injection Ht' as <-.
  destruct (has_velocity p) eqn:Hv.
  - rewrite UpdateParallel_entity_moving by exact Hv. cbn [fst snd].
    unfold in_world. cbn [x y]. by rewrite clamp_inside_x, clamp_inside_y.
  - destruct (entity_at_rest i tf p [] Hv) as (-> & _). cbn [fst].
    by apply (Hin i tf).
Qed.

(** The parallel pipeline keeps the world invariant over any number of
    steps: if every active entity's current position is inside the 80 by 25
    world, then [k] calls of [UpdateParallel] in a row all return, and
    afterwards every active entity's current position is inside the world
    again (a moving entity is clamped at each step, a resting one copied). *)
Theorem UpdateParallel_keeps_world s events k :
  scene_wf s -> world_ok s = true ->
  exists s' events',
    Threads.physics_steps k s events = Some (s', events') /\
    scene_wf s' /\ world_ok s' = true.
Proof.
  revert s events. induction k as [|k IH]; intros s events Hwf Hok.
  - by exists s, events.
  - destruct (UpdateParallel_world_step s events Hwf Hok) as (s1 & ev1 & Hrun & Hwf1 & Hok1).
    destruct (IH s1 ev1 Hwf1 Hok1) as (s' & ev' & Hsteps & Hwf' & Hok').
    exists s', ev'. cbn [Threads.physics_steps]. rewrite Hrun.
    cbn [mbind option_bind]. done.
Qed.

Lemma UpdateParallel_keeps_world_witness :
  exists s' events',
    Threads.physics_steps 3 demo_scene [] = Some (s', events') /\
    scene_wf s' /\ world_ok s' = true.
Proof.
  apply (UpdateParallel_keeps_world demo_scene [] 3 demo_scene_wf).
  vm_compute. reflexivity.
Defined.

(** ** Physics: what a step leaves alone *)

Lemma Pipeline_Update_no_events s tfront j :
  entity_events Pipeline.Update_entity tfront (m_entity_active s) (m_physics s) j = [].
Proof.
  unfold entity_events, entity_outcome.
  destruct (m_entity_active s !! j) as [[|]|]; try reflexivity.
  destruct (tfront !! j) as [tf|]; try reflexivity.
  destruct (m_physics s !! j) as [p|]; try reflexivity.
  unfold Pipeline.Update_entity. by destruct (has_velocity p).
Qed.

Lemma flat_map_nil {A B} (f : A -> list B) (l : list A) :
  (forall i, f i = []) -> flat_map f l = [].
Proof. intros Hf. induction l as [|i l IH]; [reflexivity|]. cbn. by rewrite Hf, IH. Qed.

(** The legacy [Update] of the pipeline program has no boundary handling:
    it returns on every well-formed scene, pushes no event, leaves the
    velocity table as it was, flips the front index, and publishes for an
    active entity its position plus its velocity, unclamped (or the
    position itself when the velocity is zero). *)
Theorem Pipeline_Update_integrates_only s events i tfront tf p :
  scene_wf s ->
  m_entity_active s !! i = Some true ->
  GetTransforms_Front s = Some tfront -> tfront !! i = Some tf ->
  m_physics s !! i = Some p ->
  exists s' current,
    Pipeline.Update s events = Some (s', events) /\
    m_frontBufferIndex s' = (1 - m_frontBufferIndex s)%Z /\
    m_physics s' = m_physics s /\
    GetTransforms_Front s' = Some current /\
    current !! i =
      Some (if has_velocity p
            then mkTransform (x tf + vx p)%float (y tf + vy p)%float else tf).
Proof.
  intros Hwf Hact Hfront Htf Hp.
  destruct (Pipeline_Update_spec s events Hwf) as (s' & pushed & Hrun & Hidx & Hres & Hwf').
  destruct (pass_result_active _ s s' pushed i tfront tf p
              Pipeline_Update_entity_own Hwf Hres Hact Hfront Htf Hp)
    as (back' & Hback & Hslot & _ & _).
  destruct Hres as (tf0 & tback & back0 & Hf & Hb & Hf' & Hb' & Hlb & Hlp & _ & _ & _
                    & Hpushed & Hslots).
  assert (pushed = []) as ->.
  { rewrite Hpushed. apply flat_map_nil. intros j. apply Pipeline_Update_no_events. }
  rewrite app_nil_r in Hrun.
  exists s', back'. split; [exact Hrun|]. split; [exact Hidx|]. split.
  - apply list_eq. intros j. destruct (Hslots j) as [_ Hpj]. rewrite Hpj.
    unfold slot_after. case_decide; [|reflexivity].
    unfold entity_outcome.
    destruct (m_entity_active s !! j) as [[|]|]; try reflexivity.
    destruct (tf0 !! j) as [tfj|]; try reflexivity.
    destruct (m_physics s !! j) as [pj|]; try reflexivity.
    unfold Pipeline.Update_entity. by destruct (has_velocity pj).
  - split; [unfold GetTransforms_Front; by rewrite Hidx|].
    rewrite Hslot. unfold Pipeline.Update_entity. by destruct (has_velocity p).
Qed.

Lemma Pipeline_Update_integrates_only_witness :
  exists s' current,
    Pipeline.Update edge_scene [] = Some (s', []) /\
    m_frontBufferIndex s' = (1 - m_frontBufferIndex edge_scene)%Z /\
    m_physics s' = m_physics edge_scene /\
    GetTransforms_Front s' = Some current /\
    current !! 0 =
      Some (if has_velocity (mkPhysics 5 0)
            then mkTransform (78 + 5)%float (12 + 0)%float else mkTransform 78 12).
Proof.
  exact (Pipeline_Update_integrates_only edge_scene [] 0 _ _ _ edge_scene_wf
           (proj1 edge_scene_entity)
           (proj1 (proj2 edge_scene_entity))
           (proj1 (proj2 (proj2 edge_scene_entity)))
           (proj1 (proj2 (proj2 (proj2 edge_scene_entity))))).
Defined.

(** An inactive entity is skipped by both physics loops: its slot of the
    buffer the step writes keeps whatever that buffer held before the step
    (not the current position), its velocity is untouched and it gets no
    event. *)
Theorem physics_skips_inactive s events i :
  scene_wf s ->
  m_entity_active s !! i = Some false ->
  exists tback,
    GetTransforms_Back s = Some tback /\
    (exists s' pushed current,
       Pipeline.UpdateParallel s events = Some (s', events ++ pushed) /\
       GetTransforms_Front s' = Some current /\
       current !! i = tback !! i /\
       m_physics s' !! i = m_physics s !! i /\
       events_of i pushed = []) /\
    (exists s' pushed written,
       Handshake.Update s events = Some (s', events ++ pushed) /\
       GetTransforms_Back s' = Some written /\
       written !! i = tback !! i /\
       m_physics s' !! i = m_physics s !! i /\
       events_of i pushed = []).
Proof.
  intros Hwf Hact.
  destruct (front_and_back s Hwf) as (tfront & tback & Hf & Hb & _ & _).
  exists tback. split; [exact Hb|]. split.
  - destruct (UpdateParallel_spec s events Hwf) as (s' & pushed & Hrun & Hidx & Hres & _).
    destruct (pass_result_inactive _ s s' pushed i UpdateParallel_entity_own Hwf Hres Hact)
      as (tback0 & back' & Hb0 & Hback & Hslot & Hvel & Hev).
    assert (tback0 = tback) as -> by congruence.
    exists s', pushed, back'. split; [exact Hrun|].
    split; [unfold GetTransforms_Front; by rewrite Hidx|]. done.
  - destruct (Handshake_Update_spec s events Hwf) as (s' & pushed & Hrun & Hidx & Hres & _).
    destruct (pass_result_inactive _ s s' pushed i Handshake_Update_entity_own Hwf Hres Hact)
      as (tback0 & back' & Hb0 & Hback & Hslot & Hvel & Hev).
    assert (tback0 = tback) as -> by congruence.
    exists s', pushed, back'. split; [exact Hrun|].
    split; [unfold GetTransforms_Back; by rewrite Hidx|]. done.
Qed.

Lemma physics_skips_inactive_witness :
  exists tback,
    GetTransforms_Back edge_scene = Some tback /\
    (exists s' pushed current,
       Pipeline.UpdateParallel edge_scene [] = Some (s', [] ++ pushed) /\
       GetTransforms_Front s' = Some current /\
       current !! 7 = tback !! 7 /\
       m_physics s' !! 7 = m_physics edge_scene !! 7 /\
       events_of 7 pushed = []) /\
    (exists s' pushed written,
       Handshake.Update edge_scene [] = Some (s', [] ++ pushed) /\
       GetTransforms_Back s' = Some written /\
       written !! 7 = tback !! 7 /\
       m_physics s' !! 7 = m_physics edge_scene !! 7 /\
       events_of 7 pushed = []).
Proof. exact (physics_skips_inactive edge_scene [] 7 edge_scene_wf eq_refl). Defined.

(** A step of either program touches neither the glyph, health and active
    tables nor the buffer that was current: that buffer, unchanged, is the
    back buffer after the step, and the events queued before are still
    queued, in front of the new ones. *)
Theorem physics_step_frame s events :
  scene_wf s ->
  (exists s' pushed,
     Pipeline.UpdateParallel s events = Some (s', events ++ pushed) /\
     scene_wf s' /\
     GetTransforms_Back s' = GetTransforms_Front s /\
     m_renders s' = m_renders s /\ m_healths s' = m_healths s /\
     m_entity_active s' = m_entity_active s) /\
  (exists s' pushed,
     Handshake.CPhysicsThread_Run_iteration s events = Some (s', events ++ pushed) /\
     scene_wf s' /\
     GetTransforms_Back s' = GetTransforms_Front s /\
     m_renders s' = m_renders s /\ m_healths s' = m_healths s /\
     m_entity_active s' = m_entity_active s).
Proof.
  intros Hwf. split.
  - destruct (UpdateParallel_spec s events Hwf) as (s' & pushed & Hrun & Hidx & Hres & Hwf').
    exists s', pushed. split; [exact Hrun|]. split; [exact Hwf'|].
    destruct Hres as (tf0 & tback & back0 & Hf & Hb & Hf' & Hb' & Hlb & Hlp & Hr & Hh & Ha & _).
    unfold GetTransforms_Back. rewrite Hidx.
    replace (1 - (1 - m_frontBufferIndex s))%Z with (m_frontBufferIndex s) by lia.
    by rewrite Hf', Hf.
  - destruct (Handshake_Run_spec s events Hwf) as (s' & pushed & Hrun & Hidx & Hres & Hwf').
    exists s', pushed. split; [exact Hrun|]. split; [exact Hwf'|].
    destruct Hres as (tf0 & tback & back0 & Hf & Hb & Hf' & Hb' & Hlb & Hlp & Hr & Hh & Ha & _).
    unfold GetTransforms_Back. rewrite Hidx.
    replace (1 - (1 - m_frontBufferIndex s))%Z with (m_frontBufferIndex s) by lia.
    by rewrite Hf', Hf.
Qed.

Lemma physics_step_frame_witness :
  (exists s' pushed,
     Pipeline.UpdateParallel demo_scene [] = Some (s', [] ++ pushed) /\
     scene_wf s' /\
     GetTransforms_Back s' = GetTransforms_Front demo_scene /\
     m_renders s' = m_renders demo_scene /\ m_healths s' = m_healths demo_scene /\
     m_entity_active s' = m_entity_active demo_scene) /\
  (exists s' pushed,
     Handshake.CPhysicsThread_Run_iteration demo_scene [] = Some (s', [] ++ pushed) /\
     scene_wf s' /\
     GetTransforms_Back s' = GetTransforms_Front demo_scene /\
     m_renders s' = m_renders demo_scene /\ m_healths s' = m_healths demo_scene /\
     m_entity_active s' = m_entity_active demo_scene).
Proof. exact (physics_step_frame demo_scene [] demo_scene_wf). Defined.

Lemma front_index_flips_once_witness :
  (exists s' events',
     Pipeline.UpdateParallel demo_scene [] = Some (s', events') /\
     m_frontBufferIndex s' = (1 - m_frontBufferIndex demo_scene)%Z /\ scene_wf s') /\
  (exists s' events',
     Pipeline.Update demo_scene [] = Some (s', events') /\
     m_frontBufferIndex s' = (1 - m_frontBufferIndex demo_scene)%Z /\ scene_wf s') /\
  (exists s' events',
     Handshake.CPhysicsThread_Run_iteration demo_scene [] = Some (s', events') /\
     m_frontBufferIndex s' = (1 - m_frontBufferIndex demo_scene)%Z /\ scene_wf s').
Proof. exact (front_index_flips_once demo_scene [] demo_scene_wf). Defined.

(** ** The renderer's grid *)

Lemma c_str_terminated l r :
  Forall (fun c => c <> "000"%char) l ->
  Renderer.c_str (l ++ "000"%char :: r) = l.
Proof.
  induction 1 as [|c l Hc _ IH]; [reflexivity|].
  cbn [app Renderer.c_str]. rewrite (proj2 (Ascii.eqb_neq _ _) Hc). by rewrite IH.
Qed.

Lemma c_str_prefix row : exists rest, row = Renderer.c_str row ++ rest.
Proof.
  induction row as [|c row [rest IH]]; [by exists []|].
  cbn [Renderer.c_str]. destruct (Ascii.eqb c "000").
  - by eexists.
  - exists rest. cbn [app]. by rewrite <- IH.
Qed.

Lemma c_str_no_null row : Forall (fun c => c <> "000"%char) (Renderer.c_str row).
Proof.
  induction row as [|c row IH]; [constructor|].
  cbn [Renderer.c_str]. destruct (Ascii.eqb c "000") eqn:Hc; [constructor|].
  constructor; [by apply Ascii.eqb_neq|exact IH].
Qed.

Lemma c_str_stops row i :
  row !! i = Some "000"%char -> length (Renderer.c_str row) <= i.
Proof.
  revert i. induction row as [|c row IH]; intros i Hi; [cbn; lia|].
  cbn [Renderer.c_str]. destruct (Ascii.eqb c "000") eqn:Hc; [cbn; lia|].
  destruct i as [|i]; cbn in Hi.
  - injection Hi as ->. discriminate Hc.
  - cbn [length]. specialize (IH i Hi). lia.
Qed.

(** The grid after plotting: 25 rows, each the glyphs of its 80 cells
    followed by the terminator. *)
Lemma plotted_rows packets : forall cy,
  cy < 25 ->
  foldl Renderer.plot Renderer.blank_screen packets !! cy =
  Some (row_glyphs packets cy ++ ["000"%char]).
Proof.
  induction packets as [|p packets IH] using rev_ind; intros cy Hcy.
  - unfold Renderer.blank_screen. cbn [foldl].
    rewrite lookup_replicate_2 by lia. reflexivity.
  - rewrite foldl_app. cbn [foldl]. unfold Renderer.plot at 1.
    assert (forall cx, cell_glyph (packets ++ [p]) cx cy =
              if at_cell cx cy p then RenderPacket.symbol p
              else cell_glyph packets cx cy) as Hcell.
    { intros cx. unfold cell_glyph. rewrite filter_app.
      destruct (at_cell cx cy p) eqn:Hat.
      - rewrite filter_cons_True by (rewrite Hat; exact I).
        cbn [filter list_filter]. by rewrite last_snoc.
      - rewrite filter_cons_False by (rewrite Hat; exact id).
        cbn [filter list_filter]. by rewrite app_nil_r. }
    destruct (Renderer.on_screen p) eqn:Hon.
    + unfold Renderer.on_screen in Hon.
      apply andb_prop in Hon as [Hon Hx1]. apply andb_prop in Hon as [Hon Hx0].
      apply andb_prop in Hon as [Hy0 Hy1].
      apply Z.leb_le in Hy0, Hx0. apply Z.ltb_lt in Hy1, Hx1.
      destruct (decide (cy = Z.to_nat (RenderPacket.y p))) as [->|Hne].
      * rewrite list_lookup_alter_eq, IH by lia. cbn [fmap option_fmap option_map].
        f_equal. rewrite insert_app_l by (unfold row_glyphs; rewrite length_map, length_seq; lia).
        f_equal. unfold row_glyphs. apply list_eq. intros cx.
        destruct (decide (cx = Z.to_nat (RenderPacket.x p))) as [->|Hnx].
        -- rewrite list_lookup_insert_eq by (rewrite length_map, length_seq; lia).
           rewrite list_lookup_fmap, lookup_seq_lt by lia. cbn. rewrite Hcell.
           unfold at_cell, Renderer.on_screen.
           rewrite (proj2 (Z.leb_le _ _) Hy0), (proj2 (Z.ltb_lt _ _) Hy1),
             (proj2 (Z.leb_le _ _) Hx0), (proj2 (Z.ltb_lt _ _) Hx1), !Nat.eqb_refl.
           reflexivity.
        -- rewrite list_lookup_insert_ne by done.
           rewrite !list_lookup_fmap. destruct (seq 0 80 !! cx) as [cx'|] eqn:Hcx; [|done].
           apply lookup_seq in Hcx as [-> _]. cbn. rewrite Hcell.
           unfold at_cell. rewrite (proj2 (Nat.eqb_neq _ _)) by done.
           by rewrite andb_false_r.
      * rewrite list_lookup_alter_ne, IH by done. f_equal. f_equal.
        unfold row_glyphs. apply map_ext. intros cx. rewrite Hcell.
        unfold at_cell. rewrite (proj2 (Nat.eqb_neq _ cy)) by done.
        by rewrite andb_false_r.
    + rewrite IH by lia. f_equal. f_equal. unfold row_glyphs.
      apply map_ext. intros cx. rewrite Hcell. unfold at_cell. by rewrite Hon.
Qed.

Lemma plotted_length packets :
  length (foldl Renderer.plot Renderer.blank_screen packets) = 25.
Proof.
  induction packets as [|p packets IH] using rev_ind; [reflexivity|].
  rewrite foldl_app. cbn [foldl]. unfold Renderer.plot.
  destruct (Renderer.on_screen p); [by rewrite length_alter|done].
Qed.

Lemma hp_body_spec s i line :
  i < MAX_ENTITIES -> scene_wf s ->
  Renderer.hp_body (m_entity_active s) (m_healths s) i line =
  Some (line ++ match m_entity_active s !! i, m_healths s !! i with
                | Some true, Some h => [(i, health h)]
                | _, _ => []
                end).
Proof.
  intros Hi Hwf. unfold Renderer.hp_body.
  destruct (lookup_lt_is_Some_2 (m_entity_active s) i) as [act ->];
    [rewrite (wf_active s Hwf); lia|].
  destruct (lookup_lt_is_Some_2 (m_healths s) i) as [h ->];
    [rewrite (wf_healths s Hwf); lia|].
  cbn [mbind option_bind]. destruct act; [reflexivity|]. by rewrite app_nil_r.
Qed.

Lemma status_loop s : forall count first line,
  first + count <= MAX_ENTITIES -> scene_wf s ->
  for_range (Renderer.hp_body (m_entity_active s) (m_healths s)) first count line =
  Some (line ++ omap (fun i =>
                        match m_entity_active s !! i, m_healths s !! i with
                        | Some true, Some h => Some (i, health h)
                        | _, _ => None
                        end) (seq first count)).
Proof.
  induction count as [|k IH]; intros first line Hle Hwf.
  - cbn. by rewrite app_nil_r.
  - cbn [for_range seq omap list_omap]. rewrite hp_body_spec by (done || lia).
    cbn [mbind option_bind]. rewrite IH by (done || lia).
    rewrite <- app_assoc. f_equal. f_equal.
    destruct (m_entity_active s !! first) as [[|]|]; try reflexivity.
    by destruct (m_healths s !! first).
Qed.

Lemma Draw_unfold packets s :
  scene_wf s ->
  Renderer.Draw packets s =
  Some (Renderer.mkFrame
          (map Renderer.c_str (foldl Renderer.plot Renderer.blank_screen packets))
          (status_of s)).
Proof.
  intros Hwf. unfold Renderer.Draw, GetActiveEntities, GetHealths.
  rewrite status_loop by (done || (unfold MAX_ENTITIES; lia)). reflexivity.
Qed.

Lemma Draw_row packets s cy :
  scene_wf s -> cy < 25 ->
  exists f, Renderer.Draw packets s = Some f /\
            Renderer.rows f !! cy =
              Some (Renderer.c_str (row_glyphs packets cy ++ ["000"%char])).
Proof.
  intros Hwf Hcy. rewrite Draw_unfold by done. eexists. split; [reflexivity|].
  cbn [Renderer.rows]. by rewrite list_lookup_fmap, plotted_rows.
Qed.

(** [Draw] returns for every packet list on a well-formed scene.  The frame
    has 25 rows.  A cell shows the glyph of the last packet that falls on it
    (a blank if none does), so later packets overwrite earlier ones; a row
    is printed up to its first null glyph, and in full, 80 characters wide,
    when none of its cells holds a null glyph. *)
Theorem Draw_last_packet_wins packets s :
  scene_wf s ->
  exists f,
    Renderer.Draw packets s = Some f /\
    length (Renderer.rows f) = 25 /\
    forall cy, cy < 25 ->
      Renderer.rows f !! cy =
        Some (Renderer.c_str (row_glyphs packets cy ++ ["000"%char])) /\
      (Forall (fun c => c <> "000"%char) (row_glyphs packets cy) ->
       Renderer.rows f !! cy = Some (row_glyphs packets cy) /\
       length (row_glyphs packets cy) = 80).
Proof.
  intros Hwf. rewrite Draw_unfold by done. eexists. split; [reflexivity|].
  cbn [Renderer.rows]. split; [by rewrite length_map, plotted_length|].
  intros cy Hcy. rewrite list_lookup_fmap, plotted_rows by done.
  split; [reflexivity|]. intros Hnn. cbn [fmap option_fmap option_map].
  rewrite c_str_terminated by done.
  split; [reflexivity|]. unfold row_glyphs. by rewrite length_map, length_seq.
Qed.

Lemma Draw_last_packet_wins_witness :
  exists f,
    Renderer.Draw [RenderPacket.mk "@" 40 12; RenderPacket.mk "M" 40 12] demo_scene
      = Some f /\
    length (Renderer.rows f) = 25 /\
    forall cy, cy < 25 ->
      Renderer.rows f !! cy =
        Some (Renderer.c_str
                (row_glyphs [RenderPacket.mk "@" 40 12; RenderPacket.mk "M" 40 12] cy
                 ++ ["000"%char])) /\
      (Forall (fun c => c <> "000"%char)
         (row_glyphs [RenderPacket.mk "@" 40 12; RenderPacket.mk "M" 40 12] cy) ->
       Renderer.rows f !! cy =
         Some (row_glyphs [RenderPacket.mk "@" 40 12; RenderPacket.mk "M" 40 12] cy) /\
       length (row_glyphs [RenderPacket.mk "@" 40 12; RenderPacket.mk "M" 40 12] cy) = 80).
Proof.
  exact (Draw_last_packet_wins [RenderPacket.mk "@" 40 12; RenderPacket.mk "M" 40 12]
           demo_scene demo_scene_wf).
Defined.

Lemma plot_offscreen packets : forall screen,
  foldl Renderer.plot screen (filter (fun p => Renderer.on_screen p) packets) =
  foldl Renderer.plot screen packets.
Proof.
  induction packets as [|p packets IH]; intros screen; [reflexivity|].
  destruct (Renderer.on_screen p) eqn:Hon.
  - rewrite filter_cons_True by (rewrite Hon; exact I). cbn [foldl]. apply IH.
  - rewrite filter_cons_False by (rewrite Hon; exact id). cbn [foldl].
    replace (Renderer.plot screen p) with screen
      by (unfold Renderer.plot; by rewrite Hon).
    apply IH.
Qed.

(** Packets that fall outside the 80 by 25 grid (a negative coordinate,
    x of 80 or more, y of 25 or more) have no effect on the frame: dropping
    them from the list gives the same result. *)
Theorem Draw_ignores_offscreen packets s :
  Renderer.Draw (filter (fun p => Renderer.on_screen p) packets) s =
  Renderer.Draw packets s.
Proof. unfold Renderer.Draw. by rewrite plot_offscreen. Qed.

(** No printed row is wider than 80 characters, and a null glyph plotted in
    column [cx] of row [cy] (and not overwritten later) cuts that row to at
    most [cx] characters: what lies to its right is not printed. *)
Theorem Draw_null_glyph_cuts_row packets s cx cy :
  scene_wf s -> cx < 80 -> cy < 25 ->
  exists f row,
    Renderer.Draw packets s = Some f /\
    Renderer.rows f !! cy = Some row /\
    length row <= 80 /\
    Forall (fun c => c <> "000"%char) row /\
    (cell_glyph packets cx cy = "000"%char -> length row <= cx).
Proof.
  intros Hwf Hcx Hcy. destruct (Draw_row packets s cy Hwf Hcy) as (f & Hdraw & Hrow).
  exists f, (Renderer.c_str (row_glyphs packets cy ++ ["000"%char])).
  split; [exact Hdraw|]. split; [exact Hrow|].
  assert (length (row_glyphs packets cy) = 80) as Hlen.
  { unfold row_glyphs. by rewrite length_map, length_seq. }
  split; [|split].
  - apply c_str_stops. rewrite lookup_app_r by lia. by rewrite Hlen.
  - apply c_str_no_null.
  - intros Hnull. apply c_str_stops. rewrite lookup_app_l by lia.
    unfold row_glyphs. rewrite list_lookup_fmap, lookup_seq_lt by lia.
    cbn. by rewrite Hnull.
Qed.

Lemma Draw_null_glyph_cuts_row_witness :
  exists f row,
    Renderer.Draw [RenderPacket.mk "A" 5 3; RenderPacket.mk "000" 2 3] demo_scene
      = Some f /\
    Renderer.rows f !! 3 = Some row /\
    length row <= 80 /\
    Forall (fun c => c <> "000"%char) row /\
    (cell_glyph [RenderPacket.mk "A" 5 3; RenderPacket.mk "000" 2 3] 2 3 = "000"%char ->
     length row <= 2).
Proof.
  apply (Draw_null_glyph_cuts_row [RenderPacket.mk "A" 5 3; RenderPacket.mk "000" 2 3]
           demo_scene 2 3 demo_scene_wf); lia.
Defined.

(** The status line under the grid lists exactly the active entities among
    ids 0 to 9, in increasing order, each with its current health, whatever
    the packets are. *)
Theorem Draw_status_line packets s :
  scene_wf s ->
  exists f, Renderer.Draw packets s = Some f /\ Renderer.status f = status_of s.
Proof. intros Hwf. rewrite Draw_unfold by done. by eexists. Qed.

Lemma Draw_status_line_witness :
  exists f, Renderer.Draw [] demo_scene = Some f /\
            Renderer.status f = status_of demo_scene.
Proof. exact (Draw_status_line [] demo_scene demo_scene_wf). Defined.

(** ** The render snapshot, continued *)

Lemma expected_packets_shape hidden s pkts :
  expected_packets hidden s = Some pkts ->
  Forall (fun p => RenderPacket.symbol p <> hidden) pkts /\
  length pkts =
    length (filter (fun i => visible hidden (m_entity_active s) (m_renders s) i)
              (seq 0 MAX_ENTITIES)).
Proof.
  unfold expected_packets. destruct (GetTransforms_Front s) as [tf|]; [|discriminate].
  cbn [mbind option_bind]. intros Hm. apply mapM_Some_1 in Hm. split.
  - assert (Forall (fun i => visible hidden (m_entity_active s) (m_renders s) i = true)
              (filter (fun i => visible hidden (m_entity_active s) (m_renders s) i)
                 (seq 0 MAX_ENTITIES))) as Hvis.
    { apply Forall_forall. intros i Hi. apply list_elem_of_filter in Hi as [Hi _].
      by apply Is_true_true. }
    induction Hm as [|i p ids pkts' Hp _ IH]; [constructor|].
    apply Forall_cons in Hvis as [Hi Hvis]. constructor; [|by apply IH].
    unfold packet_of in Hp. unfold visible in Hi.
    destruct (m_entity_active s !! i) as [[|]|]; try discriminate.
    destruct (m_renders s !! i) as [r|]; [|discriminate].
    cbn [mbind option_bind] in Hp.
    destruct (tf !! i) as [t|]; [|discriminate]. cbn [mbind option_bind] in Hp.
    destruct (double_to_int (x t)) as [px|]; [|discriminate].
    cbn [mbind option_bind] in Hp.
    destruct (double_to_int (y t)) as [py|]; [|discriminate].
    cbn [mbind option_bind] in Hp. injection Hp as <-. cbn [RenderPacket.symbol].
    apply Ascii.eqb_neq. by apply negb_true_iff.
  - symmetry. by eapply Forall2_length.
Qed.

(** [CollectParallel] and the first [Collect] of the pipeline program agree
    and ignore what the packet vector held before.  The snapshot is the
    packets of the active entities whose glyph is not a space, in increasing
    id order, read from the current buffer with truncated coordinates; it
    has one packet per such entity and no packet with a space glyph. *)
Theorem CollectParallel_snapshot s packets :
  scene_wf s ->
  PipelineRender.CollectParallel s packets = expected_packets " " s /\
  PipelineRender.Collect s packets = expected_packets " " s /\
  forall pkts,
    PipelineRender.CollectParallel s packets = Some pkts ->
    Forall (fun p => RenderPacket.symbol p <> " "%char) pkts /\
    length pkts =
      length (filter (fun i => visible " " (m_entity_active s) (m_renders s) i)
                (seq 0 MAX_ENTITIES)).
Proof.
  intros Hwf. destruct (CollectParallel_spec s packets Hwf) as [Hp Hc].
  split; [exact Hp|]. split; [exact Hc|]. intros pkts Hrun. rewrite Hp in Hrun.
  by apply expected_packets_shape.
Qed.

Lemma CollectParallel_snapshot_witness :
  PipelineRender.CollectParallel demo_scene [RenderPacket.mk "x" 1 1]
    = expected_packets " " demo_scene /\
  PipelineRender.Collect demo_scene [RenderPacket.mk "x" 1 1]
    = expected_packets " " demo_scene /\
  forall pkts,
    PipelineRender.CollectParallel demo_scene [RenderPacket.mk "x" 1 1] = Some pkts ->
    Forall (fun p => RenderPacket.symbol p <> " "%char) pkts /\
    length pkts =
      length (filter (fun i => visible " " (m_entity_active demo_scene)
                                 (m_renders demo_scene) i)
                (seq 0 MAX_ENTITIES)).
Proof.
  exact (CollectParallel_snapshot demo_scene [RenderPacket.mk "x" 1 1] demo_scene_wf).
Defined.

(** [Collect] of the handshake program: the same snapshot with the null
    character as the hidden glyph. *)
Theorem Handshake_Collect_snapshot s packets :
  scene_wf s ->
  HandshakeRender.Collect s packets = expected_packets "000" s /\
  forall pkts,
    HandshakeRender.Collect s packets = Some pkts ->
    Forall (fun p => RenderPacket.symbol p <> "000"%char) pkts /\
    length pkts =
      length (filter (fun i => visible "000" (m_entity_active s) (m_renders s) i)
                (seq 0 MAX_ENTITIES)).
Proof.
  intros Hwf. pose proof (Handshake_Collect_spec s packets Hwf) as Hp.
  split; [exact Hp|]. intros pkts Hrun. rewrite Hp in Hrun.
  by apply expected_packets_shape.
Qed.

Lemma Handshake_Collect_snapshot_witness :
  HandshakeRender.Collect demo_scene [] = expected_packets "000" demo_scene /\
  forall pkts,
    HandshakeRender.Collect demo_scene [] = Some pkts ->
    Forall (fun p => RenderPacket.symbol p <> "000"%char) pkts /\
    length pkts =
      length (filter (fun i => visible "000" (m_entity_active demo_scene)
                                 (m_renders demo_scene) i)
                (seq 0 MAX_ENTITIES)).
Proof. exact (Handshake_Collect_snapshot demo_scene [] demo_scene_wf). Defined.

Lemma cell_glyph_from packets cx cy :
  cell_glyph packets cx cy = " "%char \/
  exists p, p ∈ packets /\ cell_glyph packets cx cy = RenderPacket.symbol p.
Proof.
  unfold cell_glyph.
  destruct (last (filter (fun p => at_cell cx cy p) packets)) as [p|] eqn:Hlast;
    [|by left].
  right. exists p. split; [|reflexivity].
  apply last_Some in Hlast as [l' Hl'].
  assert (p ∈ filter (fun p => at_cell cx cy p) packets) as Hin.
  { rewrite Hl'. apply elem_of_app. right. by apply list_elem_of_singleton. }
  by apply list_elem_of_filter in Hin as [_ Hin].
Qed.

(** [Draw] of what [Collect] of the handshake program returned. *)
Lemma Handshake_collected_frame s packets pkts :
  scene_wf s ->
  HandshakeRender.Collect s packets = Some pkts ->
  exists f,
    Renderer.Draw pkts s = Some f /\
    length (Renderer.rows f) = 25 /\
    Forall (fun row => length row = 80) (Renderer.rows f).
Proof.
  intros Hwf Hcollect.
  rewrite (Handshake_Collect_spec s packets Hwf) in Hcollect.
  apply expected_packets_shape in Hcollect as [Hglyphs _].
  rewrite Draw_unfold by done. eexists. split; [reflexivity|].
  cbn [Renderer.rows]. split; [by rewrite length_map, plotted_length|].
  apply Forall_lookup. intros cy row Hrow.
  assert (cy < 25) as Hcy.
  { apply lookup_lt_Some in Hrow. by rewrite length_map, plotted_length in Hrow. }
  rewrite list_lookup_fmap, plotted_rows in Hrow by done.
  cbn [fmap option_fmap option_map] in Hrow.
  assert (Renderer.c_str (row_glyphs pkts cy ++ ["000"%char]) = row) as <-
    by congruence.
  rewrite c_str_terminated; [unfold row_glyphs; by rewrite length_map, length_seq|].
  unfold row_glyphs. apply Forall_fmap, Forall_forall. intros cx _. cbn.
  destruct (cell_glyph_from pkts cx cy) as [-> | (p & Hp & ->)]; [discriminate|].
  by apply (proj1 (Forall_forall _ _) Hglyphs).
Qed.

(** ** Creating several entities *)

Lemma filter_seq_none (P : nat -> Prop) `{forall i, Decision (P i)} : forall count first,
  (forall j, first <= j < first + count -> ~ P j) ->
  filter P (seq first count) = [].
Proof.
  induction count as [|k IH]; intros first Hno; [reflexivity|].
  cbn [seq]. rewrite filter_cons_False by (apply Hno; lia).
  apply IH. intros j Hj. apply Hno. lia.
Qed.

Lemma filter_seq_ext (P Q : nat -> Prop) `{forall i, Decision (P i)}
    `{forall i, Decision (Q i)} : forall count first,
  (forall j, first <= j < first + count -> P j <-> Q j) ->
  filter P (seq first count) = filter Q (seq first count).
Proof.
  induction count as [|k IH]; intros first Hpq; [reflexivity|].
  cbn [seq]. destruct (decide (P first)) as [Hp|Hp].
  - rewrite !filter_cons_True by (done || by apply Hpq; [lia|]).
    f_equal. apply IH. intros j Hj. apply Hpq. lia.
  - rewrite !filter_cons_False; [|intros Hq; apply Hp, Hpq; [lia|done]|done].
    apply IH. intros j Hj. apply Hpq. lia.
Qed.

Lemma seq_split r : r < MAX_ENTITIES ->
  seq 0 MAX_ENTITIES = seq 0 r ++ r :: seq (S r) (MAX_ENTITIES - S r).
Proof.
  intros Hr. change (r :: seq (S r) (MAX_ENTITIES - S r))
    with (seq (0 + r) (S (MAX_ENTITIES - S r))).
  rewrite <- seq_app. f_equal. lia.
Qed.

(** One call, in terms of the free list: the head of the list is returned
    and leaves the list, or the list is empty and nothing changes. *)
Lemma CreateEntity_free s :
  scene_wf s ->
  exists s' r,
    CreateEntity s = Some (s', r) /\ scene_wf s' /\
    m_transforms s' = m_transforms s /\ m_physics s' = m_physics s /\
    m_renders s' = m_renders s /\ m_healths s' = m_healths s /\
    m_frontBufferIndex s' = m_frontBufferIndex s /\
    match free_slots (m_entity_active s) with
    | [] => r = MAX_ENTITIES /\ s' = s
    | i :: rest =>
        r = i /\ free_slots (m_entity_active s') = rest /\
        m_entity_active s' = <[i := true]> (m_entity_active s)
    end.
Proof.
  intros Hwf. unfold CreateEntity.
  destruct (CreateEntity_scan_spec (m_entity_active s) MAX_ENTITIES 0)
    as [r [(Hs & Hr & Hfree & Hbelow)|(Hs & Hr & Hall)]].
  - rewrite (wf_active s Hwf). lia.
  - rewrite Hs. cbn [mbind option_bind]. eexists _, r. split; [reflexivity|].
    split; [|repeat (split; [reflexivity|])].
    { destruct Hwf. split; try done. cbn. by rewrite length_insert. }
    unfold free_slots.
    rewrite (seq_split r) by lia. rewrite !filter_app.
    rewrite (filter_seq_none _ r 0) by (intros j Hj; rewrite Hbelow by lia; discriminate).
    rewrite filter_cons_True by exact Hfree. cbn [app].
    split; [reflexivity|]. split; [|reflexivity].
    cbn [with_active m_entity_active].
    rewrite (filter_seq_none _ r 0).
    2:{ intros j Hj. rewrite list_lookup_insert_ne by lia.
        rewrite Hbelow by lia. discriminate. }
    rewrite filter_cons_False.
    2:{ rewrite list_lookup_insert_eq; [discriminate|].
        apply lookup_lt_Some in Hfree. lia. }
    cbn [app]. apply filter_seq_ext. intros j Hj.
    by rewrite list_lookup_insert_ne by lia.
  - rewrite Hs. cbn [mbind option_bind]. eexists _, MAX_ENTITIES. split; [reflexivity|].
    assert (with_active s (m_entity_active s) = s) as -> by by destruct s.
    split; [exact Hwf|]. repeat (split; [reflexivity|]).
    unfold free_slots. rewrite filter_seq_none; [done|].
    intros j Hj. rewrite Hall by lia. discriminate.
Qed.

(** [k] creations in a row on a well-formed scene return the first [k]
    inactive ids in increasing order, and [MAX_ENTITIES] for every call made
    after the free ids ran out; the ids handed out become active, the
    remaining free ids stay free, and no component table, buffer or index
    is touched. *)
Theorem CreateEntities_hands_out_free_slots k : forall s,
  scene_wf s ->
  exists s',
    CreateEntities k s =
      Some (s', take k (free_slots (m_entity_active s) ++ replicate k MAX_ENTITIES)) /\
    scene_wf s' /\
    free_slots (m_entity_active s') = drop k (free_slots (m_entity_active s)) /\
    m_transforms s' = m_transforms s /\ m_physics s' = m_physics s /\
    m_renders s' = m_renders s /\ m_healths s' = m_healths s /\
    m_frontBufferIndex s' = m_frontBufferIndex s.
Proof.
  induction k as [|k IH]; intros s Hwf.
  - exists s. cbn [CreateEntities take]. by rewrite drop_0.
  - destruct (CreateEntity_free s Hwf)
      as (s1 & r & Hrun & Hwf1 & Ht & Hp & Hr & Hh & Hf & Hfree).
    destruct (IH s1 Hwf1) as (s' & Hruns & Hwf' & Hfree' & Ht' & Hp' & Hr' & Hh' & Hf').
    exists s'. cbn [CreateEntities]. rewrite Hrun. cbn [mbind option_bind].
    rewrite Hruns. cbn [mbind option_bind].
    split; [|split; [exact Hwf'|]].
    + f_equal. f_equal.
      destruct (free_slots (m_entity_active s)) as [|i rest] eqn:Hfs.
      * destruct Hfree as [-> ->]. rewrite Hfs. reflexivity.
      * destruct Hfree as (-> & -> & _). cbn [app take]. f_equal.
        rewrite replicate_S_end, app_assoc.
        symmetry. apply take_app_le.
        rewrite length_app, length_replicate. lia.
    + split; [|by rewrite Ht', Hp', Hr', Hh', Hf'].
      rewrite Hfree'.
      destruct (free_slots (m_entity_active s)) as [|i rest] eqn:Hfs.
      * destruct Hfree as [_ ->]. rewrite Hfs. by rewrite !drop_nil.
      * by destruct Hfree as (_ & -> & _).
Qed.

Lemma Scene_new_wf : scene_wf Scene_new.
Proof. split; [left|..]; reflexivity. Defined.

Lemma CreateEntities_hands_out_free_slots_witness :
  exists s',
    CreateEntities 2 Scene_new =
      Some (s', take 2 (free_slots (m_entity_active Scene_new)
                        ++ replicate 2 MAX_ENTITIES)) /\
    scene_wf s' /\
    free_slots (m_entity_active s') = drop 2 (free_slots (m_entity_active Scene_new)) /\
    m_transforms s' = m_transforms Scene_new /\ m_physics s' = m_physics Scene_new /\
    m_renders s' = m_renders Scene_new /\ m_healths s' = m_healths Scene_new /\
    m_frontBufferIndex s' = m_frontBufferIndex Scene_new.
Proof. exact (CreateEntities_hands_out_free_slots 2 Scene_new Scene_new_wf). Defined.

(** ** Draining in batches, and the health an entity is left with *)

Lemma drain_loop_app q1 : forall q2 healths out,
  drain_loop healths (q1 ++ q2) out =
  '(healths1, _, out1) ← drain_loop healths q1 out;
  drain_loop healths1 q2 out1.
Proof.
  induction q1 as [|ev q1 IH]; intros q2 healths out; [reflexivity|].
  cbn [app drain_loop].
  destruct (apply_event healths out ev) as [[healths1 out1]|]; [|reflexivity].
  cbn [mbind option_bind]. apply IH.
Qed.

(** Draining a queue is draining any front part of it and then the rest:
    the events of several physics steps resolved in one call leave the same
    scene and output as resolving them step by step. *)
Theorem DrainAndApply_in_batches s q1 q2 out :
  DrainAndApply s (q1 ++ q2) out =
  '(s1, _, out1) ← DrainAndApply s q1 out;
  DrainAndApply s1 q2 out1.
Proof.
  unfold DrainAndApply, GetHealths. rewrite drain_loop_app.
  destruct (drain_loop (m_healths s) q1 out) as [[[healths1 q] out1]|]; [|reflexivity].
  cbn [mbind option_bind with_healths m_healths].
  destruct (drain_loop healths1 q2 out1) as [[[healths2 q'] out2]|]; reflexivity.
Qed.

(** What [n] boundary hits leave of health [h], and the lines they write. *)
Lemma hits_step_health h n :
  ((if 0 <? health_after_hit h then Z.max 0 (health_after_hit h - 10 * Z.of_nat n)
    else health_after_hit h) =
   (if 0 <? h then Z.max 0 (h - 10 * Z.of_nat (S n)) else h))%Z.
Proof.
  unfold health_after_hit.
  destruct (0 <? h)%Z eqn:Hh; [|by rewrite Hh].
  destruct (0 <? Z.max 0 (h - 10))%Z eqn:Hh'; lia.
Qed.

Lemma hits_step_reports i h n :
  report_of_hit i h ++
    map (fun j => mkWallHit i (Z.max 0 (health_after_hit h - 10 * Z.of_nat (S j))))
      (seq 0 (Nat.min n (Z.to_nat ((health_after_hit h + 9) / 10)))) =
  map (fun j => mkWallHit i (Z.max 0 (h - 10 * Z.of_nat (S j))))
    (seq 0 (Nat.min (S n) (Z.to_nat ((h + 9) / 10)))).
Proof.
  unfold report_of_hit, health_after_hit.
  destruct (0 <? h)%Z eqn:Hh.
  - assert (Z.to_nat ((h + 9) / 10) =
            S (Z.to_nat ((Z.max 0 (h - 10) + 9) / 10))) as ->.
    { destruct (Z.max_spec 0 (h - 10)) as [[? ->]|[? ->]];
        Z.div_mod_to_equations; lia. }
    rewrite <- Nat.succ_min_distr. cbn [seq map app].
    f_equal.
    rewrite <- seq_shift, map_map. apply map_ext_in. intros j Hj.
    f_equal. lia.
  - assert (Z.to_nat ((h + 9) / 10) = 0) as ->
      by (Z.div_mod_to_equations; lia).
    by rewrite Nat.min_0_r.
Qed.

(** The drain loop, read for one entity. *)
Lemma drain_loop_entity i events : forall healths out h,
  Forall event_in_range events -> length healths = MAX_ENTITIES ->
  healths !! i = Some (mkHealth h) ->
  exists healths' out',
    drain_loop healths events out = Some (healths', [], out') /\
    healths' !! i =
      Some (mkHealth (if (0 <? h)%Z
                      then Z.max 0 (h - 10 * Z.of_nat (hits_on i events)) else h)) /\
    reports_on i out' =
      reports_on i out ++
      map (fun j => mkWallHit i (Z.max 0 (h - 10 * Z.of_nat (S j))))
        (seq 0 (Nat.min (hits_on i events) (Z.to_nat ((h + 9) / 10)))).
Proof.
  unfold hits_on, reports_on, events_of.
  induction events as [|ev events IH]; intros healths out h Hin Hlen Hh.
  - exists healths, out. cbn. split; [reflexivity|].
    rewrite app_nil_r, Z.sub_0_r. split; [|reflexivity].
    rewrite Hh. do 2 f_equal. destruct (0 <? h)%Z eqn:E; lia.
  - apply Forall_cons in Hin as [Hev Hin]. cbn [drain_loop].
    destruct (is_boundary ev) eqn:Hb.
    + destruct ev as [[k j]]. cbn in Hb. apply Nat.eqb_eq in Hb. subst j.
      cbn [event_in_range a b] in Hev. specialize (Hev eq_refl).
      destruct (lookup_lt_is_Some_2 healths k ltac:(lia)) as [[hk] Hk].
      fold (boundary_event k). rewrite (apply_event_boundary _ _ _ _ Hk).
      cbn [mbind option_bind].
      rewrite filter_cons_True by (cbn; rewrite ?Nat.eqb_refl; exact I).
      destruct (decide (k = i)) as [->|Hki].
      * assert (hk = h) as -> by congruence.
        destruct (IH (<[i := mkHealth (health_after_hit h)]> healths)
                    (out ++ report_of_hit i h) (health_after_hit h) Hin)
          as (healths' & out' & Hrun & Hhi & Hrep).
        { by rewrite length_insert. }
        { apply list_lookup_insert_eq. lia. }
        exists healths', out'. split; [exact Hrun|].
        rewrite filter_cons_True by reflexivity. cbn [length].
        rewrite <- hits_step_health, <- hits_step_reports.
        split; [exact Hhi|]. rewrite Hrep, filter_app, <- app_assoc.
        f_equal. f_equal. unfold report_of_hit.
        destruct (0 <? h)%Z; [|reflexivity]. by rewrite filter_cons_True.
      * destruct (IH (<[k := mkHealth (health_after_hit hk)]> healths)
                    (out ++ report_of_hit k hk) h Hin)
          as (healths' & out' & Hrun & Hhi & Hrep).
        { by rewrite length_insert. }
        { by rewrite list_lookup_insert_ne. }
        exists healths', out'. split; [exact Hrun|].
        rewrite filter_cons_False by (cbn; congruence).
        split; [exact Hhi|]. rewrite Hrep, filter_app. f_equal.
        unfold report_of_hit. destruct (0 <? hk)%Z; [|by rewrite app_nil_r].
        rewrite filter_cons_False by (cbn; congruence). by rewrite app_nil_r.
    + rewrite (apply_event_ignored _ _ _ Hb). cbn [mbind option_bind].
      rewrite filter_cons_False by (rewrite Hb; exact id).
      by apply IH.
Qed.

(** An entity with positive health [h] for which [n] boundary events are
    queued, in whatever order and mixed with whatever other events, is left
    with health [max 0 (h - 10 n)]; an entity whose health is not positive
    keeps it.  So no drain raises a health, and the health of an entity no
    queued boundary event names is as it was. *)
Theorem DrainAndApply_health s events out i h :
  scene_wf s -> Forall event_in_range events ->
  m_healths s !! i = Some (mkHealth h) ->
  exists s' out',
    DrainAndApply s events out = Some (s', [], out') /\
    m_healths s' !! i =
      Some (mkHealth (if (0 <? h)%Z
                      then Z.max 0 (h - 10 * Z.of_nat (hits_on i events)) else h)).
Proof.
  intros Hwf Hin Hh.
  destruct (drain_loop_entity i events (m_healths s) out h Hin (wf_healths s Hwf) Hh)
    as (healths' & out' & Hrun & Hhi & _).
  unfold DrainAndApply, GetHealths. rewrite Hrun. cbn [mbind option_bind].
  eexists _, out'. split; [reflexivity|]. exact Hhi.
Qed.

Lemma DrainAndApply_health_witness :
  exists s' out',
    DrainAndApply demo_scene
      [boundary_event 1; Collision (mkCollision 0 1); boundary_event 1] []
      = Some (s', [], out') /\
    m_healths s' !! 1 =
      Some (mkHealth (if (0 <? 50)%Z
                      then Z.max 0 (50 - 10 * Z.of_nat (hits_on 1
                             [boundary_event 1; Collision (mkCollision 0 1);
                              boundary_event 1])) else 50)).
Proof.
  apply (DrainAndApply_health demo_scene
           [boundary_event 1; Collision (mkCollision 0 1); boundary_event 1] [] 1 50
           demo_scene_wf).
  - repeat constructor; simpl; unfold MAX_ENTITIES; lia.
  - reflexivity.
Defined.

(** The lines a drain writes about an entity with health [h] for which [n]
    boundary events are queued: one per hit taken while its health was
    positive, which are the first [min n (ceil (h / 10))] hits, showing the
    health after each, in order. *)
Theorem DrainAndApply_reports s events out i h :
  scene_wf s -> Forall event_in_range events ->
  m_healths s !! i = Some (mkHealth h) ->
  exists s' out',
    DrainAndApply s events out = Some (s', [], out') /\
    reports_on i out' =
      reports_on i out ++
      map (fun j => mkWallHit i (Z.max 0 (h - 10 * Z.of_nat (S j))))
        (seq 0 (Nat.min (hits_on i events) (Z.to_nat ((h + 9) / 10)))).
Proof.
  intros Hwf Hin Hh.
  destruct (drain_loop_entity i events (m_healths s) out h Hin (wf_healths s Hwf) Hh)
    as (healths' & out' & Hrun & _ & Hrep).
  unfold DrainAndApply, GetHealths. rewrite Hrun. cbn [mbind option_bind].
  eexists _, out'. split; [reflexivity|]. exact Hrep.
Qed.

Lemma DrainAndApply_reports_witness :
  exists s' out',
    DrainAndApply frail_scene [boundary_event 0; boundary_event 0] []
      = Some (s', [], out') /\
    reports_on 0 out' =
      reports_on 0 [] ++
      map (fun j => mkWallHit 0 (Z.max 0 (5 - 10 * Z.of_nat (S j))))
        (seq 0 (Nat.min (hits_on 0 [boundary_event 0; boundary_event 0])
                        (Z.to_nat ((5 + 9) / 10)))).
Proof.
  apply (DrainAndApply_reports frail_scene [boundary_event 0; boundary_event 0] [] 0 5).
  - split; [left|..]; reflexivity.
  - repeat constructor; simpl; unfold MAX_ENTITIES; lia.
  - reflexivity.
Defined.

(** ** A physics step followed by a drain *)

Lemma expected_events_pushed s tfront :
  scene_wf s ->
  let pushed := flat_map (expected_events s tfront) (seq 0 MAX_ENTITIES) in
  Forall event_in_range pushed /\
  forall events i,
    hits_on i (events ++ pushed) =
    hits_on i events + length (expected_events s tfront i).
Proof.
  intros Hwf. cbn zeta.
  assert (Forall (fun ev => is_boundary ev = true /\ event_in_range ev)
            (flat_map (expected_events s tfront) (seq 0 MAX_ENTITIES))) as Hall.
  { apply Forall_flat_map, Forall_forall. intros j Hj.
    apply list_elem_of_In, in_seq in Hj.
    eapply Forall_impl; [apply expected_events_boundary|].
    intros ev (-> & _). cbn [is_boundary event_in_range a b].
    rewrite Nat.eqb_refl. split; [reflexivity|lia]. }
  split; [eapply Forall_impl; [exact Hall|]; by intros ev [_ ?]|].
  intros events i. unfold hits_on, events_of.
  rewrite !filter_app, length_app. f_equal.
  assert (filter (fun ev => is_boundary ev)
            (flat_map (expected_events s tfront) (seq 0 MAX_ENTITIES)) =
          flat_map (expected_events s tfront) (seq 0 MAX_ENTITIES)) as ->.
  { induction Hall as [|ev l [Hb _] _ IH]; [reflexivity|].
    rewrite filter_cons_True by (rewrite Hb; exact I). by rewrite IH. }
  fold (events_of i (flat_map (expected_events s tfront) (seq 0 MAX_ENTITIES))).
  rewrite events_of_flat_map.
  - case_decide as Hi; [reflexivity|].
    unfold expected_events.
    destruct (m_entity_active s !! i) as [[|]|] eqn:Ha; try reflexivity.
    apply lookup_lt_Some in Ha. rewrite (wf_active s Hwf) in Ha. lia.
  - intros j. eapply Forall_impl; [apply expected_events_boundary|].
    by intros ev (-> & _).
Qed.

(** The health a pass and the drain after it leave an entity with. *)
Lemma pass_then_drain step s s1 pushed events out i h tfront :
  scene_wf s -> scene_wf s1 -> pass_result step s s1 pushed ->
  (forall j, entity_events step tfront (m_entity_active s) (m_physics s) j =
             expected_events s tfront j) ->
  Forall event_in_range events ->
  GetTransforms_Front s = Some tfront ->
  m_healths s !! i = Some (mkHealth h) ->
  exists s2 out',
    DrainAndApply s1 (events ++ pushed) out = Some (s2, [], out') /\
    m_healths s2 !! i =
      Some (mkHealth
              (if (0 <? h)%Z
               then Z.max 0 (h - 10 * Z.of_nat (hits_on i events +
                                                length (expected_events s tfront i)))
               else h)) /\
    m_transforms s2 = m_transforms s1 /\
    m_frontBufferIndex s2 = m_frontBufferIndex s1.
Proof.
  intros Hwf Hwf1 (tfront0 & tback & back' & Hf & _ & _ & _ & _ & _ & _ & Hh1 & _
                   & Hpushed & _) Hexp Hin Hfront Hh.
  assert (tfront0 = tfront) as -> by congruence.
  rewrite (flat_map_seq_ext _ (expected_events s tfront)) in Hpushed
    by (intros; apply Hexp).
  destruct (expected_events_pushed s tfront Hwf) as [Hrange Hhits].
  rewrite <- Hpushed in Hrange, Hhits.
  rewrite <- Hh1 in Hh.
  destruct (drain_loop_entity i (events ++ pushed) (m_healths s1) out h)
    as (healths' & out' & Hrun & Hhi & _);
    [by apply Forall_app|apply Hwf1|exact Hh|].
  unfold DrainAndApply, GetHealths. rewrite Hrun. cbn [mbind option_bind].
  eexists _, out'. split; [reflexivity|]. rewrite Hhits in Hhi.
  split; [exact Hhi|]. by split.
Qed.

(** One physics step and the drain of its events, from a queue of earlier
    events: an entity with positive health [h] loses ten points for each
    boundary event that was queued for it and ten for each axis on which the
    step took it out of bounds (none if it is inactive or at rest), down to
    zero at most; the drain leaves the positions the step published and the
    front index alone.  The same holds for [UpdateParallel] and for one
    iteration of the handshake program's physics thread. *)
Theorem physics_step_then_drain s events out i h tfront :
  scene_wf s -> Forall event_in_range events ->
  GetTransforms_Front s = Some tfront ->
  m_healths s !! i = Some (mkHealth h) ->
  let h' := (if (0 <? h)%Z
             then Z.max 0 (h - 10 * Z.of_nat (hits_on i events +
                                              length (expected_events s tfront i)))
             else h) in
  (exists s1 q s2 out',
     Pipeline.UpdateParallel s events = Some (s1, q) /\
     DrainAndApply s1 q out = Some (s2, [], out') /\
     m_healths s2 !! i = Some (mkHealth h') /\
     m_transforms s2 = m_transforms s1 /\
     m_frontBufferIndex s2 = m_frontBufferIndex s1) /\
  (exists s1 q s2 out',
     Handshake.CPhysicsThread_Run_iteration s events = Some (s1, q) /\
     DrainAndApply s1 q out = Some (s2, [], out') /\
     m_healths s2 !! i = Some (mkHealth h') /\
     m_transforms s2 = m_transforms s1 /\
     m_frontBufferIndex s2 = m_frontBufferIndex s1).
Proof.
  intros Hwf Hin Hfront Hh. cbn zeta. split.
  - destruct (UpdateParallel_spec s events Hwf) as (s1 & pushed & Hrun & _ & Hres & Hwf1).
    destruct (pass_then_drain _ s s1 pushed events out i h tfront Hwf Hwf1 Hres
                (UpdateParallel_events_expected s tfront) Hin Hfront Hh)
      as (s2 & out' & Hdrain & Hrest).
    by exists s1, (events ++ pushed), s2, out'.
  - destruct (Handshake_Run_spec s events Hwf) as (s1 & pushed & Hrun & _ & Hres & Hwf1).
    destruct (pass_then_drain _ s s1 pushed events out i h tfront Hwf Hwf1 Hres
                (Handshake_events_expected s tfront) Hin Hfront Hh)
      as (s2 & out' & Hdrain & Hrest).
    by exists s1, (events ++ pushed), s2, out'.
Qed.

Lemma physics_step_then_drain_witness :
  let h' := (if (0 <? 100)%Z
             then Z.max 0 (100 - 10 * Z.of_nat
                             (hits_on 0 [boundary_event 0] +
                              length (expected_events edge_scene
                                        (fst (m_transforms edge_scene)) 0)))
             else 100)%Z in
  (exists s1 q s2 out',
     Pipeline.UpdateParallel edge_scene [boundary_event 0] = Some (s1, q) /\
     DrainAndApply s1 q [] = Some (s2, [], out') /\
     m_healths s2 !! 0 = Some (mkHealth h') /\
     m_transforms s2 = m_transforms s1 /\
     m_frontBufferIndex s2 = m_frontBufferIndex s1) /\
  (exists s1 q s2 out',
     Handshake.CPhysicsThread_Run_iteration edge_scene [boundary_event 0] = Some (s1, q) /\
     DrainAndApply s1 q [] = Some (s2, [], out') /\
     m_healths s2 !! 0 = Some (mkHealth h') /\
     m_transforms s2 = m_transforms s1 /\
     m_frontBufferIndex s2 = m_frontBufferIndex s1).
Proof.
  apply (physics_step_then_drain edge_scene [boundary_event 0] [] 0 100
           (fst (m_transforms edge_scene)) edge_scene_wf).
  - repeat constructor; simpl; unfold MAX_ENTITIES; lia.
  - reflexivity.
  - reflexivity.
Defined.

(** ** The two threads under every schedule *)

Lemma physics_locals_step th w w' :
  physics_locals_ok w -> Threads.step th w = Some w' -> physics_locals_ok w'.
Proof.
  intros [Hf Hpc] Hstep. destruct w as [s ev pc rc d].
  destruct th; cbn [Threads.step] in Hstep.
  - unfold Threads.physics_step in Hstep.
    cbn [Threads.physics_at Threads.scene Threads.events Threads.render_at
         Threads.drawn] in *.
    destruct pc as [|cf bk i].
    + injection Hstep as <-. by split.
    + destruct Hpc as [-> ->]. destruct (i <? MAX_ENTITIES)%nat.
      * destruct (GetTransformsAt s (m_frontBufferIndex s)) as [tf|];
          [|cbn [mbind option_bind] in Hstep; discriminate].
        cbn [mbind option_bind] in Hstep.
        destruct (GetTransformsAt s (1 - m_frontBufferIndex s)) as [tb|];
          [|cbn [mbind option_bind] in Hstep; discriminate].
        cbn [mbind option_bind] in Hstep.
        destruct (physics_body _ _ _ _ _) as [[[tb' ph'] ev']|];
          [|cbn [mbind option_bind] in Hstep; discriminate].
        cbn [mbind option_bind] in Hstep. injection Hstep as <-.
        by split.
      * injection Hstep as <-. split; [|exact I].
        unfold LoadFrontIndex. cbn. lia.
  - unfold Threads.render_step in Hstep.
    cbn [Threads.physics_at Threads.scene Threads.events Threads.render_at
         Threads.drawn] in *.
    destruct rc as [|cf i packets].
    + injection Hstep as <-. by split.
    + destruct (i <? MAX_ENTITIES)%nat.
      * destruct (GetTransformsAtConst s cf) as [tf|];
        [|cbn [mbind option_bind] in Hstep; discriminate].
        cbn [mbind option_bind] in Hstep.
        destruct (Collect_body _ _ _ _ _ _) as [packets'|];
          [|cbn [mbind option_bind] in Hstep; discriminate].
        cbn [mbind option_bind] in Hstep. injection Hstep as <-. by split.
      * injection Hstep as <-. by split.
Qed.

Lemma physics_locals_run schedule : forall w w',
  physics_locals_ok w -> Threads.run schedule w = Some w' -> physics_locals_ok w'.
Proof.
  induction schedule as [|th rest IH]; intros w w' Hok Hrun.
  - cbn in Hrun. by injection Hrun as <-.
  - cbn [Threads.run] in Hrun.
    destruct (Threads.step th w) as [w1|] eqn:Hstep; [|discriminate].
    cbn [mbind option_bind] in Hrun.
    eapply IH; [|exact Hrun]. by eapply physics_locals_step.
Qed.

(** Under every schedule of the two threads, the buffer the physics thread
    is about to write is not the one the front index designates at that
    instant, and the front index is 0 or 1: whoever loads the index and
    reads that buffer straight away is not written under. *)
Theorem physics_never_writes_front_buffer s schedule w :
  scene_wf s ->
  Threads.run schedule (Threads.start s) = Some w ->
  (m_frontBufferIndex (Threads.scene w) = 0%Z \/
   m_frontBufferIndex (Threads.scene w) = 1%Z) /\
  forall wr, Threads.physics_writes w = Some wr ->
             wr = (1 - m_frontBufferIndex (Threads.scene w))%Z.
Proof.
  intros Hwf Hrun.
  destruct (physics_locals_run schedule (Threads.start s) w) as [Hf Hpc];
    [split; [apply Hwf|exact I]|exact Hrun|].
  split; [exact Hf|]. intros wr Hwr. unfold Threads.physics_writes in Hwr.
  destruct (Threads.physics_at w) as [|cf bk i]; [discriminate|].
  destruct Hpc as [-> ->]. destruct (i <? MAX_ENTITIES)%nat; congruence.
Qed.

Lemma physics_never_writes_front_buffer_witness :
  exists w,
    Threads.run [Threads.tPhysics; Threads.tRender; Threads.tPhysics; Threads.tPhysics]
      (Threads.start demo_scene) = Some w /\
    (m_frontBufferIndex (Threads.scene w) = 0%Z \/
     m_frontBufferIndex (Threads.scene w) = 1%Z) /\
    forall wr, Threads.physics_writes w = Some wr ->
               wr = (1 - m_frontBufferIndex (Threads.scene w))%Z.
Proof.
  eexists. split; [vm_compute; reflexivity|].
  apply (physics_never_writes_front_buffer demo_scene
           [Threads.tPhysics; Threads.tRender; Threads.tPhysics; Threads.tPhysics]
           _ demo_scene_wf).
  vm_compute. reflexivity.
Defined.

Lemma render_step_same_physics w w' :
  Threads.render_step w = Some w' -> same_physics w w'.
Proof.
  unfold Threads.render_step. intros Hstep.
  destruct (Threads.render_at w) as [|cf i packets].
  - injection Hstep as <-. by repeat split.
  - destruct (i <? MAX_ENTITIES)%nat.
    + destruct (GetTransformsAtConst _ cf) as [tf|];
        [|cbn [mbind option_bind] in Hstep; discriminate].
      cbn [mbind option_bind] in Hstep.
      destruct (Collect_body _ _ _ _ _ _) as [packets'|];
        [|cbn [mbind option_bind] in Hstep; discriminate].
      cbn [mbind option_bind] in Hstep. injection Hstep as <-. by repeat split.
    + injection Hstep as <-. by repeat split.
Qed.

(** [k] uninterrupted calls of [UpdateParallel] in the thread model. *)
Lemma physics_steps_alone k : forall s events r d,
  scene_wf s ->
  Threads.run (replicate (k * S (S MAX_ENTITIES)) Threads.tPhysics)
    (Threads.mkWorld s events Threads.PhysicsIdle r d) =
  (res ← Threads.physics_steps k s events;
   Some (Threads.mkWorld res.1 res.2 Threads.PhysicsIdle r d)).
Proof.
  induction k as [|k IH]; intros s events r d Hwf; [reflexivity|].
  change (S k * S (S MAX_ENTITIES)) with (S (S MAX_ENTITIES) + k * S (S MAX_ENTITIES)).
  rewrite replicate_add, Threads_run_app.
  fold Threads.whole_physics_step. rewrite (physics_thread_alone s events r d Hwf).
  cbn [Threads.physics_steps].
  destruct (UpdateParallel_spec s events Hwf) as (s1 & pushed & -> & _ & _ & Hwf1).
  cbn [mbind option_bind fst snd]. by apply IH.
Qed.

(** ** The physics thread beside the render thread and the drain of [main] *)

(** An iteration of the physics loop writes the same positions and
    velocities whatever the queue holds: it only appends to it. *)
Lemma physics_body_any_queue i tf active tb ph ev1 ev2 tb' ph' ev1' :
  physics_body Pipeline.UpdateParallel_entity tf active i (tb, ph, ev1)
    = Some (tb', ph', ev1') ->
  exists ev2',
    physics_body Pipeline.UpdateParallel_entity tf active i (tb, ph, ev2)
      = Some (tb', ph', ev2').
Proof.
  unfold physics_body.
  destruct (active !! i) as [act|]; [|discriminate]. cbn [mbind option_bind].
  destruct act; cbn [negb]; [|intros [= <- <- <-]; by eexists].
  destruct (tf !! i) as [t|]; [|discriminate]. cbn [mbind option_bind].
  destruct (tb !! i) as [t0|]; [|discriminate]. cbn [mbind option_bind].
  destruct (ph !! i) as [p|]; [|discriminate]. cbn [mbind option_bind].
  rewrite (UpdateParallel_entity_appends i t p ev1),
    (UpdateParallel_entity_appends i t p ev2).
  destruct (Pipeline.UpdateParallel_entity i t p []) as [[t1 p1] out].
  intros [= <- <- <-]. by eexists.
Qed.

Lemma physics_step_physics_view w1 w2 w1' :
  physics_view w1 w2 -> Threads.physics_step w1 = Some w1' ->
  exists w2', Threads.physics_step w2 = Some w2' /\ physics_view w1' w2'.
Proof.
  destruct w1 as [[f t p r h1 a] ev1 pc rc1 d1], w2 as [[f2 t2 p2 r2 h2 a2] ev2 pc2 rc2 d2].
  intros [(Hf & Ht & Hp & Hr & Ha) Hpc]. cbn in Hf, Ht, Hp, Hr, Ha, Hpc.
  subst f2 t2 p2 r2 a2 pc2. unfold Threads.physics_step.
  cbn [Threads.physics_at Threads.scene Threads.events Threads.render_at Threads.drawn].
  intros Hstep. destruct pc as [|cf bk i].
  - injection Hstep as <-. eexists. split; [reflexivity|]. by repeat split.
  - destruct (i <? MAX_ENTITIES)%nat.
    + change (GetTransformsAt (mkScene f t p r h2 a))
        with (GetTransformsAt (mkScene f t p r h1 a)).
      destruct (GetTransformsAt (mkScene f t p r h1 a) cf) as [tf|];
        [|cbn [mbind option_bind] in Hstep; discriminate].
      cbn [mbind option_bind] in Hstep |- *.
      destruct (GetTransformsAt (mkScene f t p r h1 a) bk) as [tb|];
        [|cbn [mbind option_bind] in Hstep; discriminate].
      cbn [mbind option_bind] in Hstep |- *.
      unfold GetActiveEntities, GetPhysics in *. cbn [m_entity_active m_physics] in *.
      destruct (physics_body _ tf a i (tb, p, ev1)) as [[[tb' ph'] ev1']|] eqn:Hbody;
        [|cbn [mbind option_bind] in Hstep; discriminate].
      destruct (physics_body_any_queue _ _ _ _ _ _ ev2 _ _ _ Hbody) as [ev2' ->].
      cbn [mbind option_bind] in Hstep |- *. injection Hstep as <-.
      eexists. split; [reflexivity|]. by repeat split.
    + injection Hstep as <-. eexists. split; [reflexivity|]. by repeat split.
Qed.

Lemma MainThreads_run_physics_view schedule : forall w w2 w',
  physics_view (MainThreads.workers w) w2 ->
  MainThreads.run schedule w = Some w' ->
  exists w2',
    Threads.run (replicate (MainThreads.physics_steps_in schedule) Threads.tPhysics) w2
      = Some w2' /\
    physics_view (MainThreads.workers w') w2'.
Proof.
  unfold MainThreads.physics_steps_in.
  induction schedule as [|th rest IH]; intros w w2 w' Hview Hrun.
  - cbn in Hrun. injection Hrun as <-. by exists w2.
  - cbn [MainThreads.run] in Hrun.
    destruct (MainThreads.step th w) as [w1|] eqn:Hstep;
      [|cbn [mbind option_bind] in Hrun; discriminate].
    cbn [mbind option_bind] in Hrun. destruct th; cbn [MainThreads.step] in Hstep.
    + rewrite filter_cons_True by exact I. cbn [length replicate Threads.run Threads.step].
      destruct (Threads.physics_step (MainThreads.workers w)) as [tw1|] eqn:Hp;
        [|cbn [mbind option_bind] in Hstep; discriminate].
      cbn [mbind option_bind] in Hstep. injection Hstep as <-.
      destruct (physics_step_physics_view _ w2 tw1 Hview Hp) as (w2a & -> & Hview').
      cbn [mbind option_bind]. eapply IH; [|exact Hrun]. exact Hview'.
    + rewrite filter_cons_False by exact id.
      destruct (Threads.render_step (MainThreads.workers w)) as [tw1|] eqn:Hr;
        [|cbn [mbind option_bind] in Hstep; discriminate].
      cbn [mbind option_bind] in Hstep. injection Hstep as <-.
      eapply IH; [|exact Hrun]. cbn [MainThreads.workers].
      destruct (render_step_same_physics _ _ Hr) as (Hs & _ & Hpc).
      destruct Hview as [Hdata Hpc']. split; [by rewrite <- Hs|by rewrite <- Hpc].
    + rewrite filter_cons_False by exact id.
      eapply IH; [|exact Hrun]. unfold MainThreads.main_step in Hstep.
      destruct (EventQueue.TryPop _) as [[ev|] q]; [|by injection Hstep as <-].
      destruct (apply_event _ _ ev) as [[healths out]|];
        [|cbn [mbind option_bind] in Hstep; discriminate].
      cbn [mbind option_bind] in Hstep. injection Hstep as <-.
      cbn [MainThreads.workers]. destruct Hview as [Hdata Hpc]. split; [|exact Hpc].
      exact Hdata.
Qed.

(** What the physics thread computes does not depend on the schedule:
    however the steps of [tPhysics], of [tRender] and of [main]'s drain loop
    interleave, once the physics thread has taken the steps of [k] whole
    calls of [UpdateParallel] it is between two calls, and both position
    buffers, the velocity table and the front index (and the glyph and
    active tables, which no thread writes) are those that [k] calls made in
    a row, with no other thread, leave.  Nothing is said of the event queue
    and of the health table, which [main] changes. *)
Theorem physics_result_is_schedule_independent s schedule w k :
  scene_wf s ->
  MainThreads.run schedule (MainThreads.start s) = Some w ->
  MainThreads.physics_steps_in schedule = k * S (S MAX_ENTITIES) ->
  exists s' events',
    Threads.physics_steps k s [] = Some (s', events') /\
    same_but_healths (Threads.scene (MainThreads.workers w)) s' /\
    Threads.physics_at (MainThreads.workers w) = Threads.PhysicsIdle.
Proof.
  intros Hwf Hrun Hlen.
  destruct (MainThreads_run_physics_view schedule (MainThreads.start s)
              (Threads.start s) w) as (w2 & Hrun2 & Hdata & Hpc);
    [by repeat split|exact Hrun|].
  rewrite Hlen in Hrun2. unfold Threads.start in Hrun2.
  rewrite (physics_steps_alone k s [] _ _ Hwf) in Hrun2.
  destruct (Threads.physics_steps k s []) as [[s' ev']|];
    [|cbn [mbind option_bind] in Hrun2; discriminate].
  cbn [mbind option_bind fst snd] in Hrun2. injection Hrun2 as <-.
  by exists s', ev'.
Qed.

Lemma physics_result_is_schedule_independent_witness :
  exists w,
    MainThreads.run
      ([MainThreads.tPhysics; MainThreads.tRender; MainThreads.tMain] ++
       replicate 80 MainThreads.tPhysics ++ [MainThreads.tMain; MainThreads.tRender] ++
       replicate (MAX_ENTITIES - 79) MainThreads.tPhysics ++ [MainThreads.tMain])
      (MainThreads.start edge_scene) = Some w /\
    exists s' events',
      Threads.physics_steps 1 edge_scene [] = Some (s', events') /\
      same_but_healths (Threads.scene (MainThreads.workers w)) s' /\
      Threads.physics_at (MainThreads.workers w) = Threads.PhysicsIdle.
Proof.
  eexists. split; [vm_compute; reflexivity|].
  apply (physics_result_is_schedule_independent edge_scene
           ([MainThreads.tPhysics; MainThreads.tRender; MainThreads.tMain] ++
            replicate 80 MainThreads.tPhysics ++
            [MainThreads.tMain; MainThreads.tRender] ++
            replicate (MAX_ENTITIES - 79) MainThreads.tPhysics ++ [MainThreads.tMain])
           _ 1 edge_scene_wf).
  - vm_compute. reflexivity.
  - vm_compute. reflexivity.
Defined.

Lemma glyphs_shown_S s i :
  glyphs_shown s (S i) =
  glyphs_shown s i ++
  (if visible " " (m_entity_active s) (m_renders s) i
   then match m_renders s !! i with Some r => [symbol r] | None => [] end
   else []).
Proof.
  unfold glyphs_shown. rewrite seq_S, omap_app. cbn [omap list_omap Nat.add].
  destruct (visible _ _ _ i); [|reflexivity].
  by destruct (m_renders s !! i).
Qed.

Lemma render_progress_step s th w w' :
  render_progress_ok s w -> Threads.step th w = Some w' -> render_progress_ok s w'.
Proof.
  intros (Hr & Ha & Hd & Hpc) Hstep. destruct w as [s0 ev pc rc d].
  cbn [Threads.physics_at Threads.scene Threads.events Threads.render_at
       Threads.drawn] in *.
  destruct th; cbn [Threads.step] in Hstep.
  - unfold Threads.physics_step in Hstep.
    cbn [Threads.physics_at Threads.scene Threads.events Threads.render_at
         Threads.drawn] in *.
    destruct pc as [|cf bk i].
    + injection Hstep as <-. by repeat split.
    + destruct (i <? MAX_ENTITIES)%nat.
      * destruct (GetTransformsAt s0 cf) as [tf|];
          [|cbn [mbind option_bind] in Hstep; discriminate].
        cbn [mbind option_bind] in Hstep.
        destruct (GetTransformsAt s0 bk) as [tb|];
          [|cbn [mbind option_bind] in Hstep; discriminate].
        cbn [mbind option_bind] in Hstep.
        destruct (physics_body _ _ _ _ _) as [[[tb' ph'] ev']|];
          [|cbn [mbind option_bind] in Hstep; discriminate].
        cbn [mbind option_bind] in Hstep. injection Hstep as <-.
        by repeat split.
      * injection Hstep as <-. by repeat split.
  - unfold Threads.render_step in Hstep.
    cbn [Threads.physics_at Threads.scene Threads.events Threads.render_at
         Threads.drawn] in *.
    destruct rc as [|cf i packets].
    + injection Hstep as <-. repeat split; try done. lia.
    + destruct Hpc as [Hi Hpk]. destruct (i <? MAX_ENTITIES)%nat eqn:Hlt.
      * apply Nat.ltb_lt in Hlt.
        destruct (GetTransformsAtConst s0 cf) as [tf|];
          [|cbn [mbind option_bind] in Hstep; discriminate].
        cbn [mbind option_bind] in Hstep.
        destruct (Collect_body _ _ _ _ _ _) as [packets'|] eqn:Hbody;
          [|cbn [mbind option_bind] in Hstep; discriminate].
        cbn [mbind option_bind] in Hstep. injection Hstep as <-.
        repeat split; try done; try lia.
        rewrite glyphs_shown_S, <- Hpk.
        unfold Collect_body, GetRenders, GetActiveEntities in Hbody.
        rewrite Hr, Ha in Hbody. unfold visible.
        destruct (m_entity_active s !! i) as [[|]|];
          cbn [mbind option_bind] in Hbody; try discriminate.
        -- destruct (m_renders s !! i) as [r|];
             cbn [mbind option_bind] in Hbody; [|discriminate].
           destruct (negb (Ascii.eqb (symbol r) " ")).
           ++ destruct (tf !! i) as [t|]; cbn [mbind option_bind] in Hbody;
                [|discriminate].
              destruct (double_to_int (x t)) as [px|];
                cbn [mbind option_bind] in Hbody; [|discriminate].
              destruct (double_to_int (y t)) as [py|];
                cbn [mbind option_bind] in Hbody; [|discriminate].
              injection Hbody as <-. by rewrite map_app.
           ++ injection Hbody as <-. by rewrite app_nil_r.
        -- injection Hbody as <-. by rewrite app_nil_r.
      * apply Nat.ltb_ge in Hlt. injection Hstep as <-.
        repeat split; try done.
        apply Forall_app. split; [exact Hd|]. constructor; [|constructor].
        by replace MAX_ENTITIES with i by lia.
Qed.

Lemma render_progress_run s schedule : forall w w',
  render_progress_ok s w -> Threads.run schedule w = Some w' ->
  render_progress_ok s w'.
Proof.
  induction schedule as [|th rest IH]; intros w w' Hok Hrun.
  - cbn in Hrun. by injection Hrun as <-.
  - cbn [Threads.run] in Hrun.
    destruct (Threads.step th w) as [w1|] eqn:Hstep;
      [|cbn [mbind option_bind] in Hrun; discriminate].
    cbn [mbind option_bind] in Hrun.
    eapply IH; [|exact Hrun]. by eapply render_progress_step.
Qed.

(** Whatever the schedule, every frame the render thread hands to [Draw]
    holds one packet for each active entity whose glyph is not a space, by
    increasing id and with the entity's glyph: what a race with the physics
    thread can spoil in a frame is the coordinates, not which entities it
    shows or in what order.  The physics thread leaves the glyph and active
    tables as they were. *)
Theorem every_frame_shows_the_visible_entities s schedule w :
  Threads.run schedule (Threads.start s) = Some w ->
  Forall (fun frame => map RenderPacket.symbol frame = glyphs_shown s MAX_ENTITIES)
         (Threads.drawn w) /\
  m_renders (Threads.scene w) = m_renders s /\
  m_entity_active (Threads.scene w) = m_entity_active s.
Proof.
  intros Hrun.
  destruct (render_progress_run s schedule (Threads.start s) w)
    as (Hr & Ha & Hd & _); [by repeat split|exact Hrun|].
  by repeat split.
Qed.

Lemma every_frame_shows_the_visible_entities_witness :
  exists w,
    Threads.run Threads.overtaken_then_drawn (Threads.start Threads.race_scene)
      = Some w /\
    Forall (fun frame =>
              map RenderPacket.symbol frame =
              glyphs_shown Threads.race_scene MAX_ENTITIES)
           (Threads.drawn w) /\
    m_renders (Threads.scene w) = m_renders Threads.race_scene /\
    m_entity_active (Threads.scene w) = m_entity_active Threads.race_scene.
Proof.
  eexists. split; [vm_compute; reflexivity|].
  apply (every_frame_shows_the_visible_entities Threads.race_scene
           Threads.overtaken_then_drawn).
  vm_compute. reflexivity.
Defined.

(** ** The blocking pop *)

Lemma WaitPops_spec n : forall q,
  EventQueue.WaitPops n q =
  if decide (n <= length q) then Some (take n q, drop n q) else None.
Proof.
  induction n as [|n IH]; intros q.
  - cbn. by rewrite drop_0.
  - destruct q as [|ev q]; [reflexivity|].
    cbn [EventQueue.WaitPops EventQueue.WaitPop mbind option_bind length take drop].
    rewrite IH. repeat case_decide; try lia; reflexivity.
Qed.

(** Events pushed and then taken with [WaitPop] come back in the order of
    the pushes, after whatever the queue held before: [n] calls return the
    [n] oldest events and leave the rest, and they all return exactly when
    [n] is no more than the number of events queued; the call after the
    last queued event does not return.  A call returns exactly when the
    queue is not [Empty], and then with the answer of [TryPop]. *)
Theorem WaitPop_takes_oldest_first q evs n :
  let q' := foldl (fun q ev => EventQueue.Push ev q) q evs in
  EventQueue.WaitPops n q' =
    (if decide (n <= length q + length evs)
     then Some (take n (q ++ evs), drop n (q ++ evs)) else None) /\
  EventQueue.WaitPop q' =
    (if EventQueue.Empty q' then None
     else match EventQueue.TryPop q' with
          | (Some ev, rest) => Some (ev, rest)
          | (None, _) => None
          end).
Proof.
  cbn zeta.
  assert (foldl (fun q ev => EventQueue.Push ev q) q evs = q ++ evs) as ->.
  { revert q. induction evs as [|ev evs IH]; intros q; cbn [foldl].
    - by rewrite app_nil_r.
    - rewrite IH. unfold EventQueue.Push. by rewrite <- app_assoc. }
  split.
  - rewrite WaitPops_spec, length_app. reflexivity.
  - by destruct (q ++ evs).
Qed.

(** ** Floating-point facts behind the cast of the renderer *)

Lemma not_nan_spec v : not_nan v = true <-> Prim2SF v <> S754_nan.
Proof.
  unfold not_nan. rewrite FloatAxioms.eqb_spec. unfold SFeqb.
  destruct (Prim2SF v) as [s|s| |s m e]; cbn [SFcompare].
  - done.
  - by destruct s.
  - split; [discriminate|congruence].
  - rewrite Z.compare_refl, Pos.compare_cont_refl. by destruct s.
Qed.

Lemma shr_1_nonneg mrs : (0 <= shr_m mrs)%Z -> (0 <= shr_m (shr_1 mrs))%Z.
Proof. destruct mrs as [[|[p|p|]|p] r s]; cbn; lia. Qed.

Lemma iter_shr_1_nonneg p : forall mrs,
  (0 <= shr_m mrs)%Z -> (0 <= shr_m (SpecFloat.iter_pos shr_1 p mrs))%Z.
Proof.
  induction p as [p IH|p IH|]; intros mrs Hm; cbn [SpecFloat.iter_pos].
  - apply IH, IH. by apply shr_1_nonneg.
  - by apply IH, IH.
  - by apply shr_1_nonneg.
Qed.

Lemma shr_fexp_nonneg prec emax m e l :
  (0 <= m)%Z -> (0 <= shr_m (shr_fexp prec emax m e l).1)%Z.
Proof.
  intros Hm. unfold shr_fexp, shr.
  assert (0 <= shr_m (shr_record_of_loc m l))%Z as Hrec
    by (destruct l as [|[| |]]; exact Hm).
  destruct (fexp prec emax (Zdigits2 m + e) - e)%Z; cbn [fst]; try exact Hrec.
  by apply iter_shr_1_nonneg.
Qed.

Lemma binary_round_aux_not_nan prec emax sx mx ex lx :
  (0 <= mx)%Z -> binary_round_aux prec emax sx mx ex lx <> S754_nan.
Proof.
  intros Hm. unfold binary_round_aux.
  pose proof (shr_fexp_nonneg prec emax mx ex lx Hm) as H1.
  destruct (shr_fexp prec emax mx ex lx) as [mrs1 e1]. cbn [fst] in H1.
  assert (0 <= round_nearest_even (shr_m mrs1) (loc_of_shr_record mrs1))%Z as H2.
  { unfold round_nearest_even.
    destruct (loc_of_shr_record mrs1) as [|[| |]]; try lia.
    destruct (Z.even (shr_m mrs1)); lia. }
  pose proof (shr_fexp_nonneg prec emax _ e1 loc_Exact H2) as H3.
  destruct (shr_fexp prec emax _ e1 loc_Exact) as [mrs2 e2]. cbn [fst] in H3.
  destruct (shr_m mrs2); [discriminate| |lia].
  by destruct (e2 <=? emax - prec)%Z.
Qed.

(** A finite value plus anything but a NaN is not a NaN. *)
Lemma SFadd_not_nan x y :
  (forall s, x <> S754_infinity s) -> x <> S754_nan -> y <> S754_nan ->
  SF64add x y <> S754_nan.
Proof.
  intros Hinf Hx Hy. unfold SF64add, SFadd.
  destruct x as [sx|sx| |sx mx ex]; [|by destruct (Hinf sx)|done|].
  - destruct y as [sy|sy| |sy my ey]; try done. by destruct sx, sy.
  - destruct y as [sy|sy| |sy my ey]; try done.
    unfold binary_normalize.
    destruct (_ + _)%Z; [discriminate|..]; unfold binary_round;
      destruct (shl_align _ _ _) as [mz ez]; by apply binary_round_aux_not_nan.
Qed.

Lemma digits2_pos_bound m : (Z.pos m < 2 ^ Z.pos (digits2_pos m))%Z.
Proof.
  induction m as [m IH|m IH|]; cbn [digits2_pos];
    rewrite ?Pos2Z.inj_succ, ?Z.pow_succ_r by lia; [lia..|reflexivity].
Qed.

(** The integer part of a value that compares as lying between zero and a
    normal bound [mB * 2 ^ eB] lies between zero and the bound's. *)
Lemma SF_trunc_in_range sf mB eB :
  valid_binary sf = true -> sf <> S754_nan ->
  SFltb sf (S754_zero false) = false ->
  SFltb (S754_finite false mB eB) sf = false ->
  (2 ^ 52 <= Z.pos mB)%Z -> (-52 <= eB <= 0)%Z ->
  exists z, SF_trunc sf = Some z /\ (0 <= z <= Z.shiftl (Z.pos mB) eB)%Z.
Proof.
  intros Hvalid Hnan Hlo Hhi HmB HeB.
  destruct sf as [s|s| |s m e].
  - exists 0%Z. split; [reflexivity|]. split; [lia|]. by apply Z.shiftl_nonneg.
  - destruct s; discriminate.
  - done.
  - destruct s; [discriminate|].
    exists (Z.shiftl (Z.pos m) e). split; [reflexivity|].
    split; [by apply Z.shiftl_nonneg|].
    cbn [valid_binary] in Hvalid. unfold bounded, canonical_mantissa in Hvalid.
    apply andb_prop in Hvalid as [Hcanon _]. apply Z.eqb_eq in Hcanon.
    unfold fexp in Hcanon.
    assert (Z.pos m < 2 ^ 53)%Z as Hm.
    { eapply Z.lt_le_trans; [apply digits2_pos_bound|].
      apply Z.pow_le_mono_r; unfold prec in *; lia. }
    unfold SFltb, SFcompare in Hhi.
    destruct (Z.compare_spec eB e) as [<-|Hlt|Hgt]; [|discriminate|].
    + change (PosDef.Pos.compare_cont Eq mB m) with (mB ?= m)%positive in Hhi.
      destruct (Pos.compare_spec mB m) as [<-|Hlt|Hgt]; [lia|discriminate|].
      rewrite !Z.shiftl_div_pow2 by lia.
      apply Z.div_le_mono; [apply Z.pow_pos_nonneg; lia|lia].
    + rewrite !Z.shiftl_div_pow2 by lia.
      transitivity (2 ^ (52 + eB))%Z.
      * apply Z.lt_le_incl, Z.div_lt_upper_bound; [apply Z.pow_pos_nonneg; lia|].
        rewrite <- Z.pow_add_r by lia.
        eapply Z.lt_le_trans; [exact Hm|].
        apply Z.pow_le_mono_r; lia.
      * apply Z.div_le_lower_bound; [apply Z.pow_pos_nonneg; lia|].
        rewrite <- Z.pow_add_r by lia.
        by replace (- eB + (52 + eB))%Z with 52%Z by lia.
Qed.

Lemma inside_not_infinite sf mB eB :
  SFltb sf (S754_zero false) = false ->
  SFltb (S754_finite false mB eB) sf = false ->
  forall s, sf <> S754_infinity s.
Proof. intros Hlo Hhi [|] ->; discriminate. Qed.

(** The cast of a coordinate that is inside the world. *)
Lemma double_to_int_x v :
  not_nan v = true -> outside 0 79 v = false ->
  (forall s, Prim2SF v <> S754_infinity s) /\
  exists z, double_to_int v = Some z /\ (0 <= z <= 79)%Z.
Proof.
  intros Hnan Hin. apply not_nan_spec in Hnan.
  unfold outside in Hin. apply orb_false_elim in Hin as [Hlo Hhi].
  rewrite ltb_spec in Hlo, Hhi.
  change (Prim2SF 0) with (S754_zero false) in Hlo.
  change (Prim2SF 79) with (S754_finite false 5559130790035456 (-46)) in Hhi.
  split; [by eapply inside_not_infinite|].
  destruct (SF_trunc_in_range _ _ _ (Prim2SF_valid v) Hnan Hlo Hhi)
    as (z & Hz & Hrange); [done|lia|].
  change (Z.shiftl 5559130790035456 (-46)) with 79%Z in Hrange.
  exists z. split; [|exact Hrange]. unfold double_to_int. rewrite Hz.
  cbn [mbind option_bind]. unfold INT_MIN, INT_MAX.
  by rewrite (proj2 (Z.leb_le _ _)), (proj2 (Z.leb_le _ _)) by lia.
Qed.

Lemma double_to_int_y v :
  not_nan v = true -> outside 0 24 v = false ->
  (forall s, Prim2SF v <> S754_infinity s) /\
  exists z, double_to_int v = Some z /\ (0 <= z <= 24)%Z.
Proof.
  intros Hnan Hin. apply not_nan_spec in Hnan.
  unfold outside in Hin. apply orb_false_elim in Hin as [Hlo Hhi].
  rewrite ltb_spec in Hlo, Hhi.
  change (Prim2SF 0) with (S754_zero false) in Hlo.
  change (Prim2SF 24) with (S754_finite false 6755399441055744 (-48)) in Hhi.
  split; [by eapply inside_not_infinite|].
  destruct (SF_trunc_in_range _ _ _ (Prim2SF_valid v) Hnan Hlo Hhi)
    as (z & Hz & Hrange); [done|lia|].
  change (Z.shiftl 6755399441055744 (-48)) with 24%Z in Hrange.
  exists z. split; [|exact Hrange]. unfold double_to_int. rewrite Hz.
  cbn [mbind option_bind]. unfold INT_MIN, INT_MAX.
  by rewrite (proj2 (Z.leb_le _ _)), (proj2 (Z.leb_le _ _)) by lia.
Qed.

(** ** Sound scenes: the casts are defined and every packet is on screen *)

Lemma scene_sound_lookup s tfront :
  GetTransforms_Front s = Some tfront ->
  scene_sound s = true <->
  (forall i t p, i < MAX_ENTITIES -> m_entity_active s !! i = Some true ->
                 tfront !! i = Some t -> m_physics s !! i = Some p ->
                 entity_sound t p = true).
Proof.
  intros Hf. unfold scene_sound. rewrite Hf, List.forallb_forall. split.
  - intros Hall i t p Hi Hact Ht Hp. specialize (Hall i).
    rewrite Hact, Ht, Hp in Hall. apply Hall, in_seq. lia.
  - intros Hall i Hi. apply in_seq in Hi.
    destruct (m_entity_active s !! i) as [[|]|] eqn:Hact; try reflexivity.
    destruct (tfront !! i) as [t|] eqn:Ht; try reflexivity.
    destruct (m_physics s !! i) as [p|] eqn:Hp; try reflexivity.
    apply (Hall i t p); [lia|done..].
Qed.

Lemma entity_sound_spec t p :
  entity_sound t p = true <->
  (outside 0 79 (x t) = false /\ outside 0 24 (y t) = false) /\
  not_nan (x t) = true /\ not_nan (y t) = true /\
  not_nan (vx p) = true /\ not_nan (vy p) = true.
Proof.
  unfold entity_sound, in_world. rewrite !andb_true_iff, !negb_true_iff. tauto.
Qed.

Lemma mapM_Forall {A B} (f : A -> option B) (P : B -> Prop) (l : list A) :
  (forall a, a ∈ l -> exists b, f a = Some b /\ P b) ->
  exists k, mapM f l = Some k /\ Forall P k.
Proof.
  induction l as [|a l IH]; intros Hall.
  - exists []. by split.
  - destruct (Hall a) as (b & Hb & HP); [left|].
    destruct IH as (k & Hk & HPk); [intros a' Ha'; apply Hall; by right|].
    exists (b :: k). cbn [mapM]. rewrite Hb, Hk. split; [reflexivity|].
    by constructor.
Qed.

(** What any of the collect loops makes of a sound scene. *)
Lemma expected_packets_on_screen hidden s :
  scene_wf s -> scene_sound s = true ->
  exists pkts,
    expected_packets hidden s = Some pkts /\
    Forall (fun p => Renderer.on_screen p = true) pkts.
Proof.
  intros Hwf Hok.
  destruct (front_and_back s Hwf) as (tfront & tback & Hf & _ & Hlf & _).
  pose proof (proj1 (scene_sound_lookup s tfront Hf) Hok) as Hin.
  unfold expected_packets. rewrite Hf. cbn [mbind option_bind].
  apply mapM_Forall. intros i Hi.
  apply list_elem_of_filter in Hi as [Hvis Hi].
  apply list_elem_of_In, in_seq in Hi. unfold visible in Hvis.
  destruct (m_entity_active s !! i) as [[|]|] eqn:Hact; try done.
  destruct (m_renders s !! i) as [r|] eqn:Hr; try done.
  destruct (lookup_lt_is_Some_2 tfront i ltac:(lia)) as [t Ht].
  destruct (lookup_lt_is_Some_2 (m_physics s) i) as [p Hp];
    [rewrite (wf_physics s Hwf); lia|].
  specialize (Hin i t p ltac:(lia) Hact Ht Hp).
  apply entity_sound_spec in Hin as ((Hx & Hy) & Hnx & Hny & _ & _).
  destruct (double_to_int_x _ Hnx Hx) as (_ & px & Hpx & Hrx).
  destruct (double_to_int_y _ Hny Hy) as (_ & py & Hpy & Hry).
  exists (RenderPacket.mk (symbol r) px py). unfold packet_of.
  rewrite Hr, Ht. cbn [mbind option_bind]. rewrite Hpx. cbn [mbind option_bind].
  rewrite Hpy. split; [reflexivity|].
  unfold Renderer.on_screen. cbn [RenderPacket.x RenderPacket.y].
  rewrite !andb_true_iff, !Z.leb_le, !Z.ltb_lt. lia.
Qed.

(** On a well-formed scene whose active entities are inside the world,
    with no NaN among their coordinates and velocities, every collect loop
    returns (each cast to [int] is of a value between 0 and 79, or 0 and 24,
    so it is defined) and every packet it emits falls on the 80 by 25 grid,
    so [Draw] drops none of them. *)
Theorem sound_scene_is_collected_on_screen s packets :
  scene_wf s -> scene_sound s = true ->
  (exists pkts,
     PipelineRender.CollectParallel s packets = Some pkts /\
     PipelineRender.Collect s packets = Some pkts /\
     Forall (fun p => Renderer.on_screen p = true) pkts) /\
  (exists pkts,
     HandshakeRender.Collect s packets = Some pkts /\
     Forall (fun p => Renderer.on_screen p = true) pkts).
Proof.
  intros Hwf Hok. split.
  - destruct (expected_packets_on_screen " " s Hwf Hok) as (pkts & Hrun & Hon).
    destruct (CollectParallel_spec s packets Hwf) as [-> ->]. by exists pkts.
  - destruct (expected_packets_on_screen "000" s Hwf Hok) as (pkts & Hrun & Hon).
    rewrite (Handshake_Collect_spec s packets Hwf). by exists pkts.
Qed.

Lemma sound_scene_is_collected_on_screen_witness :
  (exists pkts,
     PipelineRender.CollectParallel demo_scene [] = Some pkts /\
     PipelineRender.Collect demo_scene [] = Some pkts /\
     Forall (fun p => Renderer.on_screen p = true) pkts) /\
  (exists pkts,
     HandshakeRender.Collect demo_scene [] = Some pkts /\
     Forall (fun p => Renderer.on_screen p = true) pkts).
Proof.
  apply (sound_scene_is_collected_on_screen demo_scene [] demo_scene_wf).
  vm_compute. reflexivity.
Defined.

(** One step of the parallel pipeline keeps a scene sound. *)
Lemma UpdateParallel_sound_step s events :
  scene_wf s -> scene_sound s = true ->
  exists s' events',
    Pipeline.UpdateParallel s events = Some (s', events') /\
    scene_wf s' /\ scene_sound s' = true.
Proof.
  intros Hwf Hok.
  destruct (UpdateParallel_spec s events Hwf) as (s' & pushed & Hrun & Hidx & Hres & Hwf').
  exists s', (events ++ pushed). split; [exact Hrun|]. split; [exact Hwf'|].
  destruct (front_and_back s Hwf) as (tfront & tback & Hf & Hb & Hlf & Hlb).
  pose proof (proj1 (scene_sound_lookup s tfront Hf) Hok) as Hin.
  destruct (front_and_back s' Hwf') as (current & old & Hf' & _ & _ & _).
  apply (scene_sound_lookup s' current Hf').
  intros i t' p' Hi Hact' Ht' Hp'.
  assert (m_entity_active s' = m_entity_active s) as Hsame.
  { by destruct Hres as (_ & _ & _ & _ & _ & _ & _ & _ & _ & _ & _ & ? & _). }
  rewrite Hsame in Hact'.
  destruct (lookup_lt_is_Some_2 tfront i ltac:(lia)) as [tf Htf].
  destruct (lookup_lt_is_Some_2 (m_physics s) i) as [p Hp];
    [rewrite (wf_physics s Hwf); lia|].
  destruct (pass_result_active _ s s' pushed i tfront tf p
              UpdateParallel_entity_own Hwf Hres Hact' Hf Htf Hp)
    as (back' & Hback & Hslot & Hphys & _).
  unfold GetTransforms_Front in Hf'. rewrite Hidx, Hback in Hf'.
  injection Hf' as <-. rewrite Hslot in Ht'. injection Ht' as <-.
  rewrite Hphys in Hp'. injection Hp' as <-.
  specialize (Hin i tf p Hi Hact' Htf Hp).
  destruct (has_velocity p) eqn:Hv.
  - rewrite UpdateParallel_entity_moving by exact Hv. cbn [fst snd].
    apply entity_sound_spec in Hin as ((Hx & Hy) & Hnx & Hny & Hnvx & Hnvy).
    apply entity_sound_spec. cbn [x y vx vy].
    split; [split; [apply clamp_inside_x|apply clamp_inside_y]|].
    assert (forall lo hi a v, not_nan lo = true -> not_nan hi = true ->
              (forall sg, Prim2SF a <> S754_infinity sg) ->
              not_nan a = true -> not_nan v = true ->
              not_nan (clamp lo hi (a + v)) = true) as Hclamp.
    { intros lo hi a v Hlo Hhi Hinf Ha Hvn. unfold clamp.
      destruct (a + v <? lo)%float; [exact Hlo|].
      destruct (hi <? a + v)%float; [exact Hhi|].
      apply not_nan_spec. rewrite add_spec.
      apply SFadd_not_nan; [exact Hinf|by apply not_nan_spec..]. }
    assert (forall hit v, not_nan v = true -> not_nan (bounce hit v) = true) as Hbounce.
    { intros hit v Hvn. unfold bounce. destruct hit; [|exact Hvn].
      apply not_nan_spec. rewrite opp_spec. apply not_nan_spec in Hvn.
      by destruct (Prim2SF v). }
    destruct (double_to_int_x _ Hnx Hx) as (Hfx & _).
    destruct (double_to_int_y _ Hny Hy) as (Hfy & _).
    repeat split; try (by apply Hclamp); by apply Hbounce.
  - destruct (entity_at_rest i tf p [] Hv) as (-> & _). exact Hin.
Qed.

(** The parallel pipeline never leaves the screen and never casts an
    unrepresentable value: from a well-formed scene whose active entities are
    inside the world with no NaN among their coordinates and velocities
    (infinite velocities included), [k] calls of [UpdateParallel] in a row
    all return, the scene they leave is again such a scene, and
    [CollectParallel] on it returns packets that all fall on the grid. *)
Theorem pipeline_stays_on_screen s events k :
  scene_wf s -> scene_sound s = true ->
  exists s' events' pkts,
    Threads.physics_steps k s events = Some (s', events') /\
    scene_wf s' /\ scene_sound s' = true /\
    PipelineRender.CollectParallel s' [] = Some pkts /\
    Forall (fun p => Renderer.on_screen p = true) pkts.
Proof.
  revert s events. induction k as [|k IH]; intros s events Hwf Hok.
  - destruct (expected_packets_on_screen " " s Hwf Hok) as (pkts & Hrun & Hon).
    exists s, events, pkts. destruct (CollectParallel_spec s [] Hwf) as [-> _].
    do 4 (split; [done|]). exact Hon.
  - destruct (UpdateParallel_sound_step s events Hwf Hok) as (s1 & ev1 & Hrun & Hwf1 & Hok1).
    destruct (IH s1 ev1 Hwf1 Hok1) as (s' & ev' & pkts & Hsteps & Hrest).
    exists s', ev', pkts. cbn [Threads.physics_steps]. rewrite Hrun.
    cbn [mbind option_bind]. by split.
Qed.

Lemma pipeline_stays_on_screen_witness :
  exists s' events' pkts,
    Threads.physics_steps 2 edge_scene [] = Some (s', events') /\
    scene_wf s' /\ scene_sound s' = true /\
    PipelineRender.CollectParallel s' [] = Some pkts /\
    Forall (fun p => Renderer.on_screen p = true) pkts.
Proof.
  apply (pipeline_stays_on_screen edge_scene [] 2 edge_scene_wf).
  vm_compute. reflexivity.
Defined.

(** A render pass of the handshake program, [Collect] and then [Draw] of
    what it collected, on a well-formed scene.  Whenever [Collect] returns,
    that is whenever every cast of a coordinate to [int] is defined, [Draw]
    prints 25 rows that are each exactly 80 characters wide, because
    [Collect] passes no null glyph on.  And [Collect] does return on every
    scene whose active entities are inside the world with no NaN among
    their coordinates and velocities. *)
Theorem Handshake_frame_full_width s packets :
  scene_wf s ->
  (forall pkts,
     HandshakeRender.Collect s packets = Some pkts ->
     exists f,
       Renderer.Draw pkts s = Some f /\
       length (Renderer.rows f) = 25 /\
       Forall (fun row => length row = 80) (Renderer.rows f)) /\
  (scene_sound s = true ->
   exists pkts f,
     HandshakeRender.Collect s packets = Some pkts /\
     Renderer.Draw pkts s = Some f /\
     length (Renderer.rows f) = 25 /\
     Forall (fun row => length row = 80) (Renderer.rows f)).
Proof.
  intros Hwf. split.
  - intros pkts Hcollect. by apply (Handshake_collected_frame s packets).
  - intros Hok.
    destruct (expected_packets_on_screen "000" s Hwf Hok) as (pkts & Hrun & _).
    rewrite <- (Handshake_Collect_spec s packets Hwf) in Hrun.
    destruct (Handshake_collected_frame s packets pkts Hwf Hrun) as (f & Hf).
    by exists pkts, f.
Qed.

Lemma Handshake_frame_full_width_witness :
  (forall pkts,
     HandshakeRender.Collect demo_scene [] = Some pkts ->
     exists f,
       Renderer.Draw pkts demo_scene = Some f /\
       length (Renderer.rows f) = 25 /\
       Forall (fun row => length row = 80) (Renderer.rows f)) /\
  exists pkts f,
    HandshakeRender.Collect demo_scene [] = Some pkts /\
    Renderer.Draw pkts demo_scene = Some f /\
    length (Renderer.rows f) = 25 /\
    Forall (fun row => length row = 80) (Renderer.rows f).
Proof.
  destruct (Handshake_frame_full_width demo_scene [] demo_scene_wf) as [Hany Hsound].
  split; [exact Hany|]. apply Hsound. vm_compute. reflexivity.
Defined.

(** ** The reference-counted draft *)

Lemma Draft_wrap_small z : (0 <= z <= Draft.UINT_MAX)%Z -> Draft.wrap z = z.
Proof. intros Hz. unfold Draft.wrap. apply Z.mod_small. unfold Draft.UINT_MAX in *. lia. Qed.

Lemma AddRects_spec this n : forall heap c u r,
  heap !! this = Some (Draft.mkGameObject c u r) ->
  (0 <= c)%Z -> (c + Z.of_nat n <= Draft.UINT_MAX)%Z ->
  Draft.AddRects n this heap =
  Some (<[this := Draft.mkGameObject (c + Z.of_nat n) u r]> heap).
Proof.
  induction n as [|n IH]; intros heap c u r Hobj Hc Hn.
  - cbn [Draft.AddRects]. rewrite Z.add_0_r. by rewrite insert_id.
  - cbn [Draft.AddRects]. unfold Draft.AddRect. rewrite Hobj.
    cbn [mbind option_bind Draft.m_iRecCount Draft.m_uiUpdateNums Draft.m_uiRenderNums].
    rewrite Draft_wrap_small by lia.
    rewrite (IH _ (c + 1)%Z u r); [|apply lookup_insert_eq|lia|lia].
    rewrite insert_insert_eq. do 3 f_equal. lia.
Qed.

Lemma Releases_spec this n : forall heap c u r,
  heap !! this = Some (Draft.mkGameObject c u r) ->
  (Z.of_nat n <= c <= Draft.UINT_MAX)%Z ->
  Draft.Releases n this heap =
  Some (map (fun k => (c - Z.of_nat k)%Z) (seq 0 n),
        <[this := Draft.mkGameObject (c - Z.of_nat n) u r]> heap).
Proof.
  induction n as [|n IH]; intros heap c u r Hobj Hc.
  - cbn [Draft.Releases seq map]. rewrite Z.sub_0_r. by rewrite insert_id.
  - cbn [Draft.Releases]. unfold Draft.Release. rewrite Hobj.
    cbn [mbind option_bind Draft.m_iRecCount Draft.m_uiUpdateNums Draft.m_uiRenderNums].
    rewrite (proj2 (Z.eqb_neq 0 c)) by lia.
    rewrite Draft_wrap_small by lia. cbn [mbind option_bind].
    rewrite (IH _ (c - 1)%Z u r); [|apply lookup_insert_eq|lia].
    cbn [mbind option_bind seq map]. rewrite insert_insert_eq.
    rewrite <- seq_shift, map_map. do 2 f_equal.
    + f_equal; [lia|]. apply map_ext. intros k. lia.
    + do 2 f_equal. lia.
Qed.

(** Counting is balanced: [n] calls of [AddRect] followed by [n] calls of
    [Release] leave the heap exactly as it was, object alive, as long as
    the count stays at most [UINT_MAX]; the releases return the count
    before each decrement.  A [Release] that finds the count at zero is
    undefined, so on an object whose count was zero one release more than
    the additions is undefined. *)
Theorem AddRect_Release_balance this heap c u r n :
  heap !! this = Some (Draft.mkGameObject c u r) ->
  (0 <= c)%Z -> (c + Z.of_nat n <= Draft.UINT_MAX)%Z ->
  (h ← Draft.AddRects n this heap; Draft.Releases n this h) =
    Some (map (fun k => (c + Z.of_nat n - Z.of_nat k)%Z) (seq 0 n), heap) /\
  (c = 0%Z ->
   Draft.Release this heap = None /\
   (h ← Draft.AddRects n this heap; Draft.Releases (S n) this h) = None).
Proof.
  intros Hobj Hc Hn.
  assert (forall m h, (Z.of_nat m <= Draft.UINT_MAX)%Z ->
            Draft.Releases (S m) this (<[this := Draft.mkGameObject (Z.of_nat m) u r]> h)
            = None) as Hover.
  { induction m as [|m IH]; intros h Hm.
    - cbn [Draft.Releases]. unfold Draft.Release. rewrite lookup_insert_eq. by cbn.
    - change (Draft.Releases (S (S m)) this ?h0) with
        ('(r0, h1) ← Draft.Release this h0;
         '(rs, h2) ← Draft.Releases (S m) this h1; Some (r0 :: rs, h2)).
      unfold Draft.Release at 1. rewrite lookup_insert_eq.
      cbn [mbind option_bind Draft.m_iRecCount Draft.m_uiUpdateNums
           Draft.m_uiRenderNums].
      rewrite (proj2 (Z.eqb_neq 0 (Z.of_nat (S m)))) by lia.
      rewrite Draft_wrap_small by lia.
      cbn [mbind option_bind]. rewrite insert_insert_eq.
      replace (Z.of_nat (S m) - 1)%Z with (Z.of_nat m) by lia.
      rewrite IH by lia. reflexivity. }
  split.
  - rewrite (AddRects_spec this n heap c u r Hobj Hc Hn). cbn [mbind option_bind].
    rewrite (Releases_spec this n _ (c + Z.of_nat n)%Z u r);
      [|apply lookup_insert_eq|lia].
    rewrite insert_insert_eq. do 2 f_equal.
    replace (c + Z.of_nat n - Z.of_nat n)%Z with c by lia. by apply insert_id.
  - intros ->. split.
    + unfold Draft.Release. rewrite Hobj. by cbn.
    + rewrite (AddRects_spec this n heap 0 u r Hobj Hc Hn). cbn [mbind option_bind].
      rewrite Z.add_0_l. apply Hover. lia.
Qed.

Lemma AddRect_Release_balance_witness :
  (h ← Draft.AddRects 3 7 {[ 7 := Draft.mkGameObject 0 2 5 ]};
   Draft.Releases 3 7 h) =
    Some (map (fun k => (0 + Z.of_nat 3 - Z.of_nat k)%Z) (seq 0 3),
          {[ 7 := Draft.mkGameObject 0 2 5 ]}) /\
  (0%Z = 0%Z ->
   Draft.Release 7 {[ 7 := Draft.mkGameObject 0 2 5 ]} = None /\
   (h ← Draft.AddRects 3 7 {[ 7 := Draft.mkGameObject 0 2 5 ]};
    Draft.Releases (S 3) 7 h) = None).
Proof.
  apply (AddRect_Release_balance 7 {[ 7 := Draft.mkGameObject 0 2 5 ]} 0 2 5 3).
  - reflexivity.
  - lia.
  - unfold Draft.UINT_MAX. lia.
Defined.

Lemma main_iterations_spec pObj m : forall st c u r,
  Draft.heap st !! pObj = Some (Draft.mkGameObject c u r) ->
  (0 <= c)%Z -> (c + 2 * Z.of_nat m <= Draft.UINT_MAX)%Z ->
  (0 <= u)%Z -> (u + Z.of_nat m <= Draft.UINT_MAX)%Z ->
  Draft.main_iterations m pObj st =
  Some (Draft.mkProgram
          (<[pObj := Draft.mkGameObject (c + 2 * Z.of_nat m) (u + Z.of_nat m) r]>
             (Draft.heap st))
          (Draft.m_vecReserveGameObjects st ++ replicate m pObj)
          (Draft.m_vecCurrentGameObjects st)
          (Draft.m_vecEnterNums st ++ replicate m pObj)
          (Draft.m_vecDrawNums st) (Draft.cout st)).
Proof.
  induction m as [|m IH]; intros st c u r Hobj Hc Hcm Hu Hum.
  - cbn [Draft.main_iterations replicate]. rewrite !app_nil_r, !Z.add_0_r.
    rewrite insert_id by exact Hobj. by destruct st.
  - cbn [Draft.main_iterations]. unfold Draft.main_iteration, Draft.Update,
      Draft.CPhysicsThread_Write, Draft.CRenderThread_Write, Draft.AddRect.
    rewrite Hobj.
    cbn [mbind option_bind Draft.heap Draft.m_iRecCount Draft.m_uiUpdateNums
         Draft.m_uiRenderNums Draft.m_vecReserveGameObjects
         Draft.m_vecCurrentGameObjects Draft.m_vecEnterNums Draft.m_vecDrawNums
         Draft.cout].
    rewrite lookup_insert_eq.
    cbn [mbind option_bind Draft.heap Draft.m_iRecCount Draft.m_uiUpdateNums
         Draft.m_uiRenderNums Draft.m_vecReserveGameObjects
         Draft.m_vecCurrentGameObjects Draft.m_vecEnterNums Draft.m_vecDrawNums
         Draft.cout].
    rewrite lookup_insert_eq.
    cbn [mbind option_bind Draft.heap Draft.m_iRecCount Draft.m_uiUpdateNums
         Draft.m_uiRenderNums Draft.m_vecReserveGameObjects
         Draft.m_vecCurrentGameObjects Draft.m_vecEnterNums Draft.m_vecDrawNums
         Draft.cout].
    rewrite (Draft_wrap_small (u + 1)), (Draft_wrap_small (c + 1)),
      (Draft_wrap_small (c + 1 + 1)) by lia.
    rewrite !insert_insert_eq.
    rewrite (IH _ (c + 1 + 1)%Z (u + 1)%Z r); [|apply lookup_insert_eq|lia..].
    cbn [Draft.heap Draft.m_vecReserveGameObjects Draft.m_vecCurrentGameObjects
         Draft.m_vecEnterNums Draft.m_vecDrawNums Draft.cout].
    rewrite insert_insert_eq, <- !app_assoc. cbn [app replicate].
    do 2 f_equal. do 2 f_equal; lia.
Qed.

Lemma Draft_wrap_wrap z : Draft.wrap (Draft.wrap z + 0) = Draft.wrap z.
Proof. unfold Draft.wrap. rewrite Z.add_0_r. by rewrite Z.mod_mod. Qed.

Lemma physics_item_spec pObj h c u r :
  h !! pObj = Some (Draft.mkGameObject c u r) ->
  (1 <= c <= Draft.UINT_MAX)%Z ->
  Draft.physics_item pObj h =
  Some (<[pObj := Draft.mkGameObject (c - 1) 0 (Draft.wrap (r + u))]> h).
Proof.
  intros Hobj Hc. unfold Draft.physics_item, Draft.FixedUpdate, Draft.Release.
  rewrite Hobj.
  cbn [mbind option_bind Draft.m_iRecCount Draft.m_uiUpdateNums Draft.m_uiRenderNums].
  rewrite lookup_insert_eq.
  cbn [mbind option_bind Draft.m_iRecCount Draft.m_uiUpdateNums Draft.m_uiRenderNums].
  rewrite (proj2 (Z.eqb_neq 0 c)) by lia. cbn [mbind option_bind].
  rewrite Draft_wrap_small by lia. by rewrite insert_insert_eq.
Qed.

Lemma physics_items_spec pObj m : forall h c u r,
  h !! pObj = Some (Draft.mkGameObject c u r) ->
  (Z.of_nat (S m) <= c <= Draft.UINT_MAX)%Z ->
  Draft.for_each Draft.physics_item (replicate (S m) pObj) h =
  Some (<[pObj := Draft.mkGameObject (c - Z.of_nat (S m)) 0 (Draft.wrap (r + u))]> h).
Proof.
  induction m as [|m IH]; intros h c u r Hobj Hc.
  - cbn [replicate Draft.for_each].
    rewrite (physics_item_spec pObj h c u r Hobj) by lia. reflexivity.
  - change (replicate (S (S m)) pObj) with (pObj :: replicate (S m) pObj).
    cbn [Draft.for_each].
    rewrite (physics_item_spec pObj h c u r Hobj) by lia. cbn [mbind option_bind].
    rewrite (IH _ (c - 1)%Z 0%Z (Draft.wrap (r + u))); [|apply lookup_insert_eq|lia].
    rewrite insert_insert_eq, Draft_wrap_wrap. do 3 f_equal. lia.
Qed.

Lemma render_item_spec pObj h out c u r :
  h !! pObj = Some (Draft.mkGameObject c u r) ->
  (1 <= c <= Draft.UINT_MAX)%Z ->
  Draft.render_item pObj (h, out) =
  Some (<[pObj := Draft.mkGameObject (c - 1) u r]> h, out ++ [r]).
Proof.
  intros Hobj Hc. unfold Draft.render_item, Draft.Render, Draft.Release.
  cbn [fst snd]. rewrite Hobj.
  cbn [mbind option_bind Draft.m_iRecCount Draft.m_uiUpdateNums Draft.m_uiRenderNums].
  rewrite (proj2 (Z.eqb_neq 0 c)) by lia. cbn [mbind option_bind].
  by rewrite Draft_wrap_small by lia.
Qed.

Lemma render_items_spec pObj m : forall h out c u r,
  h !! pObj = Some (Draft.mkGameObject c u r) ->
  (Z.of_nat m <= c <= Draft.UINT_MAX)%Z ->
  Draft.for_each Draft.render_item (replicate m pObj) (h, out) =
  Some (<[pObj := Draft.mkGameObject (c - Z.of_nat m) u r]> h, out ++ replicate m r).
Proof.
  induction m as [|m IH]; intros h out c u r Hobj Hc.
  - cbn [replicate Draft.for_each]. rewrite Z.sub_0_r, app_nil_r.
    by rewrite insert_id.
  - cbn [replicate Draft.for_each].
    rewrite (render_item_spec pObj h out c u r Hobj) by lia. cbn [mbind option_bind].
    rewrite (IH _ _ (c - 1)%Z u r); [|apply lookup_insert_eq|lia].
    rewrite insert_insert_eq, <- app_assoc. cbn [app].
    do 3 f_equal. f_equal. lia.
Qed.

(** The loop bodies called one after the other.  From a state at rest (no
    pointer queued, count and update counter at zero, [r] on the render
    counter), [m] turns of the loop of [main] with [0 < m] and
    [2 m <= UINT_MAX], then one turn of the physics worker's loop, then one
    of the render worker's: every call is defined, the first [FixedUpdate]
    moves all [m] updates onto the render counter, [Render] prints the new
    total, [r + m] modulo [2 ^ 32], once for every pointer the render worker
    was handed, [m] times in all, and the state is at rest again with the
    count back at zero. *)
Theorem burst_is_drawn_once_per_write pObj st r m :
  Draft.heap st !! pObj = Some (Draft.mkGameObject 0 0 r) ->
  Draft.m_vecReserveGameObjects st = [] -> Draft.m_vecCurrentGameObjects st = [] ->
  Draft.m_vecEnterNums st = [] -> Draft.m_vecDrawNums st = [] ->
  0 < m -> (2 * Z.of_nat m <= Draft.UINT_MAX)%Z ->
  (st1 ← Draft.main_iterations m pObj st;
   st2 ← Draft.CPhysicsThread_Progress_iteration st1;
   Draft.CRenderThread_Progress_iteration st2) =
  Some (Draft.mkProgram
          (<[pObj := Draft.mkGameObject 0 0 (Draft.wrap (r + Z.of_nat m))]>
             (Draft.heap st))
          [] [] [] []
          (Draft.cout st ++ replicate m (Draft.wrap (r + Z.of_nat m)))).
Proof.
  intros Hobj Hres Hcur Hent Hdraw Hm Hroom.
  rewrite (main_iterations_spec pObj m st 0 0 r Hobj) by lia.
  cbn [mbind option_bind]. rewrite Hres, Hcur, Hent, Hdraw. cbn [app].
  destruct m as [|m]; [lia|].
  unfold Draft.CPhysicsThread_Progress_iteration.
  cbn [Draft.heap Draft.m_vecReserveGameObjects Draft.m_vecCurrentGameObjects
       Draft.m_vecEnterNums Draft.m_vecDrawNums Draft.cout].
  change (replicate (S m) pObj) with (pObj :: replicate m pObj) at 1.
  cbv beta iota.
  change (pObj :: replicate m pObj) with (replicate (S m) pObj).
  rewrite (physics_items_spec pObj m _ (0 + 2 * Z.of_nat (S m))%Z
             (0 + Z.of_nat (S m))%Z r); [|apply lookup_insert_eq|lia].
  cbn [mbind option_bind]. unfold Draft.CRenderThread_Progress_iteration.
  cbn [Draft.heap Draft.m_vecReserveGameObjects Draft.m_vecCurrentGameObjects
       Draft.m_vecEnterNums Draft.m_vecDrawNums Draft.cout].
  change (replicate (S m) pObj) with (pObj :: replicate m pObj) at 1 2.
  cbv beta iota.
  change (pObj :: replicate m pObj) with (replicate (S m) pObj).
  rewrite (render_items_spec pObj (S m) _ _ (0 + 2 * Z.of_nat (S m) - Z.of_nat (S m))%Z
             0%Z (Draft.wrap (r + (0 + Z.of_nat (S m)))));
    [|apply lookup_insert_eq|lia].
  cbn [mbind option_bind]. rewrite !insert_insert_eq.
  rewrite !Z.add_0_l. do 3 f_equal. f_equal. lia.
Qed.

Lemma burst_is_drawn_once_per_write_witness :
  (st1 ← Draft.main_iterations 3 7 (Draft.start 7);
   st2 ← Draft.CPhysicsThread_Progress_iteration st1;
   Draft.CRenderThread_Progress_iteration st2) =
  Some (Draft.mkProgram
          (<[7 := Draft.mkGameObject 0 0 (Draft.wrap (0 + Z.of_nat 3))]>
             (Draft.heap (Draft.start 7)))
          [] [] [] []
          (Draft.cout (Draft.start 7) ++ replicate 3 (Draft.wrap (0 + Z.of_nat 3)))).
Proof.
  apply (burst_is_drawn_once_per_write 7 (Draft.start 7) 0 3); try reflexivity.
  - lia.
  - unfold Draft.UINT_MAX. lia.
Defined.
